(** * Gateway bootstrap of the cluster map: primary election, registration
      window and metadata discovery.

    Shallow embedding of [bootstrap], [determineRole], [secondaryStartup],
    [primaryStartup], [acceptRegistrations], [discoverMeta], [uncoverMeta]
    and [bcastMaxVer] (package ais), with the properties of the reducer,
    the slow-path resolver and the start-up state machine.

    Conventions.
    - A Go pointer that may be nil is an [option]; a map is a [gmap] when it
      is only looked up and inserted into, and an association list when the
      code ranges over it.
    - [int64] is [Z] with the wrap-around written out ([wrap64]).
    - Process exit ([cmn.ExitLogf]) and a nil dereference are outcomes of
      the computation, next to a normal return.
    - The network, the clock, the environment variables and the nodes that
      register concurrently are inputs: scripts that the loops consume.
    - Log lines are not modelled. *)

From Stdlib Require Import ZArith List Bool Lia.
From stdpp Require Import gmap strings list fin_maps.
Import ListNotations.
Local Open Scope string_scope.
Local Open Scope Z_scope.
Local Open Scope list_scope.

(* ===================================================================== *)
(** ** Data model *)
(* ===================================================================== *)

Definition wrap64 (z : Z) : Z := (z + 2 ^ 63) mod 2 ^ 64 - 2 ^ 63.

(** [cmn.MaxI64] *)
Definition MaxI64 (a b : Z) : Z := if a <? b then b else a.

Inductive node_kind := Proxy | Target.

(** [cluster.Snode]: the fields the bootstrap reads. *)
Record Snode := mkSnode {
  DaemonID : string;
  DaemonType : node_kind;
  DirectURL : string
}.

Definition IsTarget (n : Snode) : bool :=
  match DaemonType n with Target => true | Proxy => false end.

(** [smapX]: the cluster map. [ProxySI] is a pointer and may be nil. *)
Record smapX := mkSmap {
  UUID : string;
  Version : Z;
  CreationTime : string;
  ProxySI : option Snode;
  Pmap : gmap string Snode;
  Tmap : gmap string Snode
}.

(** [bucketMD]: only the identity and the version matter here. *)
Record bucketMD := mkBMD {
  bmdUUID : string;
  bmdVersion : Z
}.

(** [SmapVoteMsg], the reply to [what=smap-vote]; both pointers may be nil. *)
Record SmapVoteMsg := mkSVM {
  VoteInProgress : bool;
  Smap : option smapX;
  BucketMD : option bucketMD
}.

(** What [jsoniter.Unmarshal] makes of the reply body. *)
Inductive payload :=
| Decoded (svm : SmapVoteMsg)
| Malformed.

(** [callResult]: one element of the broadcast channel. [err] stands for
    [res.err != nil]. *)
Record callResult := mkRes {
  si : Snode;
  err : bool;
  outjson : payload
}.

Definition str_eqb (a b : string) : bool := bool_decide (a = b).
Definition str_neb (a b : string) : bool := negb (str_eqb a b).

#[global] Instance node_kind_eq_dec : EqDecision node_kind.
Proof. solve_decision. Defined.

#[global] Instance Snode_eq_dec : EqDecision Snode.
Proof. solve_decision. Defined.

(** Setters, for the in-place updates of the code. *)
Definition set_Pmap (m : smapX) (p : gmap string Snode) : smapX :=
  mkSmap (UUID m) (Version m) (CreationTime m) (ProxySI m) p (Tmap m).

Definition set_ProxySI (m : smapX) (p : option Snode) : smapX :=
  mkSmap (UUID m) (Version m) (CreationTime m) p (Pmap m) (Tmap m).

Definition set_Version (m : smapX) (v : Z) : smapX :=
  mkSmap (UUID m) v (CreationTime m) (ProxySI m) (Pmap m) (Tmap m).

Definition set_UUID (m : smapX) (u : string) (ct : string) : smapX :=
  mkSmap u (Version m) ct (ProxySI m) (Pmap m) (Tmap m).

(** [smap.Pmap[n.ID()] = n] *)
Definition addProxy (m : smapX) (n : Snode) : smapX :=
  set_Pmap m (<[DaemonID n := n]> (Pmap m)).

(** A map keyed by [*cluster.Snode]: the code inserts and ranges over it.
    Every node of a broadcast answers once, under its own pointer; the key
    is the node record. *)
Definition nodemap (V : Type) : Type := list (Snode * V).

Fixpoint nm_insert {V} (k : Snode) (v : V) (m : nodemap V) : nodemap V :=
  match m with
  | [] => [(k, v)]
  | (k', v') :: tl =>
      if decide (k = k') then (k, v) :: tl else (k', v') :: nm_insert k v tl
  end.

(* ===================================================================== *)
(** ** The reducer: [bcastMaxVer] *)
(* ===================================================================== *)

(** The named results and the locals of [bcastMaxVer]. [bmds] and [smaps]
    are the caller's maps (nil when the caller passes nil). *)
Record reduce := mkReduce {
  maxVerSmap : option smapX;
  maxVerBMD : option bucketMD;
  done : bool;
  slowp : bool;
  borigin : string;
  sorigin : string;
  bmds : option (nodemap bucketMD);
  smaps : option (nodemap smapX)
}.

(** State on entry: [done = true], the two maps emptied (a nil map stays
    nil). *)
Definition reduce_init (bm : option (nodemap bucketMD))
    (sm : option (nodemap smapX)) : reduce :=
  mkReduce None None true false EmptyString EmptyString
    (option_map (fun _ => []) bm) (option_map (fun _ => []) sm).

Definition set_done (st : reduce) (d : bool) : reduce :=
  mkReduce (maxVerSmap st) (maxVerBMD st) d (slowp st) (borigin st)
    (sorigin st) (bmds st) (smaps st).

(** Lines 443-452: the BMD of one reply. *)
Definition reduceBMD (svm : SmapVoteMsg) (st : reduce) : reduce :=
  match BucketMD svm with
  | Some b =>
      if 0 <? bmdVersion b then
        match maxVerBMD st with
        | None =>
            mkReduce (maxVerSmap st) (Some b) (done st) (slowp st)
              (bmdUUID b) (sorigin st) (bmds st) (smaps st)
        | Some mx =>
            if str_neb (borigin st) EmptyString &&
               str_neb (borigin st) (bmdUUID b)
            then mkReduce (maxVerSmap st) (maxVerBMD st) (done st) true
                   (borigin st) (sorigin st) (bmds st) (smaps st)
            else if negb (slowp st) && (bmdVersion mx <? bmdVersion b)
            then mkReduce (maxVerSmap st) (Some b) (done st) (slowp st)
                   (bmdUUID b) (sorigin st) (bmds st) (smaps st)
            else st
        end
      else st
  | None => st
  end.

(** Line 453: the guard of the vote-in-progress exit. *)
Definition voteBreak (svm : SmapVoteMsg) : bool :=
  match Smap svm with
  | Some _ => VoteInProgress svm
  | None => false
  end.

(** Lines 459-460: zero-out as unusable. *)
Definition zeroOut (st : reduce) : reduce :=
  mkReduce None None false (slowp st) (borigin st) (sorigin st)
    (bmds st) (smaps st).

(** Lines 463-472: the Smap of one reply. *)
Definition reduceSmap (svm : SmapVoteMsg) (st : reduce) : reduce :=
  match Smap svm with
  | Some s =>
      if 0 <? Version s then
        match maxVerSmap st with
        | None =>
            mkReduce (Some s) (maxVerBMD st) (done st) (slowp st)
              (borigin st) (UUID s) (bmds st) (smaps st)
        | Some mx =>
            if str_neb (sorigin st) EmptyString &&
               str_neb (sorigin st) (UUID s)
            then mkReduce (maxVerSmap st) (maxVerBMD st) (done st) true
                   (borigin st) (sorigin st) (bmds st) (smaps st)
            else if negb (slowp st) && (Version mx <? Version s)
            then mkReduce (Some s) (maxVerBMD st) (done st) (slowp st)
                   (borigin st) (UUID s) (bmds st) (smaps st)
            else st
        end
      else st
  | None => st
  end.

(** Lines 473-478: keep the reply under its node. *)
Definition retain (n : Snode) (svm : SmapVoteMsg) (st : reduce) : reduce :=
  let bm :=
    match bmds st, BucketMD svm with
    | Some m, Some b =>
        if 0 <? bmdVersion b then Some (nm_insert n b m) else Some m
    | o, _ => o
    end in
  let sm :=
    match smaps st, Smap svm with
    | Some m, Some s =>
        if 0 <? Version s then Some (nm_insert n s m) else Some m
    | o, _ => o
    end in
  mkReduce (maxVerSmap st) (maxVerBMD st) (done st) (slowp st)
    (borigin st) (sorigin st) bm sm.

(** The body of [for res := range results]: the loop over the channel, with
    its two [continue]s and its [break]. *)
Fixpoint reduceLoop (results : list callResult) (st : reduce) : reduce :=
  match results with
  | [] => st
  | res :: rest =>
      if err res then reduceLoop rest (set_done st false)
      else
        match outjson res with
        | Malformed => reduceLoop rest (set_done st false)
        | Decoded svm =>
            let st1 := reduceBMD svm st in
            if voteBreak svm then zeroOut st1
            else reduceLoop rest (retain (si res) svm (reduceSmap svm st1))
        end
  end.

(** [bcastMaxVer]: [results] is what [p.bcastTo(args)] delivers, in the
    order of arrival. *)
Definition bcastMaxVer (results : list callResult)
    (bm : option (nodemap bucketMD)) (sm : option (nodemap smapX)) : reduce :=
  reduceLoop results (reduce_init bm sm).

(* ===================================================================== *)
(** ** The process: state, inputs and outcomes *)
(* ===================================================================== *)

(** Effects that leave a mark: installs into the owners, persistence,
    metasync calls, broadcasts, sleeps, joins. *)
Inductive event :=
| EvPutSmap (m : smapX)
| EvPutBMD (b : bucketMD)
| EvPersist (m : smapX)
| EvSync (tag : string) (m : smapX) (b : option bucketMD)
| EvBcast (m : smapX)
| EvSleep (d : Z)
| EvJoin
| EvPoll
| EvStarted.

(** One turn of the wait loop of [acceptRegistrations], as the outside
    world presents it: the value of [time.Since(started)] at the loop
    condition, the Smap that [p.owner.smap.get()] returns after the sleep
    (nodes register concurrently), the value of [time.Since(started)] at
    the probe condition, and the replies to the probe, if it is sent. *)
Record tick := mkTick {
  t_since : Z;
  t_smap : smapX;
  t_since_probe : Z;
  t_results : list callResult
}.

(** One round of the discovery loop of [uncoverMeta]: the time elapsed
    since [now] when [last] is computed, and the replies to the broadcast. *)
Record round := mkRound {
  r_elapsed : Z;
  r_results : list callResult
}.

(** The owners ([p.owner.smap], [p.owner.bmd]), the last clock reading,
    the trace of effects (most recent first), and what is left of the
    inputs: ticks, discovery rounds, and the results of
    [p.withRetry(p.joinCluster, "join")] ([true] is an error). *)
Record world := mkWorld {
  w_smap : option smapX;
  w_bmd : option bucketMD;
  w_clock : Z;
  w_trace : list event;
  w_ticks : list tick;
  w_rounds : list round;
  w_joins : list bool
}.

(** Why the process exits. *)
Inductive fatal :=
| ExitEnv                       (* AIS_IS_PRIMARY with another AIS_PRIMARY_ID *)
| ExitJoin                      (* failed to join *)
| ExitCIE (code : Z)            (* cluster integrity error *)
| ExitBmdSplit                  (* errBmdUUIDSplit *)
| ExitMerge (e : option string) (* line 347, with the error of merge *)
| ExitPersist.

Inductive outcome (A : Type) :=
| Ret (a : A) (w : world)
| Exit (f : fatal) (w : world)
| Panic (w : world)
| Starved (w : world).
Arguments Ret {A} a w.
Arguments Exit {A} f w.
Arguments Panic {A} w.
Arguments Starved {A} w.

Definition M (A : Type) : Type := world -> outcome A.

Definition ret {A} (a : A) : M A := fun w => Ret a w.

Definition bind {A B} (c : M A) (k : A -> M B) : M B :=
  fun w =>
    match c w with
    | Ret a w' => k a w'
    | Exit f w' => Exit f w'
    | Panic w' => Panic w'
    | Starved w' => Starved w'
    end.

Notation "x <- c1 ;; c2" := (bind c1 (fun x => c2))
  (at level 100, c1 at next level, right associativity).
Notation "c1 ;;; c2" := (bind c1 (fun _ => c2))
  (at level 100, right associativity).

(** [cmn.ExitLogf] *)
Definition exitLogf {A} (f : fatal) : M A := fun w => Exit f w.

Definition panic {A} : M A := fun w => Panic w.

Definition log (e : event) : M unit :=
  fun w => Ret tt (mkWorld (w_smap w) (w_bmd w) (w_clock w) (e :: w_trace w)
                     (w_ticks w) (w_rounds w) (w_joins w)).

(** [p.owner.smap.put] *)
Definition putSmap (m : smapX) : M unit :=
  fun w => Ret tt (mkWorld (Some m) (w_bmd w) (w_clock w)
                     (EvPutSmap m :: w_trace w)
                     (w_ticks w) (w_rounds w) (w_joins w)).

(** [p.owner.smap.get]; the callers dereference the result at once. *)
Definition getSmap : M smapX :=
  fun w => match w_smap w with Some m => Ret m w | None => Panic w end.

(** [p.owner.bmd.put] *)
Definition putBMD (b : bucketMD) : M unit :=
  fun w => Ret tt (mkWorld (w_smap w) (Some b) (w_clock w)
                     (EvPutBMD b :: w_trace w)
                     (w_ticks w) (w_rounds w) (w_joins w)).

(** [p.owner.bmd.get] *)
Definition getBMD : M (option bucketMD) := fun w => Ret (w_bmd w) w.

(** A node registered meanwhile: the owner now holds [m]. Not an install
    of the bootstrap, so no event. *)
Definition registered (m : smapX) (w : world) : world :=
  mkWorld (Some m) (w_bmd w) (w_clock w) (w_trace w)
    (w_ticks w) (w_rounds w) (w_joins w).

Definition set_clock (t : Z) (w : world) : world :=
  mkWorld (w_smap w) (w_bmd w) t (w_trace w)
    (w_ticks w) (w_rounds w) (w_joins w).

Definition set_ticks (l : list tick) (w : world) : world :=
  mkWorld (w_smap w) (w_bmd w) (w_clock w) (w_trace w)
    l (w_rounds w) (w_joins w).

Definition set_rounds (l : list round) (w : world) : world :=
  mkWorld (w_smap w) (w_bmd w) (w_clock w) (w_trace w)
    (w_ticks w) l (w_joins w).

Definition add_event (e : event) (w : world) : world :=
  mkWorld (w_smap w) (w_bmd w) (w_clock w) (e :: w_trace w)
    (w_ticks w) (w_rounds w) (w_joins w).

(** [p.withRetry(p.joinCluster, "join")]: [true] when it gives up with an
    error. *)
Definition joinCluster : M bool :=
  fun w =>
    match w_joins w with
    | [] => Starved w
    | e :: rest =>
        Ret e (mkWorld (w_smap w) (w_bmd w) (w_clock w) (EvJoin :: w_trace w)
                 (w_ticks w) (w_rounds w) rest)
    end.

(** [cmn.Config]: the timeouts the start-up reads, with the command-line
    flag [daemon.cli.skipStartup]. Durations are in nanoseconds. *)
Record config := mkConfig {
  Startup : Z;
  MaxKeepalive : Z;
  CplaneOperation : Z;
  skipStartup : bool
}.

Definition second : Z := 1000000000.

(** The environment variables, [AIS_IS_PRIMARY] after [cmn.ParseBool]
    (unset or unparsable is [false]). *)
Record environ := mkEnv {
  AIS_PRIMARY_ID : string;
  AIS_IS_PRIMARY : bool
}.

Inductive bmd_error := errBmdUUIDSplit | errNoBMD | errOther.

(** Functions of the package that the start-up calls and whose bodies are
    elsewhere: they are taken as they come.
    - [isPrimary m n]: [m.isPrimary(n)];
    - [Compare m o]: [m.Compare(&o.Smap)], giving (sameUUID, sameVersion, eq);
    - [merge m dst override]: [m.merge(dst, override)], giving [dst] as the
      call leaves it, the number of nodes added and the error;
    - [resolveUUIDBMD];
    - [rangeTargets], [rangeAll]: the order in which the two [range] loops
      of [uncoverMeta] visit the per-node map (Go leaves it unspecified);
    - [newClusterUUID], [persist] ([Some] is an error), and
      [checkPresenceNetChange] ([true] is an error). *)
Class SmapOps : Type := {
  isPrimary : smapX -> Snode -> bool;
  Compare : smapX -> smapX -> bool * bool * bool;
  merge : smapX -> smapX -> bool -> smapX * Z * option string;
  resolveUUIDBMD : nodemap bucketMD -> option bucketMD * option bmd_error;
  rangeTargets : nodemap smapX -> nodemap smapX;
  rangeAll : nodemap smapX -> nodemap smapX;
  newClusterUUID : string * string;
  persist : smapX -> option string;
  checkPresenceNetChange : smapX -> bool
}.

(** Modelled from the spec: [newSmap] is missing from the sources; the spec has
    "newEmpty() (version 0, empty uuid)", and the minimal map of the primary
    start-up, made of [newSmap()] plus this node, "contains only self". *)
Definition newSmap : smapX := mkSmap EmptyString 0 EmptyString None ∅ ∅.

(** Modelled from the spec: [Smap.GetProxy] is missing from the sources;
    the spec has "names a known gateway", a key of the gateway map. *)
Definition GetProxy (m : smapX) (pid : string) : option Snode := Pmap m !! pid.

(** Modelled from the spec: [CountTargets] and [CountProxies] are missing
    from the sources; the spec has "target count", the size of the target
    map. *)
Definition CountTargets (m : smapX) : Z := Z.of_nat (size (Tmap m)).
Definition CountProxies (m : smapX) : Z := Z.of_nat (size (Pmap m)).

(* ===================================================================== *)
(** ** The start-up functions *)
(* ===================================================================== *)

Section Bootstrap.

Context {ops : SmapOps}.
Variable self : Snode.     (* p.si *)
Variable cfg : config.     (* cmn.GCO.Get() *)
Variable env : environ.    (* os.Getenv *)

(** Lines 98-108 of [determineRole]: [AIS_PRIMARY_ID] against the loaded
    Smap. Gives the Smap and the id as the block leaves them. *)
Definition adoptEnvPrimary (smap : smapX) (pid : string) : M (smapX * string) :=
  match GetProxy smap pid with
  | None => ret (smap, EmptyString)
  | Some primary =>
      match ProxySI smap with
      | None => panic
      | Some cur =>
          if str_neb (DaemonID cur) pid
          then ret (set_ProxySI smap (Some primary), pid)
          else ret (smap, pid)
      end
  end.

(** [determineRole]: the Smap to go on with (nil when nothing was loaded)
    and the [secondary] decision. *)
Definition determineRole (smap : smapX) (loaded : bool)
    : M (option smapX * bool) :=
  let smap1 := if loaded then addProxy smap self else smap in
  let pid := AIS_PRIMARY_ID env in
  let primary := AIS_IS_PRIMARY env in
  if str_neb pid EmptyString && primary && str_neb (DaemonID self) pid
  then exitLogf ExitEnv
  else
    r <- (if loaded && str_neb pid EmptyString then adoptEnvPrimary smap1 pid
          else ret (smap1, pid)) ;;
    let smap2 := fst r in
    let pid2 := snd r in
    let secondary :=
      if str_neb pid2 EmptyString then str_neb pid2 (DaemonID self)
      else if loaded then negb (isPrimary smap2 self)
      else negb primary in
    ret (if loaded then Some smap2 else None, secondary).

(** [secondaryStartup]: [true] when the join failed. *)
Definition secondaryStartup (smap : option smapX) : M bool :=
  let smap1 := match smap with Some m => m | None => newSmap end in
  putSmap smap1 ;;;
  e <- joinCluster ;;
  if e then ret true
  else log EvPoll ;;; ret false.

(** Lines 285-287 of [acceptRegistrations]: is the reduced Smap a reason
    to give way? *)
Definition movedOn (loadedSmap : smapX) (r : reduce) : bool :=
  match maxVerSmap r with
  | Some mv =>
      negb (slowp r) &&
      (str_eqb (UUID mv) (UUID loadedSmap) &&
       (Version loadedSmap <? Version mv) &&
       match ProxySI mv with
       | Some p => str_neb (DaemonID p) (DaemonID self)
       | None => false
       end)
  | None => false
  end.

(** The wait loop of [acceptRegistrations], lines 263-302. [maxVer] is the
    named result [maxVerSmap]; both [return]s and the fall-through after
    the loop give it back as it stands, here with the ticks not consumed. *)
Fixpoint regLoop (loadedSmap : option smapX) (ntargets : Z)
    (ticks : list tick) (wtime : Z) (checked : bool)
    (maxVer : option smapX) (w : world)
    : outcome (option smapX * list tick) :=
  match ticks with
  | [] => Starved w
  | tk :: rest =>
      let w0 := set_clock (t_since tk) w in
      if t_since tk <? wtime then
        let w1 := registered (t_smap tk) (add_event (EvSleep second) w0) in
        let smap := t_smap tk in
        if negb (isPrimary smap self) then Ret (maxVer, rest) w1
        else
          let nt := CountTargets smap in
          if (ntargets <=? nt) && (0 <? ntargets) then Ret (maxVer, rest) w1
          else
            let wtime' := if 0 <? nt then Startup cfg else wtime in
            if negb checked then
              match loadedSmap with
              | None => Panic w1
              | Some l =>
                  if 0 <? CountTargets l then
                    let w2 := set_clock (t_since_probe tk) w1 in
                    if wrap64 (2 * MaxKeepalive cfg) <? t_since_probe tk then
                      let w3 := add_event (EvBcast l) w2 in
                      let r := bcastMaxVer (t_results tk) None None in
                      if movedOn l r then Ret (maxVerSmap r, rest) w3
                      else regLoop loadedSmap ntargets rest wtime' true None w3
                    else
                      regLoop loadedSmap ntargets rest wtime' checked maxVer w2
                  else regLoop loadedSmap ntargets rest wtime' checked maxVer w1
              end
            else regLoop loadedSmap ntargets rest wtime' checked maxVer w1
      else Ret (maxVer, rest) w0
  end.

(** [acceptRegistrations]; the ticks come from the world and what is left
    of them goes back. *)
Definition acceptRegistrations (smap : smapX) (loadedSmap : option smapX)
    (ntargets : Z) : M (option smapX) :=
  fun w =>
    if CountTargets smap =? 0 then
      match regLoop loadedSmap ntargets (w_ticks w) (Startup cfg ÷ 2)
              (match loadedSmap with None => true | Some _ => false end)
              None (set_ticks [] w) with
      | Ret (maxVer, rest) w' => Ret maxVer (set_ticks rest w')
      | Exit f w' => Exit f w'
      | Panic w' => Panic w'
      | Starved w' => Starved w'
      end
    else Panic w.

(** The broadcast loop of [uncoverMeta], lines 371-378; gives the state of
    the last reduction and the rounds not consumed. *)
Fixpoint bcastLoop (bcastSmap : smapX) (rounds : list round)
    (bm : option (nodemap bucketMD)) (sm : option (nodemap smapX))
    (w : world) : outcome (reduce * list round) :=
  match rounds with
  | [] => Starved w
  | rd :: rest =>
      let last := Startup cfg <? r_elapsed rd in
      let w1 := add_event (EvBcast bcastSmap) (set_clock (r_elapsed rd) w) in
      let r := bcastMaxVer (r_results rd) bm sm in
      if done r || last then Ret (r, rest) w1
      else bcastLoop bcastSmap rest (bmds r) (smaps r)
             (add_event (EvSleep (CplaneOperation cfg)) w1)
  end.

(** The loop of [uncoverMeta] on the rounds of the world, with the two
    per-node maps made empty. *)
Definition broadcasts (bcastSmap : smapX) : M reduce :=
  fun w =>
    match bcastLoop bcastSmap (w_rounds w) (Some []) (Some [])
            (set_rounds [] w) with
    | Ret (r, rest) w' => Ret r (set_rounds rest w')
    | Exit f w' => Exit f w'
    | Panic w' => Panic w'
    | Starved w' => Starved w'
    end.

(** Lines 388-402: the targets agree on a uuid, or not ([None]: CIE-30). *)
Fixpoint agreeUUID (l : nodemap smapX) (suuid : string) : option string :=
  match l with
  | [] => Some suuid
  | (n, smap) :: tl =>
      if negb (IsTarget n) then agreeUUID tl suuid
      else if str_eqb suuid EmptyString then agreeUUID tl (UUID smap)
      else if str_neb suuid (UUID smap) && str_neb (UUID smap) EmptyString
      then None
      else agreeUUID tl suuid
  end.

(** Lines 403-412: the running maximum over the Smaps of that uuid. *)
Fixpoint pickMax (l : nodemap smapX) (suuid : string) (mx : option smapX)
    : option smapX :=
  match l with
  | [] => mx
  | (_, smap) :: tl =>
      if str_neb (UUID smap) suuid then pickMax tl suuid mx
      else
        match mx with
        | None => pickMax tl suuid (Some smap)
        | Some m =>
            if Version m <? Version smap then pickMax tl suuid (Some smap)
            else pickMax tl suuid mx
        end
  end.

Definition nm_of {V} (o : option (nodemap V)) : nodemap V :=
  match o with Some m => m | None => [] end.

(** Lines 379-414: the slow path, on the state the last broadcast left. *)
Definition slowPath (r : reduce) : M (option smapX * option bucketMD) :=
  let '(maxBMD, e) := resolveUUIDBMD (nm_of (bmds r)) in
  match e with
  | Some errBmdUUIDSplit => exitLogf ExitBmdSplit
  | _ =>
      match agreeUUID (rangeTargets (nm_of (smaps r))) EmptyString with
      | None => exitLogf (ExitCIE 30)
      | Some suuid =>
          ret (pickMax (rangeAll (nm_of (smaps r))) suuid (maxVerSmap r),
               maxBMD)
      end
  end.

(** [uncoverMeta] *)
Definition uncoverMeta (bcastSmap : smapX)
    : M (option smapX * option bucketMD) :=
  r <- broadcasts bcastSmap ;;
  if slowp r then slowPath r
  else ret (maxVerSmap r, maxVerBMD r).

(** Lines 310-317 of [discoverMeta]. *)
Definition installBMD (maxBMD : option bucketMD) : M unit :=
  match maxBMD with
  | None => ret tt
  | Some b =>
      cur <- getBMD ;;
      match cur with
      | None => putBMD b
      | Some c => if bmdVersion c <? bmdVersion b then putBMD b else ret tt
      end
  end.

(** Lines 343-352 of [discoverMeta]: merge and install. *)
Definition mergeAndInstall (maxVer : smapX) (eq : bool) : M unit :=
  clone <- getSmap ;;
  if negb eq then
    let '(_, _, e) := merge maxVer clone false in
    exitLogf (ExitMerge e)
  else
    putSmap (set_Version clone
               (wrap64 (MaxI64 (Version clone) (Version maxVer) + 1))).

(** [discoverMeta] *)
Definition discoverMeta (smap : smapX) : M unit :=
  found <- uncoverMeta smap ;;
  installBMD (snd found) ;;;
  match fst found with
  | None => ret tt
  | Some maxVer =>
      if Version maxVer =? 0 then ret tt
      else
        let '(sameUUID, sameVersion, eq) := Compare smap maxVer in
        if negb sameUUID then exitLogf (ExitCIE 10)
        else if eq && sameVersion then ret tt
        else
          match ProxySI maxVer with
          | Some pr =>
              if str_neb (DaemonID pr) (DaemonID self) then
                if Version smap <? Version maxVer
                then putSmap (addProxy maxVer self)
                else exitLogf (ExitCIE 20)
              else mergeAndInstall maxVer eq
          | None => mergeAndInstall maxVer eq
          end
  end.

Definition metaction1 : string := "early-start-have-registrations".
Definition metaction2 : string := "primary-started-up".

(** Lines 174-204 of [primaryStartup]: the loaded Smap meets what has
    registered. Gives the Smap to discover with. *)
Definition mergeLoaded (loadedSmap : option smapX) : M smapX :=
  smap <- getSmap ;;
  if (0 <? CountTargets smap) || (1 <? CountProxies smap) then
    smap1 <- match loadedSmap with
             | Some l =>
                 let '(l1, added, _) := merge smap l true in
                 let l2 :=
                   if 0 <? added
                   then set_Version l1 (wrap64 (Version l1 + wrap64 added + 1))
                   else l1 in
                 putSmap l2 ;;; ret l2
             | None => ret smap
             end ;;
    bmd <- getBMD ;;
    log (EvSync metaction1 smap1 bmd) ;;;
    ret smap1
  else
    match loadedSmap with
    | Some l => putSmap l ;;; ret l
    | None => ret smap
    end.

(** Lines 221-250 of [primaryStartup]: persist and finalize. *)
Definition finalize (smap : smapX) : M unit :=
  smap1 <- (if str_eqb (UUID smap) EmptyString then
              let clone :=
                set_Version
                  (set_UUID smap (fst newClusterUUID) (snd newClusterUUID))
                  (wrap64 (Version smap + 1)) in
              putSmap clone ;;; ret clone
            else ret smap) ;;
  match persist smap1 with
  | Some _ => exitLogf ExitPersist
  | None =>
      log (EvPersist smap1) ;;;
      cur <- getBMD ;;
      match cur with
      | None => panic
      | Some bmd =>
          bmd1 <- (if bmdVersion bmd =? 0 then
                     let clone := mkBMD (UUID smap1) 1 in
                     putBMD clone ;;; ret clone
                   else ret bmd) ;;
          log (EvSync metaction2 smap1 (Some bmd1)) ;;;
          log EvStarted
      end
  end.

(** Lines 161-171 and 212-218: go on as a secondary, with [m] installed. *)
Definition demote (m : smapX) : M unit :=
  e <- secondaryStartup (Some m) ;;
  if e then exitLogf ExitJoin else ret tt.

(** Lines 209-251 of [primaryStartup]: still primary? *)
Definition stillPrimary : M unit :=
  smap <- getSmap ;;
  if negb (isPrimary smap self) then demote smap
  else finalize smap.

(** Lines 149-156 of [primaryStartup]: the Smap to accept registrations,
    with this node alone, as primary. *)
Definition minimalSmap : smapX :=
  set_ProxySI (addProxy newSmap self) (Some self).

(** [primaryStartup] *)
Definition primaryStartup (loadedSmap : option smapX) (ntargets : Z) : M unit :=
  let smap := minimalSmap in
  putSmap smap ;;;
  maxVer <- (if skipStartup cfg then ret None
             else acceptRegistrations smap loadedSmap ntargets) ;;
  match maxVer with
  | Some mv =>
      let mv1 := addProxy mv self in
      putSmap mv1 ;;;
      demote mv1
  | None =>
      smap1 <- mergeLoaded loadedSmap ;;
      discoverMeta smap1 ;;;
      stillPrimary
  end.

(** [bootstrap]; [disk] is what [p.owner.smap.load] finds ([None]: an
    error). [go p.primaryStartup(...)] is run in place. *)
Definition bootstrap (disk : option smapX) (ntargets : Z) : M unit :=
  let '(smap, loaded) :=
    match disk with
    | Some m => (m, negb (checkPresenceNetChange m))
    | None => (newSmap, false)
    end in
  role <- determineRole smap loaded ;;
  let smap1 := fst role in
  if negb (snd role) then primaryStartup smap1 ntargets
  else
    e <- secondaryStartup smap1 ;;
    if e then
      e2 <- (if loaded then
               match smap1 with
               | None => panic
               | Some m =>
                   found <- uncoverMeta m ;;
                   match fst found with
                   | Some maxVer =>
                       match ProxySI maxVer with
                       | Some _ => secondaryStartup (Some maxVer)
                       | None => ret e
                       end
                   | None => ret e
                   end
               end
             else ret e) ;;
      if e2 then exitLogf ExitJoin else ret tt
    else ret tt.

End Bootstrap.

(* ===================================================================== *)
(** ** The functions whose bodies are elsewhere, after the specification *)
(* ===================================================================== *)

(** Modelled from the spec: [smapX.isPrimary] is missing from the sources;
    the spec has the CMap's "primaryID" and "self is not its primary". *)
Definition isPrimary_spec (m : smapX) (n : Snode) : bool :=
  match ProxySI m with
  | Some p => str_eqb (DaemonID p) (DaemonID n)
  | None => false
  end.

(** Modelled from the spec: [Smap.Compare] is missing from the sources;
    the spec has "Same uuid, same version, element-equal". *)
Definition Compare_spec (m o : smapX) : bool * bool * bool :=
  (str_eqb (UUID m) (UUID o),
   Version m =? Version o,
   bool_decide (Pmap m = Pmap o) && bool_decide (Tmap m = Tmap o)).

(** A node of [dst] at the address of [n] under another id. *)
Definition clash (n x : Snode) : bool :=
  str_eqb (DirectURL x) (DirectURL n) && str_neb (DaemonID x) (DaemonID n).

Definition hasDuplicate (dst : smapX) (n : Snode) : bool :=
  existsb (fun kv => clash n (snd kv))
    (map_to_list (Pmap dst) ++ map_to_list (Tmap dst)).

Definition dropDuplicates (dst : smapX) (n : Snode) : smapX :=
  mkSmap (UUID dst) (Version dst) (CreationTime dst) (ProxySI dst)
    (filter (fun kv => clash n (snd kv) = false) (Pmap dst))
    (filter (fun kv => clash n (snd kv) = false) (Tmap dst)).

Definition known (dst : smapX) (id : string) : bool :=
  match Pmap dst !! id, Tmap dst !! id with
  | None, None => false
  | _, _ => true
  end.

Definition addNode (dst : smapX) (n : Snode) : smapX :=
  match DaemonType n with
  | Proxy => set_Pmap dst (<[DaemonID n := n]> (Pmap dst))
  | Target =>
      mkSmap (UUID dst) (Version dst) (CreationTime dst) (ProxySI dst)
        (Pmap dst) (<[DaemonID n := n]> (Tmap dst))
  end.

Definition mergeNode (override : bool) (acc : smapX * Z * option string)
    (n : Snode) : smapX * Z * option string :=
  let '(dst, added, e) := acc in
  match e with
  | Some _ => acc
  | None =>
      if hasDuplicate dst n && negb override
      then (dst, added, Some "duplicate IP:port")
      else
        let dst1 := if hasDuplicate dst n then dropDuplicates dst n else dst in
        if known dst1 (DaemonID n) then (dst1, added, None)
        else (addNode dst1 n, added + 1, None)
  end.

(** Modelled from the spec: [smapX.merge] is missing from the sources; the
    spec has "union of node sets; on (ip, port) collision, override
    duplicates" and "strict — fail if (ip, port) duplicates detected". *)
Definition merge_spec (m dst : smapX) (override : bool)
    : smapX * Z * option string :=
  fold_left (mergeNode override)
    (map snd (map_to_list (Tmap m)) ++ map snd (map_to_list (Pmap m)))
    (dst, 0, None).

Definition countUUID (u : string) (l : nodemap bucketMD) : nat :=
  length (filter (fun kv => bmdUUID (snd kv) = u) l).

Definition bestBMD (u : string) (l : nodemap bucketMD) : option bucketMD :=
  fold_left
    (fun acc kv =>
       if str_neb (bmdUUID (snd kv)) u then acc
       else match acc with
            | None => Some (snd kv)
            | Some b =>
                if bmdVersion b <? bmdVersion (snd kv) then Some (snd kv)
                else acc
            end)
    l None.

(** Modelled from the spec: [resolveUUIDBMD] is missing from the sources;
    the spec has "return the BMeta with the majority uuid among responders;
    if responders are evenly split between two non-empty uuids, fail with
    BMetaUUIDSplit". *)
Definition resolveUUIDBMD_spec (l : nodemap bucketMD)
    : option bucketMD * option bmd_error :=
  match l with
  | [] => (None, Some errNoBMD)
  | kv :: _ =>
      let top :=
        fold_left
          (fun u kv' =>
             if (countUUID u l <? countUUID (bmdUUID (snd kv')) l)%nat
             then bmdUUID (snd kv') else u)
          l (bmdUUID (snd kv)) in
      if existsb
           (fun kv' =>
              str_neb (bmdUUID (snd kv')) top &&
              str_neb (bmdUUID (snd kv')) EmptyString && str_neb top EmptyString &&
              (countUUID (bmdUUID (snd kv')) l =? countUUID top l)%nat)
           l
      then (None, Some errBmdUUIDSplit)
      else (bestBMD top l, None)
  end.

(** The collaborators as the specification describes them; the [range]
    loops visit the per-node map in the order of arrival. *)
Definition specOps : SmapOps := {|
  isPrimary := isPrimary_spec;
  Compare := Compare_spec;
  merge := merge_spec;
  resolveUUIDBMD := resolveUUIDBMD_spec;
  rangeTargets := fun l => l;
  rangeAll := fun l => l;
  newClusterUUID := ("cluster-uuid", "now");
  persist := fun _ => None;
  checkPresenceNetChange := fun _ => false
|}.

(** *** Concrete nodes, maps and replies for the examples *)

Definition G1 : Snode := mkSnode "G1" Proxy "10.0.0.1:8080".
Definition G2 : Snode := mkSnode "G2" Proxy "10.0.0.2:8080".
Definition T1 : Snode := mkSnode "T1" Target "10.0.1.1:9090".
Definition T2 : Snode := mkSnode "T2" Target "10.0.1.2:9090".

Definition smapOf (u : string) (v : Z) (primary : option Snode)
    (ps ts : list Snode) : smapX :=
  mkSmap u v "t0" primary
    (list_to_map (map (fun n => (DaemonID n, n)) ps))
    (list_to_map (map (fun n => (DaemonID n, n)) ts)).

Definition reply (n : Snode) (vote : bool) (s : option smapX)
    (b : option bucketMD) : callResult :=
  mkRes n false (Decoded (mkSVM vote s b)).

(** The minimal Smap of the primary start-up of [G1], the same with a
    target registered, and an Smap of another primary. *)
Definition aloneG1 : smapX := minimalSmap G1.

Definition withTarget : smapX :=
  mkSmap EmptyString 0 EmptyString (Some G1) (Pmap aloneG1) {[ "T1" := T1 ]}.

Definition foreign : smapX := smapOf "U" 3 (Some G2) [G1; G2] [].

(** A tick [t] seconds after the start, with [m] installed and no reply. *)
Definition tickAt (t : Z) (m : smapX) : tick :=
  mkTick (t * second) m (t * second) [].

(** The Smap of [G1] at version 5, and what other nodes may hold. *)
Definition local5 : smapX := smapOf "U" 5 (Some G1) [G1; G2] [T1].
Definition newer9 : smapX := smapOf "U" 9 (Some G2) [G1; G2] [T1].
Definition older4 : smapX := smapOf "U" 4 (Some G2) [G1; G2] [T1; T2].
Definition alone5 : smapX := smapOf "U" 5 (Some G1) [G1] [].
Definition wider7 : smapX := smapOf "U" 7 (Some G1) [G1; G2] [T1].
Definition gatewayUB : smapX := smapOf "UB" 9 (Some G1) [G1] [].
Definition targetUA : smapX := smapOf "UA" 3 (Some G2) [G2] [T1].

Definition world0 : world := mkWorld None (Some (mkBMD EmptyString 0)) 0 [] [] [] [].

Definition cfg0 : config :=
  mkConfig (10 * second) (1 * second) (2 * second) false.

(* ===================================================================== *)
(** ** Vocabulary of the statements *)
(* ===================================================================== *)

(** A reply at which the reduction breaks off: delivered, decoded, with an
    Smap and the vote flag. *)
Definition aborting (res : callResult) : bool :=
  negb (err res) &&
  match outjson res with
  | Decoded svm => voteBreak svm
  | Malformed => false
  end.

(** A BMD that meets a running maximum of another, non-empty origin. *)
Definition conflictBMD (svm : SmapVoteMsg) (st : reduce) : Prop :=
  exists b mx,
    BucketMD svm = Some b /\ 0 < bmdVersion b /\ maxVerBMD st = Some mx /\
    borigin st <> EmptyString /\ borigin st <> bmdUUID b.

(** The same for the Smap of a reply that does not break off. *)
Definition conflictSmap (svm : SmapVoteMsg) (st : reduce) : Prop :=
  voteBreak svm = false /\
  exists s mx,
    Smap svm = Some s /\ 0 < Version s /\ maxVerSmap st = Some mx /\
    sorigin st <> EmptyString /\ sorigin st <> UUID s.

(** The origin of a kind is the uuid of its running maximum. *)
Definition originInv (st : reduce) : Prop :=
  (forall m, maxVerSmap st = Some m -> sorigin st = UUID m) /\
  (forall b, maxVerBMD st = Some b -> borigin st = bmdUUID b).

(** One decoded reply that does not break off. *)
Definition stepClean (res : callResult) (svm : SmapVoteMsg) (st : reduce)
    : reduce :=
  retain (si res) svm (reduceSmap svm (reduceBMD svm st)).

(** The world an outcome leaves. *)
Definition final {A} (o : outcome A) : world :=
  match o with
  | Ret _ w => w
  | Exit _ w => w
  | Panic w => w
  | Starved w => w
  end.

Definition isBcast (e : event) : bool :=
  match e with EvBcast _ => true | _ => false end.

(** Number of broadcasts in a piece of trace. *)
Definition probes (tr : list event) : nat := length (filter (fun e => isBcast e = true) tr).

(** This node is in the gateway map. *)
Definition hasSelf (self : Snode) (m : smapX) : Prop :=
  Pmap m !! DaemonID self = Some self.


(** A probe of the registration window: a broadcast to the nodes of the
    loaded Smap, which has a target, at a tick where more than
    [2 * MaxKeepalive] has gone by. *)
Definition probeOf (cfg : config) (loaded : option smapX)
    (ticks : list tick) (e : event) : Prop :=
  exists l tk,
    e = EvBcast l /\ loaded = Some l /\ 0 < CountTargets l /\ In tk ticks /\
    wrap64 (2 * MaxKeepalive cfg) < t_since_probe tk.

(** An Smap that supersedes the loaded one: the reduced maximum of a
    probe, on the fast path, of the same uuid and a greater version, naming
    a primary other than this node. *)
Definition supersedeOf (self : Snode) (loaded : option smapX)
    (ticks : list tick) (m : smapX) : Prop :=
  exists l tk p,
    loaded = Some l /\ In tk ticks /\
    maxVerSmap (bcastMaxVer (t_results tk) None None) = Some m /\
    slowp (bcastMaxVer (t_results tk) None None) = false /\
    UUID m = UUID l /\ Version l < Version m /\
    ProxySI m = Some p /\ DaemonID p <> DaemonID self.

(** A tick inside the window ([wtime] not reached) at which this node is
    still the primary of the installed Smap and no supersede signal
    arrives. *)
Definition quiet {ops : SmapOps} (self : Snode) (loaded : option smapX)
    (wtime : Z) (tk : tick) : Prop :=
  t_since tk < wtime /\ isPrimary (t_smap tk) self = true /\
  forall l, loaded = Some l ->
            movedOn self l (bcastMaxVer (t_results tk) None None) = false.

(** A world in which [cur] is installed, with the discovery rounds and the
    join results to come. *)
Definition worldWith (cur : smapX) (rounds : list round) (joins : list bool)
    : world :=
  mkWorld (Some cur) (Some (mkBMD EmptyString 0)) 0 [] [] rounds joins.

(** The invariant of the installs: the Smap in the owner, if any, and
    every Smap that was put there have this node in the gateway map. *)
Definition good (self : Snode) (w : world) : Prop :=
  (forall m, w_smap w = Some m -> hasSelf self m) /\
  (forall m, In (EvPutSmap m) (w_trace w) -> hasSelf self m).

(** A computation that keeps the invariant, whatever its outcome, and
    whose result, when it returns, satisfies [Q]. *)
Definition keeps {A} (self : Snode) (c : M A) (Q : A -> Prop) : Prop :=
  forall w, good self w ->
    good self (final (c w)) /\ forall a w', c w = Ret a w' -> Q a.

Definition isPut (e : event) : bool :=
  match e with EvPutSmap _ => true | _ => false end.

(** A primary start-up of [G1] with version 5 on disk: a target registers
    during the window, the discovery finds version 9 under [G2]. *)
Definition startWorld : world :=
  mkWorld None (Some (mkBMD EmptyString 0)) 0 []
    [tickAt 0 aloneG1; tickAt 1 withTarget; tickAt 7 withTarget;
     tickAt 10 withTarget]
    [mkRound 0 [reply G2 false (Some newer9) None;
                reply T1 false (Some newer9) None]]
    [false].


(** *** Worlds of the end-to-end scenarios *)

(** [G2] has registered with [G1]. *)
Definition withG2 : smapX :=
  mkSmap EmptyString 0 EmptyString (Some G1) (<["G2" := G2]> (Pmap aloneG1)) ∅.

(** Fresh cluster: nothing on disk, [G2] registers during the window. *)
Definition freshWorld : world :=
  mkWorld None (Some (mkBMD EmptyString 0)) 0 []
    [tickAt 0 aloneG1; tickAt 1 withG2; tickAt 5 withG2]
    [mkRound 0 [reply G2 false (Some withG2) None]]
    [].

(** [G1] carries uuid "UA" at version 5; a target reports uuid "UB". *)
Definition localUA : smapX := smapOf "UA" 5 (Some G1) [G1] [T1].
Definition reportUB : smapX := smapOf "UB" 3 (Some G2) [G2] [T1].

Definition splitWorld : world :=
  mkWorld None (Some (mkBMD EmptyString 0)) 0 []
    [tickAt 0 aloneG1; tickAt 5 aloneG1]
    [mkRound 0 [reply T1 false (Some reportUB) None]]
    [].

(* ===================================================================== *)
(** ** Further vocabulary *)
(* ===================================================================== *)

(** A reply that leaves [done] alone: delivered, decoded, and not one at
    which the reduction breaks off. *)
Definition answered (res : callResult) : bool :=
  negb (err res) &&
  match outjson res with
  | Decoded svm => negb (voteBreak svm)
  | Malformed => false
  end.

(** The reply [res] carries the Smap [s], of a positive version. *)
Definition bringsSmap (res : callResult) (s : smapX) : Prop :=
  err res = false /\ 0 < Version s /\
  exists svm, outjson res = Decoded svm /\ Smap svm = Some s.

(** The reply [res] carries the BMD [b], of a positive version. *)
Definition bringsBMD (res : callResult) (b : bucketMD) : Prop :=
  err res = false /\ 0 < bmdVersion b /\
  exists svm, outjson res = Decoded svm /\ BucketMD svm = Some b.

(** A round of discovery after which the loop goes on: not done, and the
    deadline not passed. *)
Definition goesOn (cfg : config) (rd : round) : Prop :=
  done (bcastMaxVer (r_results rd) (Some []) (Some [])) = false /\
  r_elapsed rd <= Startup cfg.

(** A round at which the loop ends. *)
Definition endsAt (cfg : config) (rd : round) : Prop :=
  done (bcastMaxVer (r_results rd) (Some []) (Some [])) = true \/
  Startup cfg < r_elapsed rd.

(** Two targets of a per-node map with different non-empty uuids. *)
Definition targetsDisagree (l : nodemap smapX) : Prop :=
  exists n1 s1 n2 s2,
    In (n1, s1) l /\ In (n2, s2) l /\
    IsTarget n1 = true /\ IsTarget n2 = true /\
    UUID s1 <> EmptyString /\ UUID s2 <> EmptyString /\ UUID s1 <> UUID s2.

(** Replies for the examples of the slow path. *)
Definition uaFive : smapX := smapOf "UA" 5 (Some G2) [G2] [T1].

Definition splitReplies : list callResult :=
  [reply T1 false (Some targetUA) None; reply T2 false (Some gatewayUB) None].

Definition agreedReplies : list callResult :=
  [reply T1 false (Some targetUA) None; reply G1 false (Some gatewayUB) None;
   reply G2 false (Some uaFive) None].

(** [w'] comes after [w]: the trace has grown by events that are all [ok],
    and the BMD in the owner, if there was one, has not gone down in
    version. *)
Definition follows (ok : event -> Prop) (w w' : world) : Prop :=
  (exists new, w_trace w' = new ++ w_trace w /\ Forall ok new) /\
  (forall c, w_bmd w = Some c ->
             exists c', w_bmd w' = Some c' /\ bmdVersion c <= bmdVersion c').

(** A computation every outcome of which comes after its start. *)
Definition extends {A} (ok : event -> Prop) (c : M A) : Prop :=
  forall w, follows ok w (final (c w)).

(** Events of the finalization of a primary. *)
Definition finalEvent (e : event) : bool :=
  match e with
  | EvPersist _ => true
  | EvStarted => true
  | EvSync tag _ _ => bool_decide (tag = metaction2)
  | _ => false
  end.

(** The end of a start-up as primary: [startedUp] is set (line 249), after
    the Smap [m] that the owner holds was persisted and published with the
    BMD that the owner holds, of a version other than 0. *)
Definition finishedPrimary (w' : world) (m : smapX) (bmd : bucketMD) : Prop :=
  exists tr,
    w_trace w' = EvStarted :: EvSync metaction2 m (Some bmd) :: tr /\
    In (EvPersist m) tr /\
    w_smap w' = Some m /\ w_bmd w' = Some bmd /\ bmdVersion bmd <> 0.

(** An event that is not one of the finalization. *)
Definition notFinal (e : event) : Prop := finalEvent e = false.

(** The two ends of a start-up that began in [w]: nothing of the
    finalization has happened (whether the start-up returned, exited,
    panicked or is still waiting); or it returned at the end of a start-up
    as primary, the Smap [m] of the finalization being, up to uuid and
    version, an Smap [smap] of which this node is the primary. *)
Definition startupEnd {ops : SmapOps} (self : Snode) (w : world)
    (o : outcome unit) : Prop :=
  follows notFinal w (final o) \/
  exists w' m bmd smap,
    o = Ret tt w' /\ finishedPrimary w' m bmd /\
    isPrimary smap self = true /\
    ProxySI m = ProxySI smap /\ Pmap m = Pmap smap /\ Tmap m = Tmap smap /\
    (UUID smap <> EmptyString -> m = smap) /\
    (fst newClusterUUID <> EmptyString -> UUID m <> EmptyString).

(** What the registration window leaves in the trace: sleeps of one
    second and broadcasts to the nodes of the loaded Smap. *)
Definition windowEvent (loaded : option smapX) (e : event) : Prop :=
  e = EvSleep second \/ exists l, loaded = Some l /\ e = EvBcast l.

(** [w'] differs from [w] by a wait: the BMD in the owner, the discovery
    rounds and the join results are the same, and the trace has grown by
    events of the window. *)
Definition waited (loaded : option smapX) (w w' : world) : Prop :=
  w_bmd w' = w_bmd w /\ w_rounds w' = w_rounds w /\ w_joins w' = w_joins w /\
  exists new, w_trace w' = new ++ w_trace w /\ Forall (windowEvent loaded) new.

(** [AIS_IS_PRIMARY] is true and [AIS_PRIMARY_ID] names another node. *)
Definition fatalEnv (self : Snode) (env : environ) : Prop :=
  AIS_PRIMARY_ID env <> EmptyString /\ AIS_IS_PRIMARY env = true /\
  DaemonID self <> AIS_PRIMARY_ID env.

(** [AIS_PRIMARY_ID] names a gateway of the loaded Smap, with this node
    added, and the Smap has no primary. *)
Definition adoptsWithoutPrimary (self : Snode) (env : environ)
    (smap : smapX) (loaded : bool) : Prop :=
  loaded = true /\ AIS_PRIMARY_ID env <> EmptyString /\
  is_Some (GetProxy (addProxy smap self) (AIS_PRIMARY_ID env)) /\
  ProxySI smap = None.

(** What a discovery leaves in the trace: broadcasts and sleeps. *)
Definition bcastEvent (e : event) : Prop :=
  match e with
  | EvBcast _ | EvSleep _ => True
  | _ => False
  end.

(** [w'] differs from [w] by a discovery: the owners, the ticks and the
    join results are the same, and the trace has grown by broadcasts and
    sleeps. *)
Definition discovered (w w' : world) : Prop :=
  w_smap w' = w_smap w /\ w_bmd w' = w_bmd w /\
  w_ticks w' = w_ticks w /\ w_joins w' = w_joins w /\
  exists new, w_trace w' = new ++ w_trace w /\ Forall bcastEvent new.

Definition isJoin (e : event) : bool :=
  match e with EvJoin => true | _ => false end.

(** Number of join attempts in a piece of trace. *)
Definition joins (tr : list event) : nat := length (List.filter isJoin tr).

(** What the track of a secondary leaves in the trace. *)
Definition secondaryEvent (e : event) : Prop :=
  match e with
  | EvPutSmap _ | EvJoin | EvPoll | EvBcast _ | EvSleep _ => True
  | _ => False
  end.

(** [w'] comes after [w] on the track of a secondary, with at most [n]
    join attempts: the BMD in the owner and the ticks are the same. *)
Definition secondaryRun (n : nat) (w w' : world) : Prop :=
  w_bmd w' = w_bmd w /\ w_ticks w' = w_ticks w /\
  exists new,
    w_trace w' = new ++ w_trace w /\ Forall secondaryEvent new /\
    (joins new <= n)%nat.

(** The node has joined as a secondary: the last effects are the install
    of an Smap, which the owner holds, a join, and the start of the poll
    for the cluster to start. *)
Definition joinedAsSecondary (w' : world) : Prop :=
  exists m tr,
    w_trace w' = EvPoll :: EvJoin :: EvPutSmap m :: tr /\ w_smap w' = Some m.

(** What [bootstrap] loads: the Smap on disk, unless the check of the
    network presence fails. *)
Definition loadedFrom {ops : SmapOps} (disk : option smapX) : smapX * bool :=
  match disk with
  | Some m => (m, negb (checkPresenceNetChange m))
  | None => (newSmap, false)
  end.

(** A computation that leaves the BMD in the owner alone, whatever its
    outcome. *)
Definition keepsBMD {A} (c : M A) : Prop :=
  forall w, w_bmd (final (c w)) = w_bmd w.

(** The owner holds version 5 of [G1]; the discovery finds version 9
    under [G2], with a BMD of version 4. *)
Definition startedWorld : world :=
  worldWith local5
    [mkRound 0 [reply G2 false (Some newer9) (Some (mkBMD "B" 4))]] [].

(** [G1] starts with version 7 on disk; after 3 s the probe of the window
    finds version 9 under [G2]; the join then succeeds. *)
Definition supersededWorld : world :=
  mkWorld None (Some (mkBMD EmptyString 0)) 0 []
    [tickAt 0 aloneG1; tickAt 1 aloneG1;
     mkTick (3 * second) aloneG1 (3 * second)
       [reply G2 false (Some newer9) None; reply T1 false (Some newer9) None]]
    [] [false].

(** The collaborators of [specOps], on a node whose network presence has
    changed: the check of the local copy fails. *)
Definition netChangedOps : SmapOps := {|
  isPrimary := isPrimary_spec;
  Compare := Compare_spec;
  merge := merge_spec;
  resolveUUIDBMD := resolveUUIDBMD_spec;
  rangeTargets := fun l => l;
  rangeAll := fun l => l;
  newClusterUUID := ("cluster-uuid", "now");
  persist := fun _ => None;
  checkPresenceNetChange := fun _ => true
|}.
(* ===================================================================== *)
(** ** The reducer *)
(* ===================================================================== *)

Lemma str_eqb_true a b : str_eqb a b = true <-> a = b.
Proof. unfold str_eqb. apply bool_decide_eq_true. Qed.

Lemma str_neb_true a b : str_neb a b = true <-> a <> b.
Proof.
  unfold str_neb, str_eqb. rewrite negb_true_iff. apply bool_decide_eq_false.
Qed.

Lemma str_neb_false a b : str_neb a b = false <-> a = b.
Proof.
  unfold str_neb, str_eqb. rewrite negb_false_iff. apply bool_decide_eq_true.
Qed.

Lemma reduceLoop_clean_app pre post st :
  existsb aborting pre = false ->
  reduceLoop (pre ++ post) st = reduceLoop post (reduceLoop pre st).
Proof.
  revert st. induction pre as [|res pre IH]; intros st Hpre; simpl in *.
  - reflexivity.
  - apply orb_false_iff in Hpre as [Hres Hpre].
    unfold aborting in Hres.
    destruct (err res); simpl in *; [now apply IH|].
    destruct (outjson res) as [svm|]; [|now apply IH].
    rewrite Hres. now apply IH.
Qed.

Lemma reduceLoop_abort res svm post st :
  err res = false -> outjson res = Decoded svm -> voteBreak svm = true ->
  reduceLoop (res :: post) st = zeroOut (reduceBMD svm st).
Proof. intros He Ho Hv. simpl. now rewrite He, Ho, Hv. Qed.

Lemma first_aborting (results : list callResult) :
  existsb aborting results = true ->
  exists pre res post,
    results = pre ++ res :: post /\ existsb aborting pre = false /\
    aborting res = true.
Proof.
  induction results as [|r rest IH]; simpl; intros H; [discriminate|].
  destruct (aborting r) eqn:Hr.
  - exists [], r, rest. auto.
  - destruct (IH H) as (pre & res & post & -> & Hpre & Hres).
    exists (r :: pre), res, post. simpl. rewrite Hr. auto.
Qed.

Lemma aborting_inv res :
  aborting res = true ->
  err res = false /\
  exists svm s, outjson res = Decoded svm /\ VoteInProgress svm = true /\
                Smap svm = Some s.
Proof.
  unfold aborting, voteBreak. destruct (err res); simpl; [discriminate|].
  destruct (outjson res) as [svm|]; [|discriminate].
  destruct (Smap svm) as [s|] eqn:Hs; [|discriminate].
  intros Hv. split; [reflexivity|]. exists svm, s. auto.
Qed.

(** C2, as the code has it: a decoded reply with the vote flag AND an Smap
    makes the round unusable, wherever it stands in the stream: both
    maxima nil, [done = false], and nothing after the first such reply is
    looked at. *)
Theorem vote_in_progress_unusable (results : list callResult)
    (bm : option (nodemap bucketMD)) (sm : option (nodemap smapX))
    (res : callResult) (svm : SmapVoteMsg) (s : smapX) :
  In res results -> err res = false -> outjson res = Decoded svm ->
  VoteInProgress svm = true -> Smap svm = Some s ->
  maxVerSmap (bcastMaxVer results bm sm) = None /\
  maxVerBMD (bcastMaxVer results bm sm) = None /\
  done (bcastMaxVer results bm sm) = false /\
  exists pre res' post,
    results = pre ++ res' :: post /\
    err res' = false /\
    (exists svm' s', outjson res' = Decoded svm' /\
                     VoteInProgress svm' = true /\ Smap svm' = Some s') /\
    forall post',
      bcastMaxVer (pre ++ res' :: post') bm sm = bcastMaxVer results bm sm.
Proof.
  intros Hin He Ho Hv Hs.
  assert (Hex : existsb aborting results = true).
  { apply existsb_exists. exists res. split; [exact Hin|].
    unfold aborting, voteBreak. now rewrite He, Ho, Hs, Hv. }
  destruct (first_aborting _ Hex) as (pre & r & post & -> & Hpre & Hr).
  destruct (aborting_inv _ Hr) as (Her & svm' & s' & Ho' & Hv' & Hs').
  assert (Hbrk : voteBreak svm' = true).
  { unfold voteBreak. now rewrite Hs'. }
  assert (Hall : forall post',
             bcastMaxVer (pre ++ r :: post') bm sm =
             zeroOut (reduceBMD svm' (reduceLoop pre (reduce_init bm sm)))).
  { intros post'. unfold bcastMaxVer.
    rewrite reduceLoop_clean_app by exact Hpre.
    now apply reduceLoop_abort. }
  rewrite (Hall post). split; [reflexivity|]. split; [reflexivity|].
  split; [reflexivity|].
  exists pre, r, post. split; [reflexivity|]. split; [exact Her|].
  split.
  - exists svm', s'. auto.
  - intros post'. apply Hall.
Qed.

(** C2, as stated, fails: the vote flag without an Smap does not stop the
    reduction; the BMD maximum stays, [done] stays true, and the next
    reply is consumed. *)
Lemma vote_without_smap_goes_on :
  let results :=
    [reply G1 true None (Some (mkBMD "UA" 3));
     reply T1 false (Some (smapOf "UA" 1 (Some G1) [G1] [T1])) None] in
  maxVerBMD (bcastMaxVer results None None) = Some (mkBMD "UA" 3) /\
  done (bcastMaxVer results None None) = true /\
  maxVerSmap (bcastMaxVer results None None)
    = Some (smapOf "UA" 1 (Some G1) [G1] [T1]).
Proof. vm_compute. auto. Qed.

Lemma vote_in_progress_unusable_witness :
  let svm := mkSVM true (Some (smapOf "UA" 1 (Some G1) [G1] [])) None in
  let results :=
    [reply T1 false None (Some (mkBMD "UA" 3)); mkRes G1 false (Decoded svm);
     reply T2 false (Some (smapOf "UA" 2 (Some G1) [G1] [])) None] in
  maxVerSmap (bcastMaxVer results None None) = None /\
  maxVerBMD (bcastMaxVer results None None) = None /\
  done (bcastMaxVer results None None) = false.
Proof.
  intros svm results.
  pose proof (vote_in_progress_unusable results None None
                (mkRes G1 false (Decoded svm)) svm
                (smapOf "UA" 1 (Some G1) [G1] [])
                (or_intror (or_introl eq_refl))
                eq_refl eq_refl eq_refl eq_refl) as (H1 & H2 & H3 & _).
  exact (conj H1 (conj H2 H3)).
Defined.

(** *** Slow path *)

Lemma reduceBMD_smap_side svm st :
  maxVerSmap (reduceBMD svm st) = maxVerSmap st /\
  sorigin (reduceBMD svm st) = sorigin st.
Proof.
  unfold reduceBMD.
  destruct (BucketMD svm) as [b|]; [|auto].
  destruct (0 <? bmdVersion b); [|auto].
  destruct (maxVerBMD st); [|auto].
  destruct (str_neb (borigin st) EmptyString && str_neb (borigin st) (bmdUUID b)); [auto|].
  destruct (negb (slowp st) && (_ <? _)); auto.
Qed.

Lemma slowp_reduceBMD svm st :
  slowp (reduceBMD svm st) = true <-> slowp st = true \/ conflictBMD svm st.
Proof.
  unfold reduceBMD, conflictBMD.
  destruct (BucketMD svm) as [b|].
  2:{ split; [auto|]. intros [H|(b & mx & H & _)]; [exact H|discriminate]. }
  destruct (0 <? bmdVersion b) eqn:Hv.
  2:{ apply Z.ltb_ge in Hv. split; [auto|].
      intros [H|(b' & mx & H & Hpos & _)]; [exact H|].
      injection H as <-. lia. }
  apply Z.ltb_lt in Hv.
  destruct (maxVerBMD st) as [mx|].
  2:{ simpl. split; [auto|].
      intros [H|(b' & mx & _ & _ & H & _)]; [exact H|discriminate]. }
  destruct (str_neb (borigin st) EmptyString) eqn:Ho; simpl.
  - destruct (str_neb (borigin st) (bmdUUID b)) eqn:Hu; simpl.
    + apply str_neb_true in Ho, Hu. split; [|reflexivity].
      intros _. right. exists b, mx. auto.
    + apply str_neb_false in Hu.
      assert (Hrest : slowp (if negb (slowp st) && (bmdVersion mx <? bmdVersion b)
                      then mkReduce (maxVerSmap st) (Some b) (done st) (slowp st)
                             (bmdUUID b) (sorigin st) (bmds st) (smaps st)
                      else st) = slowp st).
      { destruct (negb (slowp st) && (_ <? _)); reflexivity. }
      rewrite Hrest. split; [auto|].
      intros [H|(b' & mx' & H & _ & _ & _ & Hne)]; [exact H|].
      injection H as <-. contradiction.
  - apply str_neb_false in Ho.
    assert (Hrest : slowp (if negb (slowp st) && (bmdVersion mx <? bmdVersion b)
                    then mkReduce (maxVerSmap st) (Some b) (done st) (slowp st)
                           (bmdUUID b) (sorigin st) (bmds st) (smaps st)
                    else st) = slowp st).
    { destruct (negb (slowp st) && (_ <? _)); reflexivity. }
    rewrite Hrest. split; [auto|].
    intros [H|(b' & mx' & _ & _ & _ & Hne & _)]; [exact H|contradiction].
Qed.

Lemma slowp_reduceSmap svm st :
  slowp (reduceSmap svm st) = true <->
  slowp st = true \/
  exists s mx,
    Smap svm = Some s /\ 0 < Version s /\ maxVerSmap st = Some mx /\
    sorigin st <> EmptyString /\ sorigin st <> UUID s.
Proof.
  unfold reduceSmap.
  destruct (Smap svm) as [s|].
  2:{ split; [auto|]. intros [H|(b & mx & H & _)]; [exact H|discriminate]. }
  destruct (0 <? Version s) eqn:Hv.
  2:{ apply Z.ltb_ge in Hv. split; [auto|].
      intros [H|(b' & mx & H & Hpos & _)]; [exact H|].
      injection H as <-. lia. }
  apply Z.ltb_lt in Hv.
  destruct (maxVerSmap st) as [mx|].
  2:{ simpl. split; [auto|].
      intros [H|(b' & mx & _ & _ & H & _)]; [exact H|discriminate]. }
  destruct (str_neb (sorigin st) EmptyString) eqn:Ho; simpl.
  - destruct (str_neb (sorigin st) (UUID s)) eqn:Hu; simpl.
    + apply str_neb_true in Ho, Hu. split; [|reflexivity].
      intros _. right. exists s, mx. auto.
    + apply str_neb_false in Hu.
      assert (Hrest : slowp (if negb (slowp st) && (Version mx <? Version s)
                      then mkReduce (Some s) (maxVerBMD st) (done st) (slowp st)
                             (borigin st) (UUID s) (bmds st) (smaps st)
                      else st) = slowp st).
      { destruct (negb (slowp st) && (_ <? _)); reflexivity. }
      rewrite Hrest. split; [auto|].
      intros [H|(b' & mx' & H & _ & _ & _ & Hne)]; [exact H|].
      injection H as <-. contradiction.
  - apply str_neb_false in Ho.
    assert (Hrest : slowp (if negb (slowp st) && (Version mx <? Version s)
                    then mkReduce (Some s) (maxVerBMD st) (done st) (slowp st)
                           (borigin st) (UUID s) (bmds st) (smaps st)
                    else st) = slowp st).
    { destruct (negb (slowp st) && (_ <? _)); reflexivity. }
    rewrite Hrest. split; [auto|].
    intros [H|(b' & mx' & _ & _ & _ & Hne & _)]; [exact H|contradiction].
Qed.

Lemma slowp_stepClean res svm st :
  voteBreak svm = false ->
  (slowp (stepClean res svm st) = true <->
   slowp st = true \/ conflictBMD svm st \/ conflictSmap svm st).
Proof.
  intros Hb. unfold stepClean.
  change (slowp (retain (si res) svm (reduceSmap svm (reduceBMD svm st))))
    with (slowp (reduceSmap svm (reduceBMD svm st))).
  rewrite slowp_reduceSmap, slowp_reduceBMD.
  destruct (reduceBMD_smap_side svm st) as [-> ->].
  unfold conflictSmap. tauto.
Qed.

Lemma slowp_loop (results : list callResult) : forall st,
  slowp (reduceLoop results st) = true <->
  slowp st = true \/
  exists pre res post svm,
    results = pre ++ res :: post /\ existsb aborting pre = false /\
    err res = false /\ outjson res = Decoded svm /\
    (conflictBMD svm (reduceLoop pre st) \/
     conflictSmap svm (reduceLoop pre st)).
Proof.
  induction results as [|r rest IH]; intros st.
  - simpl. split; [auto|].
    intros [H|(pre & res & post & svm & H & _)]; [exact H|].
    now destruct pre.
  - assert (Hskip : aborting r = false ->
              reduceLoop (r :: rest) st = reduceLoop rest (reduceLoop [r] st) ->
              slowp (reduceLoop [r] st) = slowp st ->
              (forall svm, err r = false -> outjson r = Decoded svm -> False) ->
              slowp (reduceLoop (r :: rest) st) = true <->
              slowp st = true \/
              exists pre res post svm,
                r :: rest = pre ++ res :: post /\ existsb aborting pre = false /\
                err res = false /\ outjson res = Decoded svm /\
                (conflictBMD svm (reduceLoop pre st) \/
                 conflictSmap svm (reduceLoop pre st))).
    { intros Hab Heq Hsl Hno. rewrite Heq, IH, Hsl. split.
      - intros [H|(pre & res & post & svm & -> & Hpre & He & Ho & Hc)]; [auto|].
        right. exists (r :: pre), res, post, svm.
        split; [reflexivity|]. split; [simpl; now rewrite Hab|].
        split; [exact He|]. split; [exact Ho|].
        change (r :: pre) with ([r] ++ pre).
        rewrite reduceLoop_clean_app by (simpl; now rewrite Hab). exact Hc.
      - intros [H|(pre & res & post & svm & Hsplit & Hpre & He & Ho & Hc)]; [auto|].
        destruct pre as [|r' pre].
        + simpl in Hsplit. injection Hsplit as <- <-. destruct (Hno _ He Ho).
        + simpl in Hsplit. injection Hsplit as <- ->.
          right. exists pre, res, post, svm.
          simpl in Hpre. apply orb_false_iff in Hpre as [_ Hpre].
          split; [reflexivity|]. split; [exact Hpre|].
          split; [exact He|]. split; [exact Ho|].
          change (r :: pre) with ([r] ++ pre) in Hc.
          rewrite reduceLoop_clean_app in Hc by (simpl; now rewrite Hab).
          exact Hc. }
    destruct (err r) eqn:He.
    { apply Hskip.
      - unfold aborting. now rewrite He.
      - simpl. now rewrite He.
      - simpl. now rewrite He.
      - intros svm H. discriminate. }
    destruct (outjson r) as [svm|] eqn:Ho.
    2:{ apply Hskip.
        - unfold aborting. now rewrite He, Ho.
        - simpl. now rewrite He, Ho.
        - simpl. now rewrite He, Ho.
        - intros svm _ H. discriminate. }
    clear Hskip.
    destruct (voteBreak svm) eqn:Hb.
    + rewrite (reduceLoop_abort r svm rest st He Ho Hb).
      change (slowp (zeroOut (reduceBMD svm st))) with (slowp (reduceBMD svm st)).
      rewrite slowp_reduceBMD. split.
      * intros [H|H]; [auto|]. right. exists [], r, rest, svm. simpl. auto 10.
      * intros [H|(pre & res & post & svm' & Hsplit & Hpre & He' & Ho' & Hc)]; [auto|].
        destruct pre as [|r' pre].
        -- simpl in Hsplit. injection Hsplit as <- <-.
           rewrite Ho in Ho'. injection Ho' as <-. simpl in Hc.
           destruct Hc as [Hc|[Hc _]]; [auto|congruence].
        -- simpl in Hsplit. injection Hsplit as <- ->.
           simpl in Hpre. unfold aborting at 1 in Hpre.
           rewrite He, Ho, Hb in Hpre. discriminate.
    + assert (Hab : aborting r = false).
      { unfold aborting. now rewrite He, Ho, Hb. }
      assert (Heq : reduceLoop (r :: rest) st = reduceLoop rest (stepClean r svm st)).
      { simpl. now rewrite He, Ho, Hb. }
      assert (Hone : reduceLoop [r] st = stepClean r svm st).
      { simpl. now rewrite He, Ho, Hb. }
      rewrite Heq, IH, (slowp_stepClean r svm st Hb). split.
      * intros [[H|H]|(pre & res & post & svm' & -> & Hpre & He' & Ho' & Hc)].
        -- auto.
        -- right. exists [], r, rest, svm. simpl. auto 10.
        -- right. exists (r :: pre), res, post, svm'.
           split; [reflexivity|]. split; [simpl; now rewrite Hab|].
           split; [exact He'|]. split; [exact Ho'|].
           change (r :: pre) with ([r] ++ pre).
           rewrite reduceLoop_clean_app by (simpl; now rewrite Hab).
           now rewrite Hone.
      * intros [H|(pre & res & post & svm' & Hsplit & Hpre & He' & Ho' & Hc)]; [auto|].
        destruct pre as [|r' pre].
        -- simpl in Hsplit. injection Hsplit as <- <-.
           rewrite Ho in Ho'. injection Ho' as <-. simpl in Hc. tauto.
        -- simpl in Hsplit. injection Hsplit as <- ->.
           right. exists pre, res, post, svm'.
           simpl in Hpre. apply orb_false_iff in Hpre as [_ Hpre].
           split; [reflexivity|]. split; [exact Hpre|].
           split; [exact He'|]. split; [exact Ho'|].
           change (r :: pre) with ([r] ++ pre) in Hc.
           rewrite reduceLoop_clean_app in Hc by (simpl; now rewrite Hab).
           now rewrite Hone in Hc.
Qed.

Lemma originInv_reduceBMD svm st : originInv st -> originInv (reduceBMD svm st).
Proof.
  intros [Hs Hb]. unfold reduceBMD.
  destruct (BucketMD svm) as [b|]; [|split; assumption].
  destruct (0 <? bmdVersion b); [|split; assumption].
  destruct (maxVerBMD st) as [mx|] eqn:Hmx.
  - destruct (str_neb (borigin st) EmptyString && str_neb (borigin st) (bmdUUID b)).
    + split; simpl; [exact Hs|]. intros b' H. apply Hb. congruence.
    + destruct (negb (slowp st) && (_ <? _)).
      * split; simpl; [exact Hs|]. intros b' H. congruence.
      * split; [exact Hs|]. intros b' H. apply Hb. congruence.
  - split; simpl; [exact Hs|]. intros b' H. congruence.
Qed.

Lemma originInv_reduceSmap svm st : originInv st -> originInv (reduceSmap svm st).
Proof.
  intros [Hs Hb]. unfold reduceSmap.
  destruct (Smap svm) as [s|]; [|split; assumption].
  destruct (0 <? Version s); [|split; assumption].
  destruct (maxVerSmap st) as [mx|] eqn:Hmx.
  - destruct (str_neb (sorigin st) EmptyString && str_neb (sorigin st) (UUID s)).
    + split; simpl; [|exact Hb]. intros m H. apply Hs. congruence.
    + destruct (negb (slowp st) && (_ <? _)).
      * split; simpl; [|exact Hb]. intros m H. congruence.
      * split; [|exact Hb]. intros m H. apply Hs. congruence.
  - split; simpl; [|exact Hb]. intros m H. congruence.
Qed.

Lemma originInv_loop (pre : list callResult) : forall st,
  existsb aborting pre = false -> originInv st -> originInv (reduceLoop pre st).
Proof.
  induction pre as [|r pre IH]; intros st Hpre Hst; [exact Hst|].
  simpl in Hpre. apply orb_false_iff in Hpre as [Hr Hpre].
  unfold aborting in Hr. simpl.
  destruct (err r); simpl in Hr.
  { apply IH; [exact Hpre|]. exact Hst. }
  destruct (outjson r) as [svm|].
  2:{ apply IH; [exact Hpre|]. exact Hst. }
  rewrite Hr. apply IH; [exact Hpre|].
  pose proof (originInv_reduceSmap svm _ (originInv_reduceBMD svm _ Hst)) as [H1 H2].
  split; assumption.
Qed.

Lemma originInv_init bm sm : originInv (reduce_init bm sm).
Proof. split; intros x H; discriminate. Qed.

(** C3, as the code has it: [slowp] comes out true exactly when some
    decoded reply, reached without a break, brings a positive-version
    instance of a kind that already has a running maximum whose origin uuid
    is non-empty and differs from the uuid of the instance. The test is on
    the origin being non-empty, not on the instance; and the origin of a
    kind is the uuid of its running maximum. *)
Theorem slow_path_exactly (results : list callResult)
    (bm : option (nodemap bucketMD)) (sm : option (nodemap smapX)) :
  (slowp (bcastMaxVer results bm sm) = true <->
   exists pre res post svm,
     results = pre ++ res :: post /\ existsb aborting pre = false /\
     err res = false /\ outjson res = Decoded svm /\
     (conflictBMD svm (bcastMaxVer pre bm sm) \/
      conflictSmap svm (bcastMaxVer pre bm sm))) /\
  (forall pre post,
     results = pre ++ post -> existsb aborting pre = false ->
     originInv (bcastMaxVer pre bm sm)).
Proof.
  split.
  - unfold bcastMaxVer. rewrite slowp_loop. split.
    + intros [H|H]; [discriminate|exact H].
    + intros H. right. exact H.
  - intros pre post _ Hpre. unfold bcastMaxVer.
    apply originInv_loop; [exact Hpre|]. apply originInv_init.
Qed.

(** After a first responder with a non-empty uuid, a second responder
    with a positive version and an empty uuid sets [slowp]. *)
Lemma empty_uuid_sets_slowp (n1 n2 : Snode) (s1 s2 : smapX)
    (b1 b2 : option bucketMD) bm sm :
  0 < Version s1 -> 0 < Version s2 -> UUID s1 <> EmptyString -> UUID s2 = EmptyString ->
  slowp (bcastMaxVer [reply n1 false (Some s1) b1; reply n2 false (Some s2) b2]
           bm sm) = true.
Proof.
  intros H1 H2 Hu1 Hu2.
  unfold bcastMaxVer. apply slowp_loop. right.
  exists [reply n1 false (Some s1) b1], (reply n2 false (Some s2) b2), [],
         (mkSVM false (Some s2) b2).
  split; [reflexivity|]. split; [reflexivity|].
  split; [reflexivity|]. split; [reflexivity|].
  right. split; [reflexivity|].
  exists s2, s1. split; [reflexivity|]. split; [exact H2|].
  assert (Hst : maxVerSmap (reduceLoop [reply n1 false (Some s1) b1]
                              (reduce_init bm sm)) = Some s1 /\
                sorigin (reduceLoop [reply n1 false (Some s1) b1]
                           (reduce_init bm sm)) = UUID s1).
  { simpl.
    destruct (reduceBMD_smap_side (mkSVM false (Some s1) b1) (reduce_init bm sm))
      as [Hm Ho].
    unfold reduceSmap. simpl. apply Z.ltb_lt in H1. rewrite H1, Hm. simpl. auto. }
  destruct Hst as [-> ->]. split; [reflexivity|]. split; [exact Hu1|].
  rewrite Hu2. exact Hu1.
Qed.

(** C3, as stated, fails: the first responder sets the origin "UA", the
    second has a positive version and an empty uuid, and [slowp] is set. *)
Lemma empty_uuid_second_responder :
  slowp (bcastMaxVer
           [reply G1 false (Some (smapOf "UA" 1 (Some G1) [G1] [])) None;
            reply T1 false (Some (smapOf EmptyString 1 None [] [])) None]
           None None) = true.
Proof. vm_compute. reflexivity. Qed.

Lemma slow_path_exactly_witness :
  slowp (bcastMaxVer [reply G1 false (Some gatewayUB) None;
                      reply T1 false (Some targetUA) None] None None) = true.
Proof.
  apply (proj1 (slow_path_exactly _ None None)).
  exists [reply G1 false (Some gatewayUB) None],
         (reply T1 false (Some targetUA) None), [],
         (mkSVM false (Some targetUA) None).
  split; [reflexivity|]. split; [reflexivity|]. split; [reflexivity|].
  split; [reflexivity|]. right. split; [reflexivity|].
  exists targetUA, gatewayUB.
  split; [reflexivity|]. split; [reflexivity|]. split; [reflexivity|].
  split; discriminate.
Defined.

(* ===================================================================== *)
(** ** The registration window *)
(* ===================================================================== *)

Section Window.

Context {ops : SmapOps}.
Variable self : Snode.
Variable cfg : config.
Variable loaded : option smapX.
Variable nt : Z.

Ltac loop_cases H :=
  repeat match type of H with
         | context [if ?c then _ else _] => destruct c eqn:?
         | context [match ?o with Some _ => _ | None => _ end] =>
             destruct o eqn:?
         end; try discriminate.

(** A run that asks for more ticks has reached the head of the loop, with
    the named result still nil; more ticks continue it from there. *)
Lemma regLoop_starved (pre : list tick) : forall wtime checked w w1,
  regLoop self cfg loaded nt pre wtime checked None w = Starved w1 ->
  exists wtime' checked',
    forall rest,
      regLoop self cfg loaded nt (pre ++ rest) wtime checked None w =
      regLoop self cfg loaded nt rest wtime' checked' None w1.
Proof.
  induction pre as [|tk pre IH]; intros wtime checked w w1 H.
  - simpl in H. injection H as <-. exists wtime, checked. reflexivity.
  - simpl in H. simpl app. cbn [regLoop].
    loop_cases H; apply IH in H; exact H.
Qed.

(** One turn at the head of the loop, with the installed Smap naming
    another primary (or the time up): the loop is left at once. *)
Lemma regLoop_leaves tk rest wtime checked w :
  isPrimary (t_smap tk) self = false ->
  exists w',
    regLoop self cfg loaded nt (tk :: rest) wtime checked None w
      = Ret (None, rest) w' /\
    (w_trace w' = w_trace w \/ w_trace w' = EvSleep second :: w_trace w).
Proof.
  intros Hp. cbn [regLoop]. rewrite Hp. simpl negb. cbv iota.
  destruct (t_since tk <? wtime).
  - eexists. split; [reflexivity|]. right. reflexivity.
  - eexists. split; [reflexivity|]. left. reflexivity.
Qed.

(** C10: the window is still open after the ticks [pre] (a run on them
    alone asks for more), and at the next tick the installed Smap does not
    name this node as primary: [acceptRegistrations] returns nil at that
    tick; it consumes nothing after it and sends no probe. *)
Theorem not_primary_leaves_window (smap : smapX) (w w1 : world)
    (pre post : list tick) (tk : tick) :
  acceptRegistrations self cfg smap loaded nt (set_ticks pre w) = Starved w1 ->
  isPrimary (t_smap tk) self = false ->
  exists w',
    acceptRegistrations self cfg smap loaded nt
      (set_ticks (pre ++ tk :: post) w) = Ret None w' /\
    w_ticks w' = post /\
    (w_trace w' = w_trace w1 \/ w_trace w' = EvSleep second :: w_trace w1).
Proof.
  unfold acceptRegistrations. intros H Hp.
  destruct (CountTargets smap =? 0); [|discriminate].
  change (w_ticks (set_ticks pre w)) with pre in H.
  change (w_ticks (set_ticks (pre ++ tk :: post) w)) with (pre ++ tk :: post).
  change (set_ticks [] (set_ticks pre w)) with (set_ticks [] w) in H.
  change (set_ticks [] (set_ticks (pre ++ tk :: post) w)) with (set_ticks [] w).
  destruct (regLoop self cfg loaded nt pre _ _ None (set_ticks [] w))
    as [[mv rest] w2|f w2|w2|w2] eqn:Hrun; try discriminate.
  injection H as ->.
  destruct (regLoop_starved _ _ _ _ _ Hrun) as (wtime' & checked' & Hcont).
  rewrite Hcont.
  destruct (regLoop_leaves tk post wtime' checked' w1 Hp) as (w' & -> & Htr).
  exists (set_ticks post w'). split; [reflexivity|]. split; [reflexivity|].
  exact Htr.
Qed.

Lemma probes_app (a b : list event) : probes (a ++ b) = (probes a + probes b)%nat.
Proof. unfold probes. now rewrite filter_app, length_app. Qed.

Lemma movedOn_inv (l : smapX) (r : reduce) :
  movedOn self l r = true ->
  exists m p,
    maxVerSmap r = Some m /\ slowp r = false /\ UUID m = UUID l /\
    Version l < Version m /\ ProxySI m = Some p /\
    DaemonID p <> DaemonID self.
Proof.
  unfold movedOn. destruct (maxVerSmap r) as [m|]; [|discriminate].
  intros H. apply andb_true_iff in H as [Hs H].
  apply andb_true_iff in H as [H Hp].
  apply andb_true_iff in H as [Hu Hv].
  destruct (ProxySI m) as [p|] eqn:Hpm; [|discriminate].
  exists m, p. split; [reflexivity|].
  split; [now apply negb_true_iff in Hs|].
  split; [now apply str_eqb_true in Hu|].
  split; [now apply Z.ltb_lt in Hv|].
  split; [exact Hpm|]. now apply str_neb_true in Hp.
Qed.

Lemma probeOf_cons ld tk ticks e :
  probeOf cfg ld ticks e -> probeOf cfg ld (tk :: ticks) e.
Proof.
  intros (l & tk' & H1 & H2 & H3 & H4 & H5).
  exists l, tk'. repeat split; auto. now right.
Qed.

Lemma supersedeOf_cons ld tk ticks m :
  supersedeOf self ld ticks m -> supersedeOf self ld (tk :: ticks) m.
Proof.
  intros (l & tk' & p & H1 & H2 & H3).
  exists l, tk', p. repeat split; try tauto. now right.
Qed.

Lemma regLoop_probes (ticks : list tick) : forall wtime checked w,
  exists new,
    w_trace (final (regLoop self cfg loaded nt ticks wtime checked None w))
      = new ++ w_trace w /\
    (probes new <= if checked then 0 else 1)%nat /\
    (forall e, In e new -> isBcast e = true -> probeOf cfg loaded ticks e) /\
    (forall m rest w',
       regLoop self cfg loaded nt ticks wtime checked None w
         = Ret (Some m, rest) w' ->
       supersedeOf self loaded ticks m).
Proof.
  induction ticks as [|tk ticks IH]; intros wtime checked w.
  - exists []. simpl. split; [reflexivity|]. split; [unfold probes; simpl; destruct checked; lia|].
    split; [intros e []|]. intros m rest w' H. discriminate.
  - assert (Hquiet : forall (tr : list event) (o : outcome (option smapX * list tick)),
              (tr = [] \/ tr = [EvSleep second]) ->
              w_trace (final o) = tr ++ w_trace w ->
              (forall m rest w', o = Ret (Some m, rest) w' -> False) ->
              exists new,
                w_trace (final o) = new ++ w_trace w /\
                (probes new <= if checked then 0 else 1)%nat /\
                (forall e, In e new -> isBcast e = true -> probeOf cfg loaded (tk :: ticks) e) /\
                (forall m rest w', o = Ret (Some m, rest) w' ->
                                   supersedeOf self loaded (tk :: ticks) m)).
    { intros tr o Htr Hfin Hno. exists tr. split; [exact Hfin|].
      split; [destruct Htr as [-> | ->]; unfold probes; destruct checked; simpl; lia|].
      split.
      - intros e Hin Hb. destruct Htr as [-> | ->]; [destruct Hin|].
        destruct Hin as [<-|[]]. discriminate.
      - intros m rest w' H. destruct (Hno _ _ _ H). }
    assert (Hrec : forall wtime' checked' w1,
              (checked' = checked) ->
              w_trace w1 = EvSleep second :: w_trace w ->
              exists new,
                w_trace (final (regLoop self cfg loaded nt ticks wtime' checked' None w1))
                  = new ++ w_trace w /\
                (probes new <= if checked then 0 else 1)%nat /\
                (forall e, In e new -> isBcast e = true -> probeOf cfg loaded (tk :: ticks) e) /\
                (forall m rest w',
                   regLoop self cfg loaded nt ticks wtime' checked' None w1
                     = Ret (Some m, rest) w' ->
                   supersedeOf self loaded (tk :: ticks) m)).
    { intros wtime' checked' w1 -> Hw1.
      destruct (IH wtime' checked w1) as (new & Htr & Hpr & Hprobe & Hsup).
      exists (new ++ [EvSleep second]).
      split; [rewrite Htr, Hw1, <- app_assoc; reflexivity|].
      split; [rewrite probes_app; simpl; unfold probes at 2; simpl; lia|].
      split.
      - intros e Hin Hb. apply in_app_or in Hin as [Hin|[<-|[]]].
        + apply probeOf_cons. now apply Hprobe.
        + discriminate.
      - intros m rest w' H. apply supersedeOf_cons. eapply Hsup. exact H. }
    cbn [regLoop].
    destruct (t_since tk <? wtime).
    2:{ apply (Hquiet []); [auto|reflexivity|]. intros m rest w' H. discriminate. }
    destruct (negb (isPrimary (t_smap tk) self)).
    { apply (Hquiet [EvSleep second]); [auto|reflexivity|].
      intros m rest w' H. discriminate. }
    destruct ((nt <=? CountTargets (t_smap tk)) && (0 <? nt)).
    { apply (Hquiet [EvSleep second]); [auto|reflexivity|].
      intros m rest w' H. discriminate. }
    destruct checked; cbn [negb]; cbv iota.
    { apply Hrec; reflexivity. }
    destruct loaded as [l|] eqn:Hl.
    2:{ apply (Hquiet [EvSleep second]); [auto|reflexivity|].
        intros m rest w' H. discriminate. }
    destruct (0 <? CountTargets l) eqn:Hct.
    2:{ apply Hrec; reflexivity. }
    destruct (wrap64 (2 * MaxKeepalive cfg) <? t_since_probe tk) eqn:Hka.
    2:{ apply Hrec; reflexivity. }
    apply Z.ltb_lt in Hct, Hka.
    assert (Hthis : probeOf cfg (Some l) (tk :: ticks) (EvBcast l)).
    { exists l, tk. repeat split; auto. now left. }
    destruct (movedOn self l (bcastMaxVer (t_results tk) None None)) eqn:Hmv.
    + exists [EvBcast l; EvSleep second]. split; [reflexivity|].
      split; [unfold probes; simpl; lia|]. split.
      * intros e [<-|[<-|[]]] Hb; [exact Hthis|discriminate].
      * intros m rest w' H. injection H as Hm _ _.
        destruct (movedOn_inv _ _ Hmv) as (m' & p & H1 & H2 & H3 & H4 & H5 & H6).
        rewrite H1 in Hm. injection Hm as ->.
        exists l, tk, p. repeat split; auto. now left.
    + match goal with
      | |- context [regLoop self cfg (Some l) nt ticks ?wt true None ?w3] =>
          destruct (IH wt true w3) as (new & Htr & Hpr & Hprobe & Hsup)
      end.
      exists (new ++ [EvBcast l; EvSleep second]).
      split; [rewrite Htr, <- app_assoc; reflexivity|].
      split; [rewrite probes_app; unfold probes at 2; simpl in *; lia|].
      split.
      * intros e Hin Hb. apply in_app_or in Hin as [Hin|[<-|[<-|[]]]].
        -- apply probeOf_cons. now apply Hprobe.
        -- exact Hthis.
        -- discriminate.
      * intros m rest w' H. apply supersedeOf_cons. eapply Hsup. exact H.
Qed.

(** C6: in one call of [acceptRegistrations] at most one probe is sent;
    a probe is sent only with a loaded Smap that has a target, and after
    [2 * MaxKeepalive]; an Smap is returned only when it is the reduced
    maximum of the probe on the fast path, of the uuid of the loaded Smap,
    of a greater version, and naming a primary other than this node. *)
Theorem window_probe_and_supersede (smap : smapX) (w : world) :
  exists new,
    w_trace (final (acceptRegistrations self cfg smap loaded nt w))
      = new ++ w_trace w /\
    (probes new <= 1)%nat /\
    (forall e, In e new -> isBcast e = true -> probeOf cfg loaded (w_ticks w) e) /\
    (forall m w',
       acceptRegistrations self cfg smap loaded nt w = Ret (Some m) w' ->
       supersedeOf self loaded (w_ticks w) m /\
       forall p, ProxySI m = Some p -> DaemonID p <> DaemonID self).
Proof.
  unfold acceptRegistrations.
  destruct (CountTargets smap =? 0).
  2:{ exists []. split; [reflexivity|]. split; [unfold probes; simpl; lia|].
      split; [intros e []|]. intros m w' H. discriminate. }
  set (chk := match loaded with None => true | Some _ => false end).
  destruct (regLoop_probes (w_ticks w) (Startup cfg ÷ 2) chk (set_ticks [] w))
    as (new & Htr & Hpr & Hprobe & Hsup).
  exists new.
  destruct (regLoop self cfg loaded nt (w_ticks w) (Startup cfg ÷ 2) chk None
              (set_ticks [] w)) as [[mv rest] w2|f w2|w2|w2] eqn:Hrun;
    (split; [exact Htr|]);
    (split; [destruct chk; lia|]);
    (split; [exact Hprobe|]);
    intros m w' H; try discriminate.
  injection H as -> _.
  pose proof (Hsup m rest w2 eq_refl) as Hs. split; [exact Hs|].
  destruct Hs as (l & tk & p & _ & _ & _ & _ & _ & _ & Hp & Hne).
  intros p' Hp'. rewrite Hp in Hp'. injection Hp' as <-. exact Hne.
Qed.

(** One quiet turn with [ntargets = 0]: the loop goes on; [wtime] becomes
    the full start-up time when a target is there, and stays otherwise. *)
Lemma regLoop_quiet_turn tk wtime checked w :
  quiet self loaded wtime tk ->
  (loaded = None -> checked = true) ->
  exists checked' w1,
    (loaded = None -> checked' = true) /\
    forall rest,
      regLoop self cfg loaded 0 (tk :: rest) wtime checked None w =
      regLoop self cfg loaded 0 rest
        (if 0 <? CountTargets (t_smap tk) then Startup cfg else wtime)
        checked' None w1.
Proof.
  intros (Ht & Hp & Hno) Hchk. cbn [regLoop].
  apply Z.ltb_lt in Ht. rewrite Ht, Hp. cbn [negb]. cbv iota.
  replace ((0 <=? CountTargets (t_smap tk)) && (0 <? 0)) with false
    by (now rewrite andb_false_r).
  destruct checked; cbn [negb]; cbv iota.
  { eexists true, _. split; [reflexivity|]. reflexivity. }
  destruct loaded as [l|] eqn:Hl.
  2:{ specialize (Hchk eq_refl). discriminate. }
  destruct (0 <? CountTargets l).
  2:{ eexists false, _. split; [discriminate|]. reflexivity. }
  destruct (wrap64 (2 * MaxKeepalive cfg) <? t_since_probe tk).
  2:{ eexists false, _. split; [discriminate|]. reflexivity. }
  rewrite (Hno l eq_refl).
  eexists true, _. split; [reflexivity|]. reflexivity.
Qed.

(** Quiet turns during which [wtime] does not move: no target is seen, or
    it is the full start-up time already. *)
Lemma regLoop_steady (pre : list tick) : forall wtime checked w,
  Forall (fun tk => quiet self loaded wtime tk /\
                    (CountTargets (t_smap tk) = 0 \/ wtime = Startup cfg)) pre ->
  (loaded = None -> checked = true) ->
  exists checked' w1,
    (loaded = None -> checked' = true) /\
    forall rest,
      regLoop self cfg loaded 0 (pre ++ rest) wtime checked None w =
      regLoop self cfg loaded 0 rest wtime checked' None w1.
Proof.
  induction pre as [|tk pre IH]; intros wtime checked w Hall Hchk.
  - exists checked, w. split; [exact Hchk|]. reflexivity.
  - inversion Hall as [|? ? [Hq Hw] Hrest]; subst.
    assert (Hwt : (if 0 <? CountTargets (t_smap tk) then Startup cfg else wtime)
                  = wtime).
    { destruct Hw as [Hz| ->]; [rewrite Hz; reflexivity|].
      now destruct (0 <? _). }
    destruct (regLoop_quiet_turn tk wtime checked w Hq Hchk)
      as (c1 & w1 & Hc1 & Hturn).
    rewrite Hwt in Hturn.
    destruct (IH wtime c1 w1 Hrest Hc1) as (c' & w' & Hc' & Hcont).
    exists c', w'. split; [exact Hc'|].
    intros rest. simpl app. rewrite Hturn. apply Hcont.
Qed.

(** The time is up: the loop is left with the named result. *)
Lemma regLoop_timeout tk post wtime checked w :
  wtime <= t_since tk ->
  regLoop self cfg loaded 0 (tk :: post) wtime checked None w =
  Ret (None, post) (set_clock (t_since tk) w).
Proof.
  intros H. cbn [regLoop]. apply Z.ltb_ge in H. now rewrite H.
Qed.

(** C7, as the code has it. With [ntargets = 0], this node still primary
    and no supersede signal:
    - while no target has registered, the window is half the start-up
      timeout: [acceptRegistrations] returns nil at the first reading of
      the clock that reaches [Startup / 2];
    - once a tick has seen a target, the window is the full start-up
      timeout: readings between the half and the full timeout keep the
      loop going, and it returns nil at the first reading that reaches
      [Startup]. *)
Theorem window_without_target_count (smap : smapX) (w : world) :
  CountTargets smap = 0 ->
  (forall pre tk post,
     w_ticks w = pre ++ tk :: post ->
     Forall (fun t => quiet self loaded (Startup cfg ÷ 2) t /\
                      CountTargets (t_smap t) = 0) pre ->
     Startup cfg ÷ 2 <= t_since tk ->
     exists w',
       acceptRegistrations self cfg smap loaded 0 w = Ret None w' /\
       w_clock w' = t_since tk /\ w_ticks w' = post) /\
  (forall pre1 t1 pre2 tk post,
     w_ticks w = pre1 ++ t1 :: pre2 ++ tk :: post ->
     Forall (fun t => quiet self loaded (Startup cfg ÷ 2) t /\
                      CountTargets (t_smap t) = 0) pre1 ->
     quiet self loaded (Startup cfg ÷ 2) t1 ->
     0 < CountTargets (t_smap t1) ->
     Forall (quiet self loaded (Startup cfg)) pre2 ->
     Startup cfg <= t_since tk ->
     exists w',
       acceptRegistrations self cfg smap loaded 0 w = Ret None w' /\
       w_clock w' = t_since tk /\ w_ticks w' = post).
Proof.
  intros Hsm. apply Z.eqb_eq in Hsm.
  assert (Hchk0 : loaded = None ->
                  match loaded with None => true | Some _ => false end = true).
  { now intros ->. }
  split.
  - intros pre tk post Hticks Hpre Hup.
    unfold acceptRegistrations. rewrite Hsm, Hticks.
    destruct (regLoop_steady pre (Startup cfg ÷ 2)
                (match loaded with None => true | Some _ => false end)
                (set_ticks [] w))
      as (c' & w1 & _ & Hcont); [|exact Hchk0|].
    { eapply Forall_impl; [exact Hpre|]. intros t [Hq Hz]. auto. }
    rewrite Hcont, regLoop_timeout by exact Hup.
    eexists. split; [reflexivity|]. split; reflexivity.
  - intros pre1 t1 pre2 tk post Hticks Hpre1 Hq1 Hnt Hpre2 Hup.
    unfold acceptRegistrations. rewrite Hsm, Hticks.
    destruct (regLoop_steady pre1 (Startup cfg ÷ 2)
                (match loaded with None => true | Some _ => false end)
                (set_ticks [] w))
      as (c1 & w1 & Hc1 & Hcont1); [|exact Hchk0|].
    { eapply Forall_impl; [exact Hpre1|]. intros t [Hq Hz]. auto. }
    rewrite Hcont1.
    destruct (regLoop_quiet_turn t1 (Startup cfg ÷ 2) c1 w1 Hq1 Hc1)
      as (c2 & w2 & Hc2 & Hturn).
    rewrite Hturn. apply Z.ltb_lt in Hnt. rewrite Hnt.
    destruct (regLoop_steady pre2 (Startup cfg) c2 w2)
      as (c3 & w3 & _ & Hcont3); [|exact Hc2|].
    { eapply Forall_impl; [exact Hpre2|]. intros t Hq. auto. }
    rewrite Hcont3, regLoop_timeout by exact Hup.
    eexists. split; [reflexivity|]. split; reflexivity.
Qed.

End Window.

(** C7, as stated, fails: with [ntargets = 0], a start-up timeout of 10 s
    and no target registering, the window returns nil when the clock
    reads 5 s. *)
Lemma window_stops_at_half :
  exists w',
    acceptRegistrations (ops := specOps) G1 cfg0 aloneG1 None 0
      (set_ticks [tickAt 0 aloneG1; tickAt 1 aloneG1; tickAt 2 aloneG1;
                  tickAt 3 aloneG1; tickAt 4 aloneG1; tickAt 5 aloneG1;
                  tickAt 6 aloneG1]
         world0) = Ret None w' /\
    w_clock w' = 5 * second /\
    w_clock w' < Startup cfg0 /\
    w_ticks w' = [tickAt 6 aloneG1].
Proof.
  eexists. split; [vm_compute; reflexivity|].
  split; [reflexivity|]. split; reflexivity.
Qed.

Lemma window_without_target_count_witness :
  (exists w',
     acceptRegistrations (ops := specOps) G1 cfg0 aloneG1 None 0
       (set_ticks [tickAt 0 aloneG1; tickAt 4 aloneG1; tickAt 5 aloneG1] world0)
       = Ret None w' /\
     w_clock w' = t_since (tickAt 5 aloneG1) /\ w_ticks w' = []) /\
  (exists w',
     acceptRegistrations (ops := specOps) G1 cfg0 aloneG1 None 0
       (set_ticks [tickAt 0 aloneG1; tickAt 1 withTarget; tickAt 7 withTarget;
                   tickAt 10 withTarget] world0)
       = Ret None w' /\
     w_clock w' = t_since (tickAt 10 withTarget) /\ w_ticks w' = []).
Proof.
  pose proof (window_without_target_count (ops := specOps) G1 cfg0 None aloneG1)
    as H.
  split.
  - destruct (H (set_ticks [tickAt 0 aloneG1; tickAt 4 aloneG1; tickAt 5 aloneG1]
                   world0) eq_refl) as [HA _].
    apply (HA [tickAt 0 aloneG1; tickAt 4 aloneG1] (tickAt 5 aloneG1) []).
    + reflexivity.
    + repeat constructor; try (intros l Hl; discriminate).
    + vm_compute. discriminate.
  - destruct (H (set_ticks [tickAt 0 aloneG1; tickAt 1 withTarget;
                            tickAt 7 withTarget; tickAt 10 withTarget]
                   world0) eq_refl) as [_ HB].
    apply (HB [tickAt 0 aloneG1] (tickAt 1 withTarget) [tickAt 7 withTarget]
             (tickAt 10 withTarget) []).
    + reflexivity.
    + repeat constructor; try (intros l Hl; discriminate).
    + repeat constructor; try (intros l Hl; discriminate).
    + reflexivity.
    + repeat constructor; try (intros l Hl; discriminate).
    + vm_compute. discriminate.
Defined.

Lemma not_primary_leaves_window_witness :
  exists w',
    acceptRegistrations (ops := specOps) G1 cfg0 aloneG1 None 0
      (set_ticks ([tickAt 0 aloneG1] ++ tickAt 1 foreign :: [tickAt 2 aloneG1])
         world0) = Ret None w' /\
    w_ticks w' = [tickAt 2 aloneG1].
Proof.
  destruct (not_primary_leaves_window (ops := specOps) G1 cfg0 None 0 aloneG1
              world0
              (final (acceptRegistrations (ops := specOps) G1 cfg0 aloneG1 None 0
                        (set_ticks [tickAt 0 aloneG1] world0)))
              [tickAt 0 aloneG1] [tickAt 2 aloneG1] (tickAt 1 foreign))
    as (w' & Hrun & Hticks & _).
  - vm_compute. reflexivity.
  - vm_compute. reflexivity.
  - exists w'. split; [exact Hrun|exact Hticks].
Defined.

(** A probe that finds the cluster elsewhere: the loaded Smap has a
    target, 3 s have gone by with [MaxKeepalive] at 1 s, and the replies
    carry version 12 of the same uuid under the primary [G2]. *)
Lemma window_probe_supersedes :
  let loadedSmap := smapOf "U" 7 (Some G1) [G1; G2] [T1] in
  let newer := smapOf "U" 12 (Some G2) [G1; G2] [T1] in
  exists w',
    acceptRegistrations (ops := specOps) G1 cfg0 aloneG1 (Some loadedSmap) 0
      (set_ticks [tickAt 0 aloneG1; tickAt 1 aloneG1;
                  mkTick (3 * second) aloneG1 (3 * second)
                    [reply G2 false (Some newer) None;
                     reply T1 false (Some newer) None]]
         world0) = Ret (Some newer) w' /\
    probes (w_trace w') = 1%nat.
Proof.
  intros loadedSmap newer. eexists. split; [vm_compute; reflexivity|].
  reflexivity.
Qed.

Lemma window_probe_and_supersede_witness :
  exists new,
    w_trace (final (acceptRegistrations (ops := specOps) G1 cfg0 aloneG1
                      (Some local5) 0 startWorld)) = new ++ [] /\
    (probes new <= 1)%nat.
Proof.
  destruct (window_probe_and_supersede (ops := specOps) G1 cfg0 (Some local5) 0
              aloneG1 startWorld) as (new & Htr & Hpr & _).
  exists new. split; [exact Htr|exact Hpr].
Defined.

(* ===================================================================== *)
(** ** The role *)
(* ===================================================================== *)

Section Role.

Context {ops : SmapOps}.
Variable self : Snode.
Variable env : environ.

Lemma addProxy_hasSelf (m : smapX) : hasSelf self (addProxy m self).
Proof. unfold hasSelf, addProxy. simpl. apply lookup_insert_eq. Qed.

Lemma set_ProxySI_hasSelf (m : smapX) p :
  hasSelf self m -> hasSelf self (set_ProxySI m p).
Proof. intros H. exact H. Qed.

(** What [adoptEnvPrimary] leaves, when the loaded Smap names a primary. *)
Lemma adoptEnvPrimary_ret (smap : smapX) (pid : string) (cur : Snode) w :
  ProxySI smap = Some cur ->
  exists smap2 pid2,
    adoptEnvPrimary smap pid w = Ret (smap2, pid2) w /\
    Pmap smap2 = Pmap smap /\
    ((GetProxy smap pid = None /\ pid2 = EmptyString /\ smap2 = smap) \/
     (exists primary p,
        GetProxy smap pid = Some primary /\ pid2 = pid /\
        ProxySI smap2 = Some p /\
        (p = primary \/ (p = cur /\ DaemonID cur = pid)))).
Proof.
  intros Hcur. unfold adoptEnvPrimary.
  destruct (GetProxy smap pid) as [primary|] eqn:Hg.
  - rewrite Hcur. destruct (str_neb (DaemonID cur) pid) eqn:Hne.
    + eexists _, _. split; [reflexivity|]. split; [reflexivity|].
      right. exists primary, primary. repeat split; auto.
    + apply str_neb_false in Hne.
      eexists _, _. split; [reflexivity|]. split; [reflexivity|].
      right. exists primary, cur. repeat split; auto.
  - eexists _, _. split; [reflexivity|]. split; [reflexivity|]. left. auto.
Qed.

(** C8, as the code has it. Without the fatal combination of the two
    variables, and with a loaded Smap that names a primary, [determineRole]
    returns, the loaded Smap with this node in its gateway map (nil when
    nothing was loaded), and it decides secondary exactly when
    - [AIS_PRIMARY_ID] is set to another id and is not ignored: nothing was
      loaded, or the id is a gateway of the loaded Smap; or
    - an Smap was loaded and this node is not the primary of the Smap as
      returned (after an adoption); or
    - [AIS_PRIMARY_ID] is not set, nothing was loaded, and [AIS_IS_PRIMARY]
      is not true.
    [isPrimary] is only asked to hold of a node whose id the primary of the
    Smap has, when the gateway map has that id. *)
Theorem determineRole_secondary (smap : smapX) (loaded : bool) (w : world) :
  ~ (AIS_PRIMARY_ID env <> EmptyString /\ AIS_IS_PRIMARY env = true /\
     DaemonID self <> AIS_PRIMARY_ID env) ->
  (loaded = true -> exists cur, ProxySI smap = Some cur) ->
  (forall m p, ProxySI m = Some p -> DaemonID p = DaemonID self ->
               is_Some (Pmap m !! DaemonID self) -> isPrimary m self = true) ->
  exists sm secondary,
    determineRole self env smap loaded w = Ret (sm, secondary) w /\
    (loaded = true -> exists m, sm = Some m /\ hasSelf self m) /\
    (loaded = false -> sm = None) /\
    (secondary = true <->
     (AIS_PRIMARY_ID env <> EmptyString /\ AIS_PRIMARY_ID env <> DaemonID self /\
      (loaded = false \/
       is_Some (GetProxy (addProxy smap self) (AIS_PRIMARY_ID env)))) \/
     (loaded = true /\ exists m, sm = Some m /\ isPrimary m self = false) \/
     (AIS_PRIMARY_ID env = EmptyString /\ loaded = false /\ AIS_IS_PRIMARY env = false)).
Proof.
  intros Hnofatal Hcur Hprim. unfold determineRole.
  destruct (str_neb (AIS_PRIMARY_ID env) EmptyString && AIS_IS_PRIMARY env &&
            str_neb (DaemonID self) (AIS_PRIMARY_ID env)) eqn:Hf.
  { exfalso. apply Hnofatal.
    apply andb_true_iff in Hf as [Hf H3]. apply andb_true_iff in Hf as [H1 H2].
    apply str_neb_true in H1, H3. auto. }
  clear Hf Hnofatal.
  destruct loaded.
  - (* an Smap was loaded *)
    destruct (Hcur eq_refl) as [cur Hc]. cbn [andb].
    destruct (str_neb (AIS_PRIMARY_ID env) EmptyString) eqn:Hpid.
    + apply str_neb_true in Hpid.
      destruct (adoptEnvPrimary_ret (addProxy smap self) (AIS_PRIMARY_ID env)
                  cur w Hc)
        as (smap2 & pid2 & Hrun & Hpm & Hcase).
      unfold bind. rewrite Hrun. cbn [fst snd].
      assert (Hself2 : hasSelf self smap2).
      { unfold hasSelf. rewrite Hpm. apply addProxy_hasSelf. }
      destruct Hcase as [(Hg & -> & ->)|(primary & p & Hg & -> & Hp2 & Hp)].
      * (* the id is not a gateway of the loaded Smap: ignored *)
        assert (Hn : str_neb EmptyString EmptyString = false) by reflexivity. rewrite Hn.
        eexists _, _. split; [reflexivity|].
        split; [intros _; eexists; split; [reflexivity|exact Hself2]|].
        split; [discriminate|].
        rewrite negb_true_iff. split.
        -- intros H. right. left. split; [reflexivity|]. eexists. eauto.
        -- intros [(_ & _ & [H|H])|[(_ & m & Hm & H)|(_ & H & _)]];
             try discriminate.
           ++ rewrite Hg in H. destruct H as [x H]. discriminate.
           ++ injection Hm as <-. exact H.
      * (* the id is a gateway of the loaded Smap *)
        assert (Hn : str_neb (AIS_PRIMARY_ID env) EmptyString = true)
          by (now apply str_neb_true).
        rewrite Hn.
        eexists _, _. split; [reflexivity|].
        split; [intros _; eexists; split; [reflexivity|exact Hself2]|].
        split; [discriminate|].
        rewrite str_neb_true. split.
        -- intros H. left. split; [exact Hpid|]. split; [exact H|].
           right. rewrite Hg. eauto.
        -- intros [(_ & H & _)|[(_ & m & Hm & H)|(H & _)]];
             [exact H| |contradiction].
           injection Hm as <-. intros Heq.
           assert (Hpself : DaemonID p = DaemonID self).
           { destruct Hp as [->|[-> Hc2]]; [|now rewrite Hc2].
             unfold GetProxy, addProxy in Hg. simpl in Hg.
             rewrite Heq, lookup_insert_eq in Hg. now injection Hg as <-. }
           rewrite (Hprim smap2 p Hp2 Hpself) in H; [discriminate|].
           rewrite Hself2. eauto.
    + apply str_neb_false in Hpid. unfold bind, ret. cbn [fst snd].
      rewrite Hpid.
      assert (Hn : str_neb EmptyString EmptyString = false) by reflexivity. rewrite Hn.
      eexists _, _. split; [reflexivity|].
      split; [intros _; eexists; split; [reflexivity|apply addProxy_hasSelf]|].
      split; [discriminate|].
      rewrite negb_true_iff. split.
      * intros H. right. left. split; [reflexivity|]. eexists. eauto.
      * intros [(H & _)|[(_ & m & Hm & H)|(_ & H & _)]];
          [contradiction| |discriminate].
        injection Hm as <-. exact H.
  - (* nothing was loaded *)
    rewrite andb_false_l. unfold bind, ret. cbn [fst snd].
    eexists _, _. split; [reflexivity|].
    split; [discriminate|]. split; [reflexivity|].
    destruct (str_neb (AIS_PRIMARY_ID env) EmptyString) eqn:Hpid.
    + apply str_neb_true in Hpid. rewrite str_neb_true. split.
      * intros H. left. auto.
      * intros [(_ & H & _)|[(H & _)|(H & _)]];
          [exact H|discriminate|contradiction].
    + apply str_neb_false in Hpid. rewrite negb_true_iff. split.
      * intros H. right. right. auto.
      * intros [(H & _)|[(H & _)|(_ & _ & H)]];
          [contradiction|discriminate|exact H].
Qed.

End Role.

(** C8, as stated, fails: [AIS_PRIMARY_ID] names "ghost", which is not this
    node and not a gateway of the loaded Smap; the variable is ignored and
    [G1], the primary of the loaded Smap, does not decide secondary. *)
Lemma ignored_env_primary :
  let env := mkEnv "ghost" false in
  let loadedSmap := smapOf "U" 7 (Some G1) [G1; G2] [T1] in
  AIS_PRIMARY_ID env <> EmptyString /\ AIS_PRIMARY_ID env <> DaemonID G1 /\
  determineRole (ops := specOps) G1 env loadedSmap true world0
    = Ret (Some (addProxy loadedSmap G1), false) world0.
Proof.
  intros env loadedSmap.
  split; [discriminate|]. split; [discriminate|].
  vm_compute. reflexivity.
Qed.

Lemma isPrimary_spec_complete (self : Snode) (m : smapX) (p : Snode) :
  ProxySI m = Some p -> DaemonID p = DaemonID self ->
  is_Some (Pmap m !! DaemonID self) -> isPrimary_spec m self = true.
Proof.
  intros Hp Hid _. unfold isPrimary_spec. rewrite Hp.
  now apply str_eqb_true.
Qed.

Lemma determineRole_secondary_witness :
  let env := mkEnv "G2" false in
  let loadedSmap := smapOf "U" 7 (Some G1) [G1; G2] [T1] in
  exists sm,
    determineRole (ops := specOps) G1 env loadedSmap true world0
      = Ret (sm, true) world0.
Proof.
  intros env loadedSmap.
  destruct (determineRole_secondary (ops := specOps) G1 env loadedSmap true world0)
    as (sm & secondary & Hrun & _ & _ & Hiff).
  - intros (_ & H & _). discriminate.
  - intros _. exists G1. reflexivity.
  - apply isPrimary_spec_complete.
  - exists sm. rewrite Hrun.
    replace secondary with true; [reflexivity|].
    symmetry. apply Hiff. left.
    split; [discriminate|]. split; [discriminate|].
    right. vm_compute. eauto.
Defined.

(* ===================================================================== *)
(** ** Discovery *)
(* ===================================================================== *)

Section Discovery.

Context {ops : SmapOps}.
Variable self : Snode.
Variable cfg : config.


(** Line 347 is reached with [eq] false: the process exits, whatever the
    error of the merge, nil included. *)
Lemma mergeAndInstall_exits (maxVer clone : smapX) (w : world) :
  w_smap w = Some clone ->
  mergeAndInstall maxVer false w
    = Exit (ExitMerge (snd (merge maxVer clone false))) w.
Proof.
  intros Hw. unfold mergeAndInstall, bind, getSmap. rewrite Hw. cbn [negb].
  destruct (merge maxVer clone false) as [[dst added] e]. reflexivity.
Qed.


(** The running maximum handed to the second [range] loop of the slow
    path is kept whenever no Smap of the agreed uuid has a greater
    version, whatever its own uuid. *)
Lemma pickMax_keeps_initial (l : nodemap smapX) (suuid : string) (m0 : smapX) :
  Forall (fun kv => UUID (snd kv) = suuid -> Version (snd kv) <= Version m0) l ->
  pickMax l suuid (Some m0) = Some m0.
Proof.
  induction l as [|[n s] l IH]; intros H; [reflexivity|].
  inversion H as [|? ? Hs Hl]; subst. cbn [pickMax].
  destruct (str_neb (UUID s) suuid) eqn:Hu; [now apply IH|].
  apply str_neb_false in Hu. specialize (Hs Hu). cbn [snd] in Hs.
  apply Z.ltb_ge in Hs. rewrite Hs. now apply IH.
Qed.

End Discovery.



(** C1: the current Smap of [G1] has [G1] alone; the maximum found has
    the same uuid, the same primary [G1], and more nodes. The strict merge
    finds no duplicate and reports no error, adding two nodes; the process
    exits all the same, with nothing installed. *)
Lemma discover_exits_on_clean_merge :
  Compare_spec alone5 wider7 = (true, false, false) /\
  snd (merge_spec wider7 alone5 false) = None /\
  snd (fst (merge_spec wider7 alone5 false)) = 2 /\
  exists w',
    discoverMeta (ops := specOps) G1 cfg0 alone5
      (worldWith alone5 [mkRound 0 [reply G2 false (Some wider7) None]] [])
      = Exit (ExitMerge None) w' /\
    w_smap w' = Some alone5.
Proof.
  split; [vm_compute; reflexivity|].
  split; [vm_compute; reflexivity|].
  split; [vm_compute; reflexivity|].
  eexists. split; [vm_compute; reflexivity|]. reflexivity.
Qed.

(** *** The slow path *)

(** A target with a non-empty uuid other than the one agreed so far. *)
Lemma agreeUUID_other (l : nodemap smapX) : forall suuid n s,
  suuid <> EmptyString -> In (n, s) l -> IsTarget n = true ->
  UUID s <> EmptyString -> UUID s <> suuid ->
  agreeUUID l suuid = None.
Proof.
  induction l as [|[n0 s0] l IH]; intros suuid n s Hsu Hin Ht Hne Hdiff;
    [destruct Hin|].
  cbn [agreeUUID].
  destruct (IsTarget n0) eqn:Ht0; cbn [negb].
  2:{ destruct Hin as [Heq|Hin]; [injection Heq as -> ->; congruence|].
      eapply IH; eauto. }
  assert (Hs : str_eqb suuid EmptyString = false).
  { destruct (str_eqb suuid EmptyString) eqn:E; [|reflexivity].
    apply str_eqb_true in E. contradiction. }
  rewrite Hs.
  destruct (str_neb suuid (UUID s0) && str_neb (UUID s0) EmptyString) eqn:Hc;
    [reflexivity|].
  destruct Hin as [Heq|Hin]; [|eapply IH; eauto].
  injection Heq as -> ->.
  assert (H1 : str_neb suuid (UUID s) = true) by (apply str_neb_true; congruence).
  assert (H2 : str_neb (UUID s) EmptyString = true) by (now apply str_neb_true).
  rewrite H1, H2 in Hc. discriminate.
Qed.

(** Two targets with different non-empty uuids: no agreement, in whatever
    order the per-node map is visited. *)
Lemma agreeUUID_split (l : nodemap smapX) : forall suuid n1 s1 n2 s2,
  In (n1, s1) l -> In (n2, s2) l ->
  IsTarget n1 = true -> IsTarget n2 = true ->
  UUID s1 <> EmptyString -> UUID s2 <> EmptyString -> UUID s1 <> UUID s2 ->
  agreeUUID l suuid = None.
Proof.
  induction l as [|[n0 s0] l IH];
    intros suuid n1 s1 n2 s2 Hin1 Hin2 Ht1 Ht2 Hu1 Hu2 Hdiff; [destruct Hin1|].
  destruct (decide (suuid = EmptyString)) as [Hempty|Hset].
  - (* nothing agreed yet *)
    cbn [agreeUUID]. subst suuid.
    destruct (IsTarget n0) eqn:Ht0; cbn [negb].
    2:{ destruct Hin1 as [Heq|Hin1]; [injection Heq as -> ->; congruence|].
        destruct Hin2 as [Heq|Hin2]; [injection Heq as -> ->; congruence|].
        apply (IH EmptyString n1 s1 n2 s2); auto. }
    change (str_eqb EmptyString EmptyString) with true. cbv iota.
    destruct Hin1 as [Heq1|Hin1]; destruct Hin2 as [Heq2|Hin2].
    + injection Heq1 as -> ->. injection Heq2 as -> ->. contradiction.
    + injection Heq1 as -> ->.
      apply (agreeUUID_other l (UUID s1) n2 s2); auto.
    + injection Heq2 as -> ->.
      apply (agreeUUID_other l (UUID s2) n1 s1); auto.
    + apply (IH (UUID s0) n1 s1 n2 s2); auto.
  - (* a uuid is agreed: one of the two differs from it *)
    destruct (decide (UUID s1 = suuid)) as [He|Hd].
    + apply (agreeUUID_other _ suuid n2 s2); auto. congruence.
    + apply (agreeUUID_other _ suuid n1 s1); auto.
Qed.

(** On the slow path, with targets that disagree, [slowPath] exits: with
    CIE-30, unless [resolveUUIDBMD] reported a split first. *)
Lemma slowPath_split {ops : SmapOps} (r : reduce) (w : world) n1 s1 n2 s2 :
  In (n1, s1) (rangeTargets (nm_of (smaps r))) ->
  In (n2, s2) (rangeTargets (nm_of (smaps r))) ->
  IsTarget n1 = true -> IsTarget n2 = true ->
  UUID s1 <> EmptyString -> UUID s2 <> EmptyString -> UUID s1 <> UUID s2 ->
  slowPath r w = Exit (ExitCIE 30) w \/ slowPath r w = Exit ExitBmdSplit w.
Proof.
  intros H1 H2 Ht1 Ht2 Hu1 Hu2 Hd. unfold slowPath.
  destruct (resolveUUIDBMD (nm_of (bmds r))) as [b e].
  rewrite (agreeUUID_split _ EmptyString n1 s1 n2 s2 H1 H2 Ht1 Ht2 Hu1 Hu2 Hd).
  destruct e as [[| |]|]; auto.
Qed.

(** C4: the gateway [G1] answers first with uuid "UB", version 9; the
    target [T1] answers with uuid "UA", version 3. The round is on the slow
    path, the targets agree on "UA", and [uncoverMeta] returns the Smap of
    the gateway, of uuid "UB": the maximum of the fast path goes into the
    second loop as it is and no Smap of "UA" has a greater version. *)
Lemma uncover_keeps_stale_maximum :
  let results := [reply G1 false (Some gatewayUB) None;
                  reply T1 false (Some targetUA) None] in
  slowp (bcastMaxVer results (Some []) (Some [])) = true /\
  smaps (bcastMaxVer results (Some []) (Some []))
    = Some [(G1, gatewayUB); (T1, targetUA)] /\
  agreeUUID [(G1, gatewayUB); (T1, targetUA)] EmptyString = Some "UA" /\
  UUID gatewayUB <> "UA" /\
  exists w',
    uncoverMeta (ops := specOps) cfg0 gatewayUB
      (worldWith gatewayUB [mkRound 0 results] [])
      = Ret (Some gatewayUB, None) w'.
Proof.
  intros results.
  split; [vm_compute; reflexivity|].
  split; [vm_compute; reflexivity|].
  split; [vm_compute; reflexivity|].
  split; [discriminate|].
  eexists. vm_compute. reflexivity.
Qed.

(* ===================================================================== *)
(** ** The installs of the start-up *)
(* ===================================================================== *)

Section Installs.

Context {ops : SmapOps}.
Variable self : Snode.
Variable cfg : config.
Variable env : environ.

Lemma keeps_ret {A} (a : A) (Q : A -> Prop) : Q a -> keeps self (ret a) Q.
Proof.
  intros Hq w Hg. split; [exact Hg|].
  intros a' w' H. injection H as <- _. exact Hq.
Qed.

Lemma keeps_exit {A} f (Q : A -> Prop) : keeps self (exitLogf f) Q.
Proof. intros w Hg. split; [exact Hg|]. intros a w' H. discriminate. Qed.

Lemma keeps_panic {A} (Q : A -> Prop) : keeps self panic Q.
Proof. intros w Hg. split; [exact Hg|]. intros a w' H. discriminate. Qed.

Lemma keeps_bind {A B} (c : M A) (k : A -> M B) (Q : A -> Prop) (R : B -> Prop) :
  keeps self c Q -> (forall a, Q a -> keeps self (k a) R) ->
  keeps self (bind c k) R.
Proof.
  intros Hc Hk w Hg. destruct (Hc w Hg) as [Hfin Hq]. unfold bind.
  destruct (c w) as [a w1|f w1|w1|w1]; simpl in Hfin.
  - apply (Hk a); [eapply Hq; reflexivity|exact Hfin].
  - split; [exact Hfin|]. intros b w' H. discriminate.
  - split; [exact Hfin|]. intros b w' H. discriminate.
  - split; [exact Hfin|]. intros b w' H. discriminate.
Qed.

Lemma keeps_weaken {A} (c : M A) (Q R : A -> Prop) :
  keeps self c Q -> (forall a, Q a -> R a) -> keeps self c R.
Proof.
  intros Hc Himp w Hg. destruct (Hc w Hg) as [Hfin Hq].
  split; [exact Hfin|]. intros a w' H. apply Himp. eapply Hq. exact H.
Qed.

Lemma good_add_event e w :
  (forall m, e = EvPutSmap m -> hasSelf self m) ->
  good self w -> good self (add_event e w).
Proof.
  intros He [H1 H2]. split; [exact H1|].
  intros m [Heq|Hin]; [now apply He|now apply H2].
Qed.

Lemma keeps_log e :
  (forall m, e <> EvPutSmap m) -> keeps self (log e) (fun _ => True).
Proof.
  intros He w Hg. split; [|auto].
  apply (good_add_event e w); [|exact Hg].
  intros m Hm. destruct (He m Hm).
Qed.

Lemma keeps_putSmap m : hasSelf self m -> keeps self (putSmap m) (fun _ => True).
Proof.
  intros Hm w [H1 H2]. split; [|auto]. split.
  - intros m' H. injection H as <-. exact Hm.
  - intros m' [Heq|Hin]; [injection Heq as <-; exact Hm|now apply H2].
Qed.

Lemma keeps_getSmap : keeps self getSmap (hasSelf self).
Proof.
  intros w Hg. unfold getSmap.
  destruct (w_smap w) as [m|] eqn:Hm.
  - split; [exact Hg|]. intros a w' H. injection H as <- _.
    now apply (proj1 Hg).
  - split; [exact Hg|]. intros a w' H. discriminate.
Qed.

Lemma keeps_getBMD : keeps self getBMD (fun _ => True).
Proof. intros w Hg. split; [exact Hg|auto]. Qed.

Lemma keeps_putBMD b : keeps self (putBMD b) (fun _ => True).
Proof.
  intros w [H1 H2]. split; [|auto]. split; [exact H1|].
  intros m [Heq|Hin]; [discriminate|now apply H2].
Qed.

Lemma keeps_joinCluster : keeps self joinCluster (fun _ => True).
Proof.
  intros w [H1 H2]. unfold joinCluster.
  destruct (w_joins w) as [|e rest].
  - split; [split; assumption|]. intros a w' H. discriminate.
  - split; [|auto]. split; [exact H1|].
    intros m [Heq|Hin]; [discriminate|now apply H2].
Qed.

Lemma keeps_installBMD b : keeps self (installBMD b) (fun _ => True).
Proof.
  unfold installBMD. destruct b as [b|]; [|now apply keeps_ret].
  eapply keeps_bind; [apply keeps_getBMD|]. intros [c|] _.
  - destruct (bmdVersion c <? bmdVersion b);
      [apply keeps_putBMD|now apply keeps_ret].
  - apply keeps_putBMD.
Qed.

Lemma keeps_secondaryStartup m :
  hasSelf self m -> keeps self (secondaryStartup (Some m)) (fun _ => True).
Proof.
  intros Hm. unfold secondaryStartup.
  eapply keeps_bind; [now apply keeps_putSmap|]. intros _ _.
  eapply keeps_bind; [apply keeps_joinCluster|]. intros [|] _.
  - now apply keeps_ret.
  - eapply keeps_bind; [apply keeps_log; discriminate|]. intros _ _.
    now apply keeps_ret.
Qed.

Lemma keeps_demote m : hasSelf self m -> keeps self (demote m) (fun _ => True).
Proof.
  intros Hm. unfold demote.
  eapply keeps_bind; [now apply keeps_secondaryStartup|]. intros [|] _.
  - apply keeps_exit.
  - now apply keeps_ret.
Qed.

Lemma good_set_clock t w : good self w -> good self (set_clock t w).
Proof. intros H. exact H. Qed.

Lemma good_set_rounds l w : good self w -> good self (set_rounds l w).
Proof. intros H. exact H. Qed.

Lemma good_set_ticks l w : good self w -> good self (set_ticks l w).
Proof. intros H. exact H. Qed.

Lemma bcastLoop_good bcastSmap (rounds : list round) : forall bm sm w,
  good self w -> good self (final (bcastLoop cfg bcastSmap rounds bm sm w)).
Proof.
  induction rounds as [|rd rest IH]; intros bm sm w Hg; [exact Hg|].
  cbn [bcastLoop].
  assert (Hg1 : good self (add_event (EvBcast bcastSmap)
                             (set_clock (r_elapsed rd) w))).
  { apply good_add_event; [discriminate|]. exact Hg. }
  destruct (done (bcastMaxVer (r_results rd) bm sm) ||
            (Startup cfg <? r_elapsed rd)); [exact Hg1|].
  apply IH. apply good_add_event; [discriminate|]. exact Hg1.
Qed.

Lemma keeps_broadcasts bcastSmap :
  keeps self (broadcasts cfg bcastSmap) (fun _ => True).
Proof.
  intros w Hg. split; [|auto]. unfold broadcasts.
  pose proof (bcastLoop_good bcastSmap (w_rounds w) (Some []) (Some [])
                (set_rounds [] w) Hg) as H.
  destruct (bcastLoop cfg bcastSmap (w_rounds w) (Some []) (Some [])
              (set_rounds [] w)) as [[r rest] w1|f w1|w1|w1]; exact H.
Qed.

Lemma keeps_slowPath r : keeps self (slowPath r) (fun _ => True).
Proof.
  unfold slowPath. destruct (resolveUUIDBMD (nm_of (bmds r))) as [b e].
  destruct e as [[| |]|];
    try apply keeps_exit;
    (destruct (agreeUUID _ _); [now apply keeps_ret|apply keeps_exit]).
Qed.

Lemma keeps_uncoverMeta bcastSmap :
  keeps self (uncoverMeta cfg bcastSmap) (fun _ => True).
Proof.
  unfold uncoverMeta.
  eapply keeps_bind; [apply keeps_broadcasts|]. intros r _.
  destruct (slowp r); [apply keeps_slowPath|now apply keeps_ret].
Qed.

Lemma keeps_mergeAndInstall maxVer eq :
  keeps self (mergeAndInstall maxVer eq) (fun _ => True).
Proof.
  unfold mergeAndInstall.
  eapply keeps_bind; [apply keeps_getSmap|]. intros clone Hc.
  destruct eq; cbn [negb].
  - apply keeps_putSmap. exact Hc.
  - destruct (merge maxVer clone false) as [[dst added] e]. apply keeps_exit.
Qed.

Lemma keeps_discoverMeta smap :
  keeps self (discoverMeta self cfg smap) (fun _ => True).
Proof.
  unfold discoverMeta.
  eapply keeps_bind; [apply keeps_uncoverMeta|]. intros found _.
  eapply keeps_bind; [apply keeps_installBMD|]. intros _ _.
  destruct (fst found) as [maxVer|]; [|now apply keeps_ret].
  destruct (Version maxVer =? 0); [now apply keeps_ret|].
  destruct (Compare smap maxVer) as [[sameUUID sameVersion] eq].
  destruct (negb sameUUID); [apply keeps_exit|].
  destruct (eq && sameVersion); [now apply keeps_ret|].
  destruct (ProxySI maxVer) as [pr|]; [|apply keeps_mergeAndInstall].
  destruct (str_neb (DaemonID pr) (DaemonID self));
    [|apply keeps_mergeAndInstall].
  destruct (Version smap <? Version maxVer); [|apply keeps_exit].
  apply keeps_putSmap. apply addProxy_hasSelf.
Qed.

Lemma keeps_finalize smap :
  hasSelf self smap -> keeps self (finalize smap) (fun _ => True).
Proof.
  intros Hs. unfold finalize.
  eapply keeps_bind with (Q := fun _ => True).
  { destruct (str_eqb (UUID smap) EmptyString).
    - eapply keeps_bind; [apply keeps_putSmap; exact Hs|].
      intros _ _. now apply keeps_ret.
    - now apply keeps_ret. }
  intros smap1 _.
  destruct (persist smap1); [apply keeps_exit|].
  eapply keeps_bind; [apply keeps_log; discriminate|]. intros _ _.
  eapply keeps_bind; [apply keeps_getBMD|]. intros [bmd|] _; [|apply keeps_panic].
  eapply keeps_bind with (Q := fun _ => True).
  { destruct (bmdVersion bmd =? 0).
    - eapply keeps_bind; [apply keeps_putBMD|]. intros _ _. now apply keeps_ret.
    - now apply keeps_ret. }
  intros bmd1 _.
  eapply keeps_bind; [apply keeps_log; discriminate|]. intros _ _.
  apply keeps_log. discriminate.
Qed.

Lemma keeps_stillPrimary : keeps self (stillPrimary self) (fun _ => True).
Proof.
  unfold stillPrimary.
  eapply keeps_bind; [apply keeps_getSmap|]. intros smap Hs.
  destruct (negb (isPrimary smap self));
    [now apply keeps_demote|now apply keeps_finalize].
Qed.

(** The loaded Smap meets the registrations: the invariant is kept when
    the merge into the loaded Smap keeps this node. *)
Lemma mergeLoaded_good (loadedSmap : option smapX) (w : world) :
  good self w ->
  (forall l, loadedSmap = Some l -> hasSelf self l) ->
  (forall live l, w_smap w = Some live -> loadedSmap = Some l ->
                  hasSelf self (fst (fst (merge live l true)))) ->
  good self (final (mergeLoaded loadedSmap w)) /\
  forall a w', mergeLoaded loadedSmap w = Ret a w' -> hasSelf self a.
Proof.
  intros Hg Hl Hm. unfold mergeLoaded, bind, getSmap.
  destruct (w_smap w) as [live|] eqn:Hlive.
  2:{ split; [exact Hg|]. intros a w' H. discriminate. }
  assert (Hlv : hasSelf self live) by (now apply (proj1 Hg)).
  destruct ((0 <? CountTargets live) || (1 <? CountProxies live)).
  - destruct loadedSmap as [l|].
    + specialize (Hm live l eq_refl eq_refl).
      destruct (merge live l true) as [[l1 added] e]. cbn [fst] in Hm.
      set (l2 := if 0 <? added
                 then set_Version l1 (wrap64 (Version l1 + wrap64 added + 1))
                 else l1).
      assert (Hl2 : hasSelf self l2).
      { unfold l2. destruct (0 <? added); exact Hm. }
      destruct (keeps_putSmap l2 Hl2 w Hg) as [Hg1 _].
      unfold putSmap in *. cbn [final] in Hg1. unfold ret, getBMD, log.
      cbn [w_smap w_bmd w_clock w_trace w_ticks w_rounds w_joins final].
      split.
      * apply (good_add_event (EvSync metaction1 l2 (w_bmd w))) in Hg1;
          [exact Hg1|discriminate].
      * intros a w' H. injection H as <- _. exact Hl2.
    + unfold ret, getBMD, log.
      cbn [w_smap w_bmd w_clock w_trace w_ticks w_rounds w_joins final].
      split.
      * apply (good_add_event (EvSync metaction1 live (w_bmd w))) in Hg;
          [exact Hg|discriminate].
      * intros a w' H. injection H as <- _. exact Hlv.
  - destruct loadedSmap as [l|].
    + destruct (keeps_putSmap l (Hl l eq_refl) w Hg) as [Hg1 _].
      split; [exact Hg1|]. intros a w' H. injection H as <- _.
      now apply Hl.
    + split; [exact Hg|]. intros a w' H. injection H as <- _. exact Hlv.
Qed.

(** The wait loop installs nothing; the owner holds, at the end, what it
    held before or what a tick showed. *)
Lemma regLoop_good loadedSmap ntargets (ticks : list tick) :
  forall wtime checked mv w,
    good self w ->
    Forall (fun tk => hasSelf self (t_smap tk)) ticks ->
    let o := regLoop self cfg loadedSmap ntargets ticks wtime checked mv w in
    good self (final o) /\
    (w_smap (final o) = w_smap w \/
     exists tk, In tk ticks /\ w_smap (final o) = Some (t_smap tk)).
Proof.
  induction ticks as [|tk ticks IH]; intros wtime checked mv w Hg Hall.
  - split; [exact Hg|]. left. reflexivity.
  - inversion Hall as [|? ? Htk Hrest]; subst. cbn zeta.
    assert (Hg1 : good self (registered (t_smap tk)
                               (add_event (EvSleep second)
                                  (set_clock (t_since tk) w)))).
    { destruct Hg as [H1 H2]. split.
      - intros m H. injection H as <-. exact Htk.
      - intros m [Heq|Hin]; [discriminate|now apply H2]. }
    assert (Hhere : forall (o : outcome (option smapX * list tick)) w1,
              final o = w1 -> good self w1 -> w_smap w1 = Some (t_smap tk) ->
              good self (final o) /\
              (w_smap (final o) = w_smap w \/
               exists tk', In tk' (tk :: ticks) /\
                           w_smap (final o) = Some (t_smap tk'))).
    { intros o w1 <- Hgo Hs. split; [exact Hgo|]. right. exists tk.
      split; [now left|exact Hs]. }
    assert (Hrec : forall wtime' checked' mv' w1,
              good self w1 -> w_smap w1 = Some (t_smap tk) ->
              good self (final (regLoop self cfg loadedSmap ntargets ticks
                                  wtime' checked' mv' w1)) /\
              (w_smap (final (regLoop self cfg loadedSmap ntargets ticks
                                wtime' checked' mv' w1)) = w_smap w \/
               exists tk', In tk' (tk :: ticks) /\
                           w_smap (final (regLoop self cfg loadedSmap ntargets
                                            ticks wtime' checked' mv' w1))
                           = Some (t_smap tk'))).
    { intros wtime' checked' mv' w1 Hgw Hs.
      destruct (IH wtime' checked' mv' w1 Hgw Hrest) as [Hgo Hwhere].
      split; [exact Hgo|]. right.
      destruct Hwhere as [Heq|(tk' & Hin & Heq)].
      - exists tk. split; [now left|]. now rewrite Heq.
      - exists tk'. split; [now right|exact Heq]. }
    cbn [regLoop].
    destruct (t_since tk <? wtime).
    2:{ split; [exact Hg|]. left. reflexivity. }
    destruct (negb (isPrimary (t_smap tk) self)).
    { eapply Hhere; [reflexivity|exact Hg1|reflexivity]. }
    destruct ((ntargets <=? CountTargets (t_smap tk)) && (0 <? ntargets)).
    { eapply Hhere; [reflexivity|exact Hg1|reflexivity]. }
    destruct (negb checked).
    2:{ apply Hrec; [exact Hg1|reflexivity]. }
    destruct loadedSmap as [l|].
    2:{ eapply Hhere; [reflexivity|exact Hg1|reflexivity]. }
    destruct (0 <? CountTargets l).
    2:{ apply Hrec; [exact Hg1|reflexivity]. }
    destruct (wrap64 (2 * MaxKeepalive cfg) <? t_since_probe tk).
    2:{ apply Hrec; [exact Hg1|reflexivity]. }
    assert (Hg3 : good self (add_event (EvBcast l)
                     (set_clock (t_since_probe tk)
                        (registered (t_smap tk)
                           (add_event (EvSleep second)
                              (set_clock (t_since tk) w)))))).
    { apply good_add_event; [discriminate|exact Hg1]. }
    destruct (movedOn self l (bcastMaxVer (t_results tk) None None)).
    + eapply Hhere; [reflexivity|exact Hg3|reflexivity].
    + apply Hrec; [exact Hg3|reflexivity].
Qed.

Lemma acceptRegistrations_good smap loadedSmap ntargets (w : world) :
  good self w ->
  Forall (fun tk => hasSelf self (t_smap tk)) (w_ticks w) ->
  let o := acceptRegistrations self cfg smap loadedSmap ntargets w in
  good self (final o) /\
  (w_smap (final o) = w_smap w \/
   exists tk, In tk (w_ticks w) /\ w_smap (final o) = Some (t_smap tk)).
Proof.
  intros Hg Hall. cbn zeta. unfold acceptRegistrations.
  destruct (CountTargets smap =? 0).
  2:{ split; [exact Hg|]. now left. }
  pose proof (regLoop_good loadedSmap ntargets (w_ticks w) (Startup cfg ÷ 2)
                (match loadedSmap with None => true | Some _ => false end)
                None (set_ticks [] w) Hg Hall) as H.
  cbn zeta in H.
  destruct (regLoop self cfg loadedSmap ntargets (w_ticks w) _ _ None
              (set_ticks [] w)) as [[mv rest] w1|f w1|w1|w1]; exact H.
Qed.

(** C9, as the code has it. The loaded Smap that [determineRole] returns
    has this node in its gateway map; and every Smap that [primaryStartup]
    installs has it: the minimal Smap, the Smap of the registration-window
    supersede and of the discovery demotion (this node is put into both
    before the install), the loaded Smap after the merge, the merged clone
    and the final Smap. This holds when the Smaps left by the nodes that
    register keep this node, and so does the merge into the loaded Smap.
    The secondary start-up is another matter: with nothing loaded it
    installs the empty Smap. *)
Theorem primary_installs_contain_self (loadedSmap : option smapX)
    (ntargets : Z) (w : world) :
  (forall smap w0 sm sec w', 
     determineRole self env smap true w0 = Ret (sm, sec) w' ->
     exists m, sm = Some m /\ hasSelf self m) /\
  ((forall m, In (EvPutSmap m) (w_trace w) -> hasSelf self m) ->
   (forall l, loadedSmap = Some l -> hasSelf self l) ->
   Forall (fun tk => hasSelf self (t_smap tk)) (w_ticks w) ->
   (forall live l,
      loadedSmap = Some l ->
      In live (minimalSmap self :: map t_smap (w_ticks w)) ->
      hasSelf self (fst (fst (merge live l true)))) ->
   forall m,
     In (EvPutSmap m)
        (w_trace (final (primaryStartup self cfg loadedSmap ntargets w))) ->
     hasSelf self m).
Proof.
  split.
  { intros smap w0 sm sec w' H. unfold determineRole in H.
    destruct (str_neb (AIS_PRIMARY_ID env) EmptyString && AIS_IS_PRIMARY env &&
              str_neb (DaemonID self) (AIS_PRIMARY_ID env)); [discriminate|].
    unfold bind in H. cbn [andb] in H.
    destruct (str_neb (AIS_PRIMARY_ID env) EmptyString).
    - unfold adoptEnvPrimary in H.
      destruct (GetProxy (addProxy smap self) (AIS_PRIMARY_ID env)).
      + destruct (ProxySI (addProxy smap self)) as [cur|]; [|discriminate].
        destruct (str_neb (DaemonID cur) (AIS_PRIMARY_ID env));
          injection H as <- _ _; eexists; (split; [reflexivity|]);
          apply addProxy_hasSelf.
      + injection H as <- _ _. eexists. split; [reflexivity|].
        apply addProxy_hasSelf.
    - injection H as <- _ _. eexists. split; [reflexivity|].
      apply addProxy_hasSelf. }
  intros Htr Hl Hticks Hmerge.
  assert (Hmin : hasSelf self (minimalSmap self)).
  { unfold minimalSmap. apply set_ProxySI_hasSelf, addProxy_hasSelf. }
  (* after the first install *)
  set (w1 := mkWorld (Some (minimalSmap self)) (w_bmd w) (w_clock w)
               (EvPutSmap (minimalSmap self) :: w_trace w)
               (w_ticks w) (w_rounds w) (w_joins w)).
  assert (Hg1 : good self w1).
  { split.
    - intros m H. injection H as <-. exact Hmin.
    - intros m [Heq|Hin]; [injection Heq as <-; exact Hmin|now apply Htr]. }
  (* the tail of the start-up, once the window returned nil *)
  assert (Htail : forall w2,
             good self w2 ->
             (w_smap w2 = w_smap w1 \/
              exists tk, In tk (w_ticks w) /\ w_smap w2 = Some (t_smap tk)) ->
             good self
               (final ((smap1 <- mergeLoaded loadedSmap ;;
                        discoverMeta self cfg smap1 ;;; stillPrimary self) w2))).
  { intros w2 Hg2 Hwhere.
    destruct (mergeLoaded_good loadedSmap w2 Hg2 Hl) as [Hgm Hres].
    { intros live l Hlive Hld. apply Hmerge; [exact Hld|].
      destruct Hwhere as [Heq|(tk & Hin & Heq)].
      - left. rewrite Hlive in Heq. now injection Heq as ->.
      - right. rewrite Hlive in Heq. injection Heq as ->.
        now apply in_map. }
    unfold bind at 1.
    destruct (mergeLoaded loadedSmap w2) as [a w3|f w3|w3|w3]; try exact Hgm.
    cbn [final] in Hgm.
    refine (proj1 (keeps_bind _ _ (fun _ => True) (fun _ => True) _ _ w3 Hgm)).
    - apply keeps_discoverMeta.
    - intros _ _. apply keeps_stillPrimary. }
  assert (Hsup : forall mv w2,
             good self w2 ->
             good self (final ((putSmap (addProxy mv self) ;;;
                                demote (addProxy mv self)) w2))).
  { intros mv w2 Hg2.
    refine (proj1 (keeps_bind _ _ (fun _ => True) (fun _ => True) _ _ w2 Hg2)).
    - apply keeps_putSmap, addProxy_hasSelf.
    - intros _ _. apply keeps_demote, addProxy_hasSelf. }
  assert (Hgood : good self
             (final (primaryStartup self cfg loadedSmap ntargets w))).
  { unfold primaryStartup. unfold bind at 1. unfold putSmap at 1. fold w1.
    unfold bind at 1.
    destruct (skipStartup cfg).
    - unfold ret. apply Htail; [exact Hg1|now left].
    - pose proof (acceptRegistrations_good (minimalSmap self) loadedSmap
                    ntargets w1 Hg1 Hticks) as [Hga Hwhere].
      destruct (acceptRegistrations self cfg (minimalSmap self) loadedSmap
                  ntargets w1) as [[mv|] w2|f w2|w2|w2];
        cbn [final] in Hga, Hwhere; try exact Hga.
      + now apply Hsup.
      + apply Htail; [exact Hga|exact Hwhere]. }
  intros m Hin. exact (proj2 Hgood m Hin).
Qed.

End Installs.

(** C9, as stated, fails: nothing on disk and no environment; this node
    starts as a secondary and installs the empty Smap, where it is not. *)
Lemma fresh_secondary_installs_empty :
  exists w',
    bootstrap (ops := specOps) G1 cfg0 (mkEnv EmptyString false) None 0
      (mkWorld None (Some (mkBMD EmptyString 0)) 0 [] [] [] [false]) = Ret tt w' /\
    In (EvPutSmap newSmap) (w_trace w') /\
    w_smap w' = Some newSmap /\
    Pmap newSmap !! DaemonID G1 = None.
Proof.
  eexists. split; [vm_compute; reflexivity|].
  split; [right; right; left; reflexivity|].
  split; reflexivity.
Qed.

Lemma primary_installs_contain_self_witness :
  Forall (fun e => forall m, e = EvPutSmap m -> hasSelf G1 m)
    (w_trace (final (primaryStartup (ops := specOps) G1 cfg0 (Some local5) 0
                       startWorld))).
Proof.
  apply List.Forall_forall. intros e Hin m ->. revert m Hin.
  apply (proj2 (primary_installs_contain_self (ops := specOps) G1 cfg0
                  (mkEnv EmptyString false) (Some local5) 0 startWorld)).
  - intros m [].
  - intros l H. injection H as <-. vm_compute. reflexivity.
  - repeat constructor.
  - intros live l H Hin. injection H as <-.
    destruct Hin as [<-|[<-|[<-|[<-|[<-|[]]]]]]; vm_compute; reflexivity.
Defined.

(** The same start-up, run: three installs, and this node ends up a
    secondary of [G2] at version 9. *)
Lemma primary_startup_demoted :
  exists w',
    primaryStartup (ops := specOps) G1 cfg0 (Some local5) 0 startWorld
      = Ret tt w' /\
    w_smap w' = Some (addProxy newer9 G1) /\
    length (filter (fun e => isPut e = true) (w_trace w')) = 4%nat.
Proof.
  eexists. split; [vm_compute; reflexivity|]. split; reflexivity.
Qed.

(* ===================================================================== *)
(** ** End-to-end scenarios *)
(* ===================================================================== *)

(** Fresh cluster: [G1], with [AIS_IS_PRIMARY], ends as the primary of a
    cluster with a new uuid, at version 1, with the BMD of that uuid. *)
Lemma scenario_fresh_cluster :
  exists w',
    bootstrap (ops := specOps) G1 cfg0 (mkEnv EmptyString true) None 0 freshWorld
      = Ret tt w' /\
    option_map (fun m => (UUID m, Version m, ProxySI m)) (w_smap w')
      = Some ("cluster-uuid", 1, Some G1) /\
    w_bmd w' = Some (mkBMD "cluster-uuid" 1) /\
    hd_error (w_trace w') = Some EvStarted.
Proof.
  eexists. split; [vm_compute; reflexivity|].
  split; [reflexivity|]. split; reflexivity.
Qed.

(** Split-brain uuid at discovery: the process exits with CIE-10. *)
Lemma scenario_split_brain_uuid :
  exists w',
    bootstrap (ops := specOps) G1 cfg0 (mkEnv EmptyString false) (Some localUA) 0
      splitWorld = Exit (ExitCIE 10) w'.
Proof. eexists. vm_compute. reflexivity. Qed.

(* ===================================================================== *)
(** ** More on the reducer *)
(* ===================================================================== *)

Lemma done_reduceBMD svm st : done (reduceBMD svm st) = done st.
Proof.
  unfold reduceBMD. destruct (BucketMD svm) as [b|]; [|reflexivity].
  destruct (0 <? bmdVersion b); [|reflexivity].
  destruct (maxVerBMD st); [|reflexivity].
  destruct (str_neb (borigin st) EmptyString && str_neb (borigin st) (bmdUUID b));
    [reflexivity|].
  destruct (negb (slowp st) && (_ <? _)); reflexivity.
Qed.

Lemma done_reduceSmap svm st : done (reduceSmap svm st) = done st.
Proof.
  unfold reduceSmap. destruct (Smap svm) as [s|]; [|reflexivity].
  destruct (0 <? Version s); [|reflexivity].
  destruct (maxVerSmap st); [|reflexivity].
  destruct (str_neb (sorigin st) EmptyString && str_neb (sorigin st) (UUID s));
    [reflexivity|].
  destruct (negb (slowp st) && (_ <? _)); reflexivity.
Qed.

Lemma done_loop (results : list callResult) : forall st,
  done (reduceLoop results st) = done st && forallb answered results.
Proof.
  induction results as [|r rest IH]; intros st.
  - simpl. now rewrite andb_true_r.
  - cbn [reduceLoop forallb]. unfold answered at 1.
    destruct (err r); cbn [negb andb].
    { rewrite IH. cbn [done set_done]. now rewrite andb_false_r. }
    destruct (outjson r) as [svm|].
    2:{ rewrite IH. cbn [done set_done]. now rewrite andb_false_r. }
    destruct (voteBreak svm); cbn [negb andb].
    + cbn [done zeroOut]. now rewrite andb_false_r.
    + rewrite IH.
      change (done (retain (si r) svm (reduceSmap svm (reduceBMD svm st))))
        with (done (reduceSmap svm (reduceBMD svm st))).
      now rewrite done_reduceSmap, done_reduceBMD.
Qed.

(** X1. The [done] flag comes out true exactly when every reply was delivered
    without error, decoded, and none carried the vote flag together with an
    Smap. *)
Theorem done_exactly (results : list callResult)
    (bm : option (nodemap bucketMD)) (sm : option (nodemap smapX)) :
  done (bcastMaxVer results bm sm) = true <->
  forall res, In res results ->
    err res = false /\
    exists svm, outjson res = Decoded svm /\
                (VoteInProgress svm = true -> Smap svm = None).
Proof.
  unfold bcastMaxVer. rewrite done_loop. cbn [done reduce_init andb].
  rewrite forallb_forall. split.
  - intros H res Hin. specialize (H res Hin). unfold answered in H.
    apply andb_true_iff in H as [He Ho]. apply negb_true_iff in He.
    split; [exact He|].
    destruct (outjson res) as [svm|]; [|discriminate].
    exists svm. split; [reflexivity|]. intros Hv.
    unfold voteBreak in Ho. destruct (Smap svm); [|reflexivity].
    rewrite Hv in Ho. discriminate.
  - intros H res Hin. destruct (H res Hin) as (He & svm & Ho & Hv).
    unfold answered. rewrite He, Ho. cbn [negb andb]. unfold voteBreak.
    destruct (Smap svm) as [s|] eqn:Hs; [|reflexivity].
    destruct (VoteInProgress svm); [|reflexivity].
    specialize (Hv eq_refl). discriminate.
Qed.

(** *** The slow path is a latch *)

Lemma reduceLoop_stops pre post st :
  existsb aborting pre = true ->
  reduceLoop (pre ++ post) st = reduceLoop pre st.
Proof.
  intros H. destruct (first_aborting _ H) as (a & r & b & -> & Ha & Hr).
  destruct (aborting_inv _ Hr) as (He & svm & s & Ho & Hv & Hs).
  assert (Hb : voteBreak svm = true) by (unfold voteBreak; now rewrite Hs).
  rewrite <- app_assoc. cbn [app].
  rewrite !reduceLoop_clean_app by exact Ha.
  now rewrite !(reduceLoop_abort r svm _ _ He Ho Hb).
Qed.

(** X2. Once the replies so far have set [slowp], no further reply clears it. *)
Theorem slowp_latch (pre post : list callResult)
    (bm : option (nodemap bucketMD)) (sm : option (nodemap smapX)) :
  slowp (bcastMaxVer pre bm sm) = true ->
  slowp (bcastMaxVer (pre ++ post) bm sm) = true.
Proof.
  unfold bcastMaxVer. intros H.
  destruct (existsb aborting pre) eqn:Hab.
  - now rewrite reduceLoop_stops.
  - rewrite reduceLoop_clean_app by exact Hab. apply slowp_loop. now left.
Qed.

(** *** The maxima *)

Lemma maxVerSmap_reduceBMD svm st : maxVerSmap (reduceBMD svm st) = maxVerSmap st.
Proof. apply reduceBMD_smap_side. Qed.

Lemma maxVerBMD_reduceSmap svm st : maxVerBMD (reduceSmap svm st) = maxVerBMD st.
Proof.
  unfold reduceSmap. destruct (Smap svm) as [s|]; [|reflexivity].
  destruct (0 <? Version s); [|reflexivity].
  destruct (maxVerSmap st); [|reflexivity].
  destruct (str_neb (sorigin st) EmptyString && str_neb (sorigin st) (UUID s));
    [reflexivity|].
  destruct (negb (slowp st) && (_ <? _)); reflexivity.
Qed.

(** Where a maximum comes from, one reply on. *)
Lemma maxVerSmap_step svm st m :
  maxVerSmap (reduceSmap svm st) = Some m ->
  maxVerSmap st = Some m \/ (Smap svm = Some m /\ 0 < Version m).
Proof.
  unfold reduceSmap. destruct (Smap svm) as [s|]; [|auto].
  destruct (0 <? Version s) eqn:Hv; [|auto]. apply Z.ltb_lt in Hv.
  destruct (maxVerSmap st) as [mx|] eqn:Hmx.
  - destruct (str_neb (sorigin st) EmptyString && str_neb (sorigin st) (UUID s)).
    + cbn [maxVerSmap]. try rewrite Hmx. auto.
    + destruct (negb (slowp st) && (_ <? _)).
      * cbn [maxVerSmap]. intros H. injection H as <-. auto.
      * rewrite Hmx. auto.
  - cbn [maxVerSmap]. intros H. injection H as <-. auto.
Qed.

Lemma maxVerBMD_step svm st b :
  maxVerBMD (reduceBMD svm st) = Some b ->
  maxVerBMD st = Some b \/ (BucketMD svm = Some b /\ 0 < bmdVersion b).
Proof.
  unfold reduceBMD. destruct (BucketMD svm) as [s|]; [|auto].
  destruct (0 <? bmdVersion s) eqn:Hv; [|auto]. apply Z.ltb_lt in Hv.
  destruct (maxVerBMD st) as [mx|] eqn:Hmx.
  - destruct (str_neb (borigin st) EmptyString && str_neb (borigin st) (bmdUUID s)).
    + cbn [maxVerBMD]. try rewrite Hmx. auto.
    + destruct (negb (slowp st) && (_ <? _)).
      * cbn [maxVerBMD]. intros H. injection H as <-. auto.
      * rewrite Hmx. auto.
  - cbn [maxVerBMD]. intros H. injection H as <-. auto.
Qed.

Lemma maxima_loop (results : list callResult) : forall st,
  (forall m, maxVerSmap (reduceLoop results st) = Some m ->
             maxVerSmap st = Some m \/
             exists res, In res results /\ bringsSmap res m) /\
  (forall b, maxVerBMD (reduceLoop results st) = Some b ->
             maxVerBMD st = Some b \/
             exists res, In res results /\ bringsBMD res b).
Proof.
  induction results as [|r rest IH]; intros st; [split; auto|].
  assert (Hskip : forall st',
             maxVerSmap st' = maxVerSmap st -> maxVerBMD st' = maxVerBMD st ->
             (forall m, maxVerSmap (reduceLoop rest st') = Some m ->
                        maxVerSmap st = Some m \/
                        exists res, In res (r :: rest) /\ bringsSmap res m) /\
             (forall b, maxVerBMD (reduceLoop rest st') = Some b ->
                        maxVerBMD st = Some b \/
                        exists res, In res (r :: rest) /\ bringsBMD res b)).
  { intros st' Hs Hb. destruct (IH st') as [IHs IHb]. split.
    - intros m H. destruct (IHs m H) as [H1|(res & Hin & Hbr)].
      + left. now rewrite <- Hs.
      + right. exists res. split; [now right|exact Hbr].
    - intros b H. destruct (IHb b H) as [H1|(res & Hin & Hbr)].
      + left. now rewrite <- Hb.
      + right. exists res. split; [now right|exact Hbr]. }
  cbn [reduceLoop].
  destruct (err r) eqn:He; [now apply Hskip|].
  destruct (outjson r) as [svm|] eqn:Ho; [|now apply Hskip].
  destruct (voteBreak svm).
  { split; intros x H; discriminate. }
  destruct (IH (retain (si r) svm (reduceSmap svm (reduceBMD svm st))))
    as [IHs IHb].
  split.
  - intros m H. destruct (IHs m H) as [H1|(res & Hin & Hbr)].
    + change (maxVerSmap (retain (si r) svm (reduceSmap svm (reduceBMD svm st))))
        with (maxVerSmap (reduceSmap svm (reduceBMD svm st))) in H1.
      apply maxVerSmap_step in H1 as [H1|[H1 Hpos]].
      * left. now rewrite maxVerSmap_reduceBMD in H1.
      * right. exists r. split; [now left|].
        split; [exact He|]. split; [exact Hpos|]. eauto.
    + right. exists res. split; [now right|exact Hbr].
  - intros b H. destruct (IHb b H) as [H1|(res & Hin & Hbr)].
    + change (maxVerBMD (retain (si r) svm (reduceSmap svm (reduceBMD svm st))))
        with (maxVerBMD (reduceSmap svm (reduceBMD svm st))) in H1.
      rewrite maxVerBMD_reduceSmap in H1.
      apply maxVerBMD_step in H1 as [H1|[H1 Hpos]].
      * now left.
      * right. exists r. split; [now left|].
        split; [exact He|]. split; [exact Hpos|]. eauto.
    + right. exists res. split; [now right|exact Hbr].
Qed.

(** X3. Each maximum that the reducer returns is the Smap (the BMD) of one of
    the replies, delivered and decoded, and of a positive version. *)
Theorem maxima_are_replies (results : list callResult)
    (bm : option (nodemap bucketMD)) (sm : option (nodemap smapX)) :
  (forall m, maxVerSmap (bcastMaxVer results bm sm) = Some m ->
             exists res, In res results /\ bringsSmap res m) /\
  (forall b, maxVerBMD (bcastMaxVer results bm sm) = Some b ->
             exists res, In res results /\ bringsBMD res b).
Proof.
  unfold bcastMaxVer.
  destruct (maxima_loop results (reduce_init bm sm)) as [Hs Hb]. split.
  - intros m H. destruct (Hs m H) as [H1|H1]; [discriminate|exact H1].
  - intros b H. destruct (Hb b H) as [H1|H1]; [discriminate|exact H1].
Qed.

(** One reply on the fast path: the Smap maximum does not go down, and it
    covers the Smap of the reply. *)
Lemma fast_reduceSmap svm st :
  slowp (reduceSmap svm st) = false ->
  (forall m0, maxVerSmap st = Some m0 ->
              exists m, maxVerSmap (reduceSmap svm st) = Some m /\
                        Version m0 <= Version m) /\
  (forall s, Smap svm = Some s -> 0 < Version s ->
             exists m, maxVerSmap (reduceSmap svm st) = Some m /\
                       Version s <= Version m).
Proof.
  unfold reduceSmap. destruct (Smap svm) as [s|].
  2:{ intros _. split; [|discriminate]. intros m0 H. exists m0. split; [exact H|lia]. }
  destruct (0 <? Version s) eqn:Hv.
  2:{ apply Z.ltb_ge in Hv. intros _. split.
      - intros m0 H. exists m0. split; [exact H|lia].
      - intros s' H Hpos. injection H as <-. lia. }
  destruct (maxVerSmap st) as [mx|] eqn:Hmx.
  - destruct (str_neb (sorigin st) EmptyString && str_neb (sorigin st) (UUID s)).
    { cbn [slowp]. discriminate. }
    destruct (negb (slowp st)) eqn:Hsl; cbn [andb].
    + destruct (Version mx <? Version s) eqn:Hlt.
      * apply Z.ltb_lt in Hlt. intros _. cbn [maxVerSmap]. split.
        -- intros m0 H. injection H as <-. exists s. split; [reflexivity|lia].
        -- intros s' H _. injection H as <-. exists s. split; [reflexivity|lia].
      * apply Z.ltb_ge in Hlt. intros _. rewrite Hmx. split.
        -- intros m0 H. injection H as <-. exists mx. split; [reflexivity|lia].
        -- intros s' H _. injection H as <-. exists mx. split; [reflexivity|lia].
    + apply negb_false_iff in Hsl. intros H. congruence.
  - intros _. cbn [maxVerSmap]. split; [discriminate|].
    intros s' H _. injection H as <-. exists s. split; [reflexivity|lia].
Qed.

Lemma fast_reduceBMD svm st :
  slowp (reduceBMD svm st) = false ->
  (forall m0, maxVerBMD st = Some m0 ->
              exists m, maxVerBMD (reduceBMD svm st) = Some m /\
                        bmdVersion m0 <= bmdVersion m) /\
  (forall s, BucketMD svm = Some s -> 0 < bmdVersion s ->
             exists m, maxVerBMD (reduceBMD svm st) = Some m /\
                       bmdVersion s <= bmdVersion m).
Proof.
  unfold reduceBMD. destruct (BucketMD svm) as [s|].
  2:{ intros _. split; [|discriminate]. intros m0 H. exists m0. split; [exact H|lia]. }
  destruct (0 <? bmdVersion s) eqn:Hv.
  2:{ apply Z.ltb_ge in Hv. intros _. split.
      - intros m0 H. exists m0. split; [exact H|lia].
      - intros s' H Hpos. injection H as <-. lia. }
  destruct (maxVerBMD st) as [mx|] eqn:Hmx.
  - destruct (str_neb (borigin st) EmptyString && str_neb (borigin st) (bmdUUID s)).
    { cbn [slowp]. discriminate. }
    destruct (negb (slowp st)) eqn:Hsl; cbn [andb].
    + destruct (bmdVersion mx <? bmdVersion s) eqn:Hlt.
      * apply Z.ltb_lt in Hlt. intros _. cbn [maxVerBMD]. split.
        -- intros m0 H. injection H as <-. exists s. split; [reflexivity|lia].
        -- intros s' H _. injection H as <-. exists s. split; [reflexivity|lia].
      * apply Z.ltb_ge in Hlt. intros _. rewrite Hmx. split.
        -- intros m0 H. injection H as <-. exists mx. split; [reflexivity|lia].
        -- intros s' H _. injection H as <-. exists mx. split; [reflexivity|lia].
    + apply negb_false_iff in Hsl. intros H. congruence.
  - intros _. cbn [maxVerBMD]. split; [discriminate|].
    intros s' H _. injection H as <-. exists s. split; [reflexivity|lia].
Qed.

Lemma slowp_false_start results st :
  slowp (reduceLoop results st) = false -> slowp st = false.
Proof.
  intros H. destruct (slowp st) eqn:Hs; [|reflexivity].
  assert (Ht : slowp (reduceLoop results st) = true)
    by (apply slowp_loop; now left).
  congruence.
Qed.

Lemma slowp_false_reduceSmap svm st :
  slowp (reduceSmap svm st) = false -> slowp st = false.
Proof.
  intros H. destruct (slowp st) eqn:Hs; [|reflexivity].
  assert (Ht : slowp (reduceSmap svm st) = true)
    by (apply slowp_reduceSmap; now left).
  congruence.
Qed.

Lemma fast_loop (results : list callResult) : forall st,
  slowp (reduceLoop results st) = false ->
  existsb aborting results = false ->
  ((forall m0, maxVerSmap st = Some m0 ->
               exists m, maxVerSmap (reduceLoop results st) = Some m /\
                         Version m0 <= Version m) /\
   (forall res s, In res results -> bringsSmap res s ->
                  exists m, maxVerSmap (reduceLoop results st) = Some m /\
                            Version s <= Version m)) /\
  ((forall b0, maxVerBMD st = Some b0 ->
               exists b, maxVerBMD (reduceLoop results st) = Some b /\
                         bmdVersion b0 <= bmdVersion b) /\
   (forall res s, In res results -> bringsBMD res s ->
                  exists b, maxVerBMD (reduceLoop results st) = Some b /\
                            bmdVersion s <= bmdVersion b)).
Proof.
  induction results as [|r rest IH]; intros st Hslow Hclean.
  - cbn [reduceLoop]. split; split.
    + intros m0 H. exists m0. split; [exact H|lia].
    + intros res s [].
    + intros b0 H. exists b0. split; [exact H|lia].
    + intros res s [].
  - cbn [existsb] in Hclean. apply orb_false_iff in Hclean as [Hr Hclean].
    unfold aborting in Hr. cbn [reduceLoop] in *.
    destruct (err r) eqn:He; cbn [negb andb] in Hr.
    { destruct (IH _ Hslow Hclean) as [[Hs1 Hs2] [Hb1 Hb2]]. split; split.
      - exact Hs1.
      - intros res s [<-|Hin] Hbr; [|now apply (Hs2 res)].
        destruct Hbr as (He' & _). congruence.
      - exact Hb1.
      - intros res s [<-|Hin] Hbr; [|now apply (Hb2 res)].
        destruct Hbr as (He' & _). congruence. }
    destruct (outjson r) as [svm|] eqn:Ho.
    2:{ destruct (IH _ Hslow Hclean) as [[Hs1 Hs2] [Hb1 Hb2]]. split; split.
        - exact Hs1.
        - intros res s [<-|Hin] Hbr; [|now apply (Hs2 res)].
          destruct Hbr as (_ & _ & svm & Ho' & _). congruence.
        - exact Hb1.
        - intros res s [<-|Hin] Hbr; [|now apply (Hb2 res)].
          destruct Hbr as (_ & _ & svm & Ho' & _). congruence. }
    rewrite Hr in *.
    set (st1 := reduceBMD svm st) in *.
    set (st2 := reduceSmap svm st1) in *.
    set (st3 := retain (si r) svm st2) in *.
    destruct (IH st3 Hslow Hclean) as [[Hs1 Hs2] [Hb1 Hb2]].
    assert (H3 : slowp st2 = false) by (apply (slowp_false_start rest st3 Hslow)).
    assert (H1 : slowp st1 = false) by (apply (slowp_false_reduceSmap svm st1 H3)).
    destruct (fast_reduceSmap svm st1 H3) as [Fs1 Fs2].
    destruct (fast_reduceBMD svm st H1) as [Fb1 Fb2].
    assert (Hm3 : maxVerSmap st3 = maxVerSmap st2) by reflexivity.
    assert (Hb3 : maxVerBMD st3 = maxVerBMD st1).
    { change (maxVerBMD st3) with (maxVerBMD st2). apply maxVerBMD_reduceSmap. }
    split; split.
    + intros m0 H. rewrite <- (maxVerSmap_reduceBMD svm st) in H.
      destruct (Fs1 m0 H) as (m1 & Hm1 & Hle1).
      destruct (Hs1 m1) as (m & Hm & Hle); [now rewrite Hm3|].
      exists m. split; [exact Hm|lia].
    + intros res s [<-|Hin] Hbr; [|now apply (Hs2 res)].
      destruct Hbr as (_ & Hpos & svm' & Ho' & Hsm).
      rewrite Ho in Ho'. injection Ho' as <-.
      destruct (Fs2 s Hsm Hpos) as (m1 & Hm1 & Hle1).
      destruct (Hs1 m1) as (m & Hm & Hle); [now rewrite Hm3|].
      exists m. split; [exact Hm|lia].
    + intros b0 H.
      destruct (Fb1 b0 H) as (b1 & Hb1' & Hle1).
      destruct (Hb1 b1) as (b & Hb & Hle); [now rewrite Hb3|].
      exists b. split; [exact Hb|lia].
    + intros res s [<-|Hin] Hbr; [|now apply (Hb2 res)].
      destruct Hbr as (_ & Hpos & svm' & Ho' & Hsm).
      rewrite Ho in Ho'. injection Ho' as <-.
      destruct (Fb2 s Hsm Hpos) as (b1 & Hb1' & Hle1).
      destruct (Hb1 b1) as (b & Hb & Hle); [now rewrite Hb3|].
      exists b. split; [exact Hb|lia].
Qed.

(** X4. On the fast path, with no break, each maximum is there as soon as one
    reply brings an instance of a positive version, and no such instance
    has a greater version. *)
Theorem fast_path_maxima (results : list callResult)
    (bm : option (nodemap bucketMD)) (sm : option (nodemap smapX)) :
  slowp (bcastMaxVer results bm sm) = false ->
  existsb aborting results = false ->
  (forall res s, In res results -> bringsSmap res s ->
     exists m, maxVerSmap (bcastMaxVer results bm sm) = Some m /\
               Version s <= Version m) /\
  (forall res b, In res results -> bringsBMD res b ->
     exists mx, maxVerBMD (bcastMaxVer results bm sm) = Some mx /\
                bmdVersion b <= bmdVersion mx).
Proof.
  intros Hslow Hclean. unfold bcastMaxVer in *.
  destruct (fast_loop results _ Hslow Hclean) as [[_ Hs] [_ Hb]].
  split; assumption.
Qed.

Lemma fast_path_maxima_witness :
  exists m,
    maxVerSmap (bcastMaxVer [reply G2 false (Some local5) None;
                             reply T1 false (Some newer9) None;
                             reply T2 false (Some older4) None] None None)
      = Some m /\
    Version older4 <= Version m.
Proof.
  apply (proj1 (fast_path_maxima
                  [reply G2 false (Some local5) None;
                   reply T1 false (Some newer9) None;
                   reply T2 false (Some older4) None] None None
                  eq_refl eq_refl)
           (reply T2 false (Some older4) None) older4).
  - right. right. left. reflexivity.
  - split; [reflexivity|]. split; [reflexivity|]. eexists. split; reflexivity.
Defined.

Lemma slowp_latch_witness :
  slowp (bcastMaxVer ([reply G1 false (Some gatewayUB) None;
                       reply T1 false (Some targetUA) None] ++
                      [reply T2 false (Some gatewayUB) None]) None None) = true.
Proof. apply slowp_latch. vm_compute. reflexivity. Defined.

(** *** The per-node maps *)

Lemma nm_insert_in {V} (k : Snode) (v : V) (m : nodemap V) : In (k, v) (nm_insert k v m).
Proof.
  induction m as [|[k' v'] m IH]; cbn [nm_insert]; [now left|].
  destruct (decide (k = k')); [now left|now right].
Qed.

Lemma nm_insert_inv {V} (k : Snode) (v : V) (m : nodemap V) k0 v0 :
  In (k0, v0) (nm_insert k v m) -> (k0 = k /\ v0 = v) \/ In (k0, v0) m.
Proof.
  induction m as [|[k' v'] m IH]; cbn [nm_insert].
  - intros [H|[]]. injection H as <- <-. auto.
  - destruct (decide (k = k')).
    + intros [H|H]; [injection H as <- <-; auto|]. right. now right.
    + intros [H|H]; [right; now left|].
      destruct (IH H) as [H1|H1]; [auto|]. right. now right.
Qed.

Lemma nm_insert_key {V} (k : Snode) (v : V) (m : nodemap V) k0 v0 :
  In (k0, v0) m -> exists v1, In (k0, v1) (nm_insert k v m).
Proof.
  induction m as [|[k' v'] m IH]; cbn [nm_insert]; [intros []|].
  destruct (decide (k = k')) as [->|Hne].
  - intros [H|H].
    + injection H as <- <-. exists v. now left.
    + exists v0. now right.
  - intros [H|H].
    + exists v0. now left.
    + destruct (IH H) as [v1 H1]. exists v1. now right.
Qed.

Lemma maps_reduceBMD svm st :
  bmds (reduceBMD svm st) = bmds st /\ smaps (reduceBMD svm st) = smaps st.
Proof.
  unfold reduceBMD. destruct (BucketMD svm) as [b|]; [|auto].
  destruct (0 <? bmdVersion b); [|auto].
  destruct (maxVerBMD st); [|auto].
  destruct (str_neb (borigin st) EmptyString && str_neb (borigin st) (bmdUUID b));
    [auto|].
  destruct (negb (slowp st) && (_ <? _)); auto.
Qed.

Lemma maps_reduceSmap svm st :
  bmds (reduceSmap svm st) = bmds st /\ smaps (reduceSmap svm st) = smaps st.
Proof.
  unfold reduceSmap. destruct (Smap svm) as [s|]; [|auto].
  destruct (0 <? Version s); [|auto].
  destruct (maxVerSmap st); [|auto].
  destruct (str_neb (sorigin st) EmptyString && str_neb (sorigin st) (UUID s));
    [auto|].
  destruct (negb (slowp st) && (_ <? _)); auto.
Qed.

(** The Smap map, one clean reply on. *)
Lemma smaps_stepClean r svm st :
  smaps (stepClean r svm st) =
  match smaps st, Smap svm with
  | Some m, Some s => if 0 <? Version s then Some (nm_insert (si r) s m) else Some m
  | o, _ => o
  end.
Proof.
  unfold stepClean, retain. cbn [smaps].
  destruct (maps_reduceSmap svm (reduceBMD svm st)) as [_ ->].
  destruct (maps_reduceBMD svm st) as [_ ->]. reflexivity.
Qed.

Lemma bmds_stepClean r svm st :
  bmds (stepClean r svm st) =
  match bmds st, BucketMD svm with
  | Some m, Some b => if 0 <? bmdVersion b then Some (nm_insert (si r) b m) else Some m
  | o, _ => o
  end.
Proof.
  unfold stepClean, retain. cbn [bmds].
  destruct (maps_reduceSmap svm (reduceBMD svm st)) as [-> _].
  destruct (maps_reduceBMD svm st) as [-> _]. reflexivity.
Qed.

(** The loop, by cases on its first reply. *)
Lemma reduceLoop_cons r rest st :
  (aborting r = true /\ exists svm, outjson r = Decoded svm /\ err r = false /\
     reduceLoop (r :: rest) st = zeroOut (reduceBMD svm st)) \/
  (answered r = false /\ aborting r = false /\
     reduceLoop (r :: rest) st = reduceLoop rest (set_done st false)) \/
  (answered r = true /\ exists svm, outjson r = Decoded svm /\ err r = false /\
     reduceLoop (r :: rest) st = reduceLoop rest (stepClean r svm st)).
Proof.
  cbn [reduceLoop]. unfold aborting, answered, stepClean.
  destruct (err r); cbn [negb andb]; [right; left; auto|].
  destruct (outjson r) as [svm|]; [|right; left; auto].
  destruct (voteBreak svm); cbn [negb].
  - left. split; [reflexivity|]. exists svm. auto.
  - right. right. split; [reflexivity|]. exists svm. auto.
Qed.

Lemma smaps_loop (results : list callResult) : forall st,
  match smaps st with
  | None => smaps (reduceLoop results st) = None
  | Some l0 =>
      exists l, smaps (reduceLoop results st) = Some l /\
        (forall n s, In (n, s) l ->
           In (n, s) l0 \/
           exists res, In res results /\ si res = n /\ bringsSmap res s) /\
        (existsb aborting results = false ->
           (forall n s, In (n, s) l0 -> exists s', In (n, s') l) /\
           (forall res s, In res results -> bringsSmap res s ->
                          exists s', In (si res, s') l))
  end.
Proof.
  induction results as [|r rest IH]; intros st.
  - cbn [reduceLoop]. destruct (smaps st) as [l0|]; [|reflexivity].
    exists l0. split; [reflexivity|]. split; [auto|].
    intros _. split; [eauto|]. intros res s [].
  - destruct (reduceLoop_cons r rest st)
      as [(Hab & svm & Ho & He & ->)|[(Hans & Hab & ->)|(Hans & svm & Ho & He & ->)]].
    + (* break *)
      cbn [smaps zeroOut]. destruct (maps_reduceBMD svm st) as [_ ->].
      destruct (smaps st) as [l0|]; [|reflexivity].
      exists l0. split; [reflexivity|]. split; [auto|].
      cbn [existsb]. rewrite Hab. discriminate.
    + (* not delivered or not decoded *)
      specialize (IH (set_done st false)). cbn [smaps set_done] in IH.
      destruct (smaps st) as [l0|]; [|exact IH].
      destruct IH as (l & Hl & Hfrom & Hall). exists l. split; [exact Hl|]. split.
      * intros n s Hin. destruct (Hfrom n s Hin) as [H|(res & Hr & Hsi & Hb)]; [auto|].
        right. exists res. split; [now right|auto].
      * cbn [existsb]. rewrite Hab. cbn [orb]. intros Hcl.
        destruct (Hall Hcl) as [Hk Hn]. split; [exact Hk|].
        intros res s [<-|Hin] Hb; [|now apply (Hn res s)].
        exfalso. destruct Hb as (He & _ & svm & Ho & _).
        unfold answered in Hans. rewrite He, Ho in Hans.
        unfold aborting in Hab. rewrite He, Ho in Hab. cbn [negb andb] in *.
        rewrite Hab in Hans. discriminate.
    + (* a clean reply *)
      assert (Hab : aborting r = false).
      { unfold answered in Hans. unfold aborting. rewrite He, Ho in *.
        cbn [negb andb] in *. now apply negb_true_iff in Hans. }
      specialize (IH (stepClean r svm st)). rewrite smaps_stepClean in IH.
      destruct (smaps st) as [l0|]; [|exact IH].
      assert (Hgen : forall l1,
                 (forall n s, In (n, s) l1 ->
                    In (n, s) l0 \/ (n = si r /\ bringsSmap r s)) ->
                 (forall n s, In (n, s) l0 -> exists s', In (n, s') l1) ->
                 (forall s, bringsSmap r s -> exists s', In (si r, s') l1) ->
                 (exists l, smaps (reduceLoop rest (stepClean r svm st)) = Some l /\
                    (forall n s, In (n, s) l ->
                       In (n, s) l1 \/
                       exists res, In res rest /\ si res = n /\ bringsSmap res s) /\
                    (existsb aborting rest = false ->
                       (forall n s, In (n, s) l1 -> exists s', In (n, s') l) /\
                       (forall res s, In res rest -> bringsSmap res s ->
                                      exists s', In (si res, s') l))) ->
                 exists l, smaps (reduceLoop rest (stepClean r svm st)) = Some l /\
                   (forall n s, In (n, s) l ->
                      In (n, s) l0 \/
                      exists res, In res (r :: rest) /\ si res = n /\
                                  bringsSmap res s) /\
                   (existsb aborting (r :: rest) = false ->
                      (forall n s, In (n, s) l0 -> exists s', In (n, s') l) /\
                      (forall res s, In res (r :: rest) -> bringsSmap res s ->
                                     exists s', In (si res, s') l))).
      { intros l1 Hfrom1 Hkeep1 Hnew1 (l & Hl & Hfrom & Hall).
        exists l. split; [exact Hl|]. split.
        - intros n s Hin. destruct (Hfrom n s Hin) as [H|(res & Hr & Hsi & Hb)].
          + destruct (Hfrom1 n s H) as [H1|[-> Hb]]; [auto|].
            right. exists r. split; [now left|auto].
          + right. exists res. split; [now right|auto].
        - cbn [existsb]. rewrite Hab. cbn [orb]. intros Hcl.
          destruct (Hall Hcl) as [Hk Hn]. split.
          + intros n s Hin. destruct (Hkeep1 n s Hin) as [s1 H1]. eapply Hk. exact H1.
          + intros res s [<-|Hin] Hb; [|now apply (Hn res s)].
            destruct (Hnew1 s Hb) as [s1 H1]. eapply Hk. exact H1. }
      destruct (Smap svm) as [s0|] eqn:Hs0.
      * destruct (0 <? Version s0) eqn:Hv.
        -- apply Z.ltb_lt in Hv. apply (Hgen (nm_insert (si r) s0 l0)).
           ++ intros n s Hin. apply nm_insert_inv in Hin as [[-> ->]|Hin]; [|auto].
              right. split; [reflexivity|].
              split; [exact He|]. split; [exact Hv|]. eauto.
           ++ intros n s Hin. eapply nm_insert_key. exact Hin.
           ++ intros s _. exists s0. apply nm_insert_in.
           ++ exact IH.
        -- apply Z.ltb_ge in Hv. apply (Hgen l0); [auto|eauto| |exact IH].
           intros s (_ & Hpos & svm' & Ho' & Hs').
           rewrite Ho in Ho'. injection Ho' as <-. rewrite Hs0 in Hs'.
           injection Hs' as <-. lia.
      * apply (Hgen l0); [auto|eauto| |exact IH].
        intros s (_ & _ & svm' & Ho' & Hs').
        rewrite Ho in Ho'. injection Ho' as <-. congruence.
Qed.

Lemma bmds_nil_loop (results : list callResult) : forall st,
  bmds st = None -> bmds (reduceLoop results st) = None.
Proof.
  induction results as [|r rest IH]; intros st Hst; [exact Hst|].
  destruct (reduceLoop_cons r rest st)
    as [(_ & svm & _ & _ & ->)|[(_ & _ & ->)|(_ & svm & _ & _ & ->)]].
  - cbn [bmds zeroOut]. destruct (maps_reduceBMD svm st) as [-> _]. exact Hst.
  - apply IH. exact Hst.
  - apply IH. rewrite bmds_stepClean, Hst. reflexivity.
Qed.

(** X5. The maps of the caller. A nil map stays nil. A map that is passed is
    emptied first: when the reducer returns, each of its entries is the
    Smap of a positive version that a reply of this broadcast brought,
    under the node of that reply; and when the reduction did not break off,
    every node whose reply brought such an Smap has an entry. *)
Theorem retained_smaps (results : list callResult)
    (bm : option (nodemap bucketMD)) (sm : option (nodemap smapX)) :
  bmds (bcastMaxVer results None sm) = None /\
  smaps (bcastMaxVer results bm None) = None /\
  (forall l0, sm = Some l0 ->
     exists l, smaps (bcastMaxVer results bm sm) = Some l /\
       (forall n s, In (n, s) l ->
          exists res, In res results /\ si res = n /\ bringsSmap res s) /\
       (existsb aborting results = false ->
        forall res s, In res results -> bringsSmap res s ->
                      exists s', In (si res, s') l)).
Proof.
  unfold bcastMaxVer. split; [now apply bmds_nil_loop|]. split.
  - pose proof (smaps_loop results (reduce_init bm None)) as H. exact H.
  - intros l0 ->. pose proof (smaps_loop results (reduce_init bm (Some l0))) as H.
    cbn [smaps reduce_init option_map] in H.
    destruct H as (l & Hl & Hfrom & Hall). exists l. split; [exact Hl|]. split.
    + intros n s Hin. destruct (Hfrom n s Hin) as [[]|H]. exact H.
    + intros Hcl. exact (proj2 (Hall Hcl)).
Qed.

Lemma retained_smaps_witness :
  exists l,
    smaps (bcastMaxVer [reply G2 false (Some newer9) None;
                        reply T1 false (Some newer9) None] None
             (Some [(T2, older4)])) = Some l /\
    forall n s, In (n, s) l -> s = newer9.
Proof.
  destruct (retained_smaps [reply G2 false (Some newer9) None;
                            reply T1 false (Some newer9) None] None
              (Some [(T2, older4)])) as (_ & _ & H).
  destruct (H [(T2, older4)] eq_refl) as (l & Hl & Hfrom & _).
  exists l. split; [exact Hl|].
  intros n s Hin. destruct (Hfrom n s Hin) as (res & Hres & _ & _ & _ & svm & Ho & Hs).
  destruct Hres as [<-|[<-|[]]]; injection Ho as <-; now injection Hs as <-.
Defined.

(* ===================================================================== *)
(** ** More on discovery *)
(* ===================================================================== *)

Lemma bmds_some_loop (results : list callResult) : forall st l0,
  bmds st = Some l0 -> exists l, bmds (reduceLoop results st) = Some l.
Proof.
  induction results as [|r rest IH]; intros st l0 Hst; [eauto|].
  destruct (reduceLoop_cons r rest st)
    as [(_ & svm & _ & _ & ->)|[(_ & _ & ->)|(_ & svm & _ & _ & ->)]].
  - cbn [bmds zeroOut]. destruct (maps_reduceBMD svm st) as [-> _]. eauto.
  - apply (IH _ l0). exact Hst.
  - pose proof (bmds_stepClean r svm st) as H. rewrite Hst in H.
    destruct (BucketMD svm) as [b|]; [destruct (0 <? bmdVersion b)|];
      eapply IH; exact H.
Qed.

Lemma smaps_some_loop (results : list callResult) st l0 :
  smaps st = Some l0 -> exists l, smaps (reduceLoop results st) = Some l.
Proof.
  intros Hst. pose proof (smaps_loop results st) as H. rewrite Hst in H.
  destruct H as (l & Hl & _). eauto.
Qed.

(** A broadcast into maps that are there starts from empty maps and leaves
    maps that are there. *)
Lemma bcastMaxVer_maps results x y :
  bcastMaxVer results (Some x) (Some y) = bcastMaxVer results (Some []) (Some []) /\
  exists x' y',
    bmds (bcastMaxVer results (Some x) (Some y)) = Some x' /\
    smaps (bcastMaxVer results (Some x) (Some y)) = Some y'.
Proof.
  split; [reflexivity|]. unfold bcastMaxVer.
  destruct (bmds_some_loop results (reduce_init (Some x) (Some y)) [] eq_refl)
    as [x' Hx].
  destruct (smaps_some_loop results (reduce_init (Some x) (Some y)) [] eq_refl)
    as [y' Hy].
  eauto.
Qed.

Lemma probes_cons (e : event) (tr : list event) :
  probes (e :: tr) = ((if isBcast e then 1 else 0) + probes tr)%nat.
Proof.
  change (e :: tr) with ([e] ++ tr). rewrite probes_app. f_equal.
  destruct e; reflexivity.
Qed.

Section Rounds.

Variable cfg : config.
Variable bcastSmap : smapX.

Lemma bcastLoop_goes (pre : list round) : forall x y w,
  Forall (goesOn cfg) pre ->
  exists x' y' w1,
    (forall rest,
       bcastLoop cfg bcastSmap (pre ++ rest) (Some x) (Some y) w =
       bcastLoop cfg bcastSmap rest (Some x') (Some y') w1) /\
    w_smap w1 = w_smap w /\ w_bmd w1 = w_bmd w /\
    w_ticks w1 = w_ticks w /\ w_joins w1 = w_joins w /\
    w_rounds w1 = w_rounds w /\
    probes (w_trace w1) = (probes (w_trace w) + length pre)%nat.
Proof.
  induction pre as [|rd pre IH]; intros x y w Hall.
  - exists x, y, w. repeat split; try reflexivity. cbn [length]. lia.
  - inversion Hall as [|? ? [Hd Ht] Hrest]; subst.
    destruct (bcastMaxVer_maps (r_results rd) x y) as [Heq (x1 & y1 & Hx1 & Hy1)].
    set (w1 := add_event (EvSleep (CplaneOperation cfg))
                 (add_event (EvBcast bcastSmap) (set_clock (r_elapsed rd) w))).
    destruct (IH x1 y1 w1 Hrest)
      as (x' & y' & w2 & Hcont & H1 & H2 & H3 & H4 & H5 & H6).
    exists x', y', w2. split.
    + intros rest. cbn [app bcastLoop]. rewrite Heq, Hd.
      apply Z.ltb_ge in Ht. rewrite Ht. cbn [orb].
      rewrite <- Heq, Hx1, Hy1. apply Hcont.
    + repeat split; try assumption.
      rewrite H6. unfold w1. cbn [w_trace add_event set_clock length].
      rewrite !probes_cons. cbn [isBcast]. lia.
Qed.

(** X6. The loop of [uncoverMeta] goes on while the rounds are not done and the
    deadline is not passed, and ends at the first round that is done or
    late. What it returns is the reduction of that last round alone, with
    nothing left of the rounds before; one broadcast was sent per round,
    and the owners are as they were. *)
Theorem broadcasts_until_done (w : world) (pre post : list round) (rd : round) :
  w_rounds w = pre ++ rd :: post ->
  Forall (goesOn cfg) pre ->
  endsAt cfg rd ->
  exists w',
    broadcasts cfg bcastSmap w
      = Ret (bcastMaxVer (r_results rd) (Some []) (Some [])) w' /\
    w_rounds w' = post /\ w_clock w' = r_elapsed rd /\
    w_smap w' = w_smap w /\ w_bmd w' = w_bmd w /\
    probes (w_trace w') = (probes (w_trace w) + length pre + 1)%nat.
Proof.
  intros Hr Hpre Hend. unfold broadcasts. rewrite Hr.
  destruct (bcastLoop_goes pre [] [] (set_rounds [] w) Hpre)
    as (x' & y' & w1 & Hcont & H1 & H2 & _ & _ & _ & H6).
  rewrite Hcont. cbn [bcastLoop].
  destruct (bcastMaxVer_maps (r_results rd) x' y') as [Heq _]. rewrite Heq.
  assert (Hc : done (bcastMaxVer (r_results rd) (Some []) (Some [])) ||
               (Startup cfg <? r_elapsed rd) = true).
  { destruct Hend as [->|Hl]; [reflexivity|].
    apply Z.ltb_lt in Hl. rewrite Hl. apply orb_true_r. }
  rewrite Hc. eexists. split; [reflexivity|].
  split; [reflexivity|]. split; [reflexivity|].
  split; [exact H1|]. split; [exact H2|].
  cbn [w_trace set_rounds add_event set_clock].
  rewrite probes_cons, H6. cbn [isBcast w_trace set_rounds length]. lia.
Qed.

(** What the loop returns is the reduction of one of the rounds. *)
Lemma bcastLoop_result (rounds : list round) : forall x y w r rest w',
  bcastLoop cfg bcastSmap rounds (Some x) (Some y) w = Ret (r, rest) w' ->
  exists rd, In rd rounds /\
             r = bcastMaxVer (r_results rd) (Some []) (Some []).
Proof.
  induction rounds as [|rd rounds IH]; intros x y w r rest w' H; [discriminate|].
  cbn [bcastLoop] in H.
  destruct (bcastMaxVer_maps (r_results rd) x y) as [Heq (x1 & y1 & Hx1 & Hy1)].
  destruct (done (bcastMaxVer (r_results rd) (Some x) (Some y)) ||
            (Startup cfg <? r_elapsed rd)).
  - injection H as <- _ _. exists rd. split; [now left|exact Heq].
  - rewrite Hx1, Hy1 in H. destruct (IH _ _ _ _ _ _ H) as (rd' & Hin & Hrd).
    exists rd'. split; [now right|exact Hrd].
Qed.

End Rounds.

(** *** The slow path, whatever the order of the [range] loops *)

Lemma agreeUUID_none_inv (l : nodemap smapX) : forall su,
  agreeUUID l su = None ->
  (su <> EmptyString /\
   exists n s, In (n, s) l /\ IsTarget n = true /\
               UUID s <> EmptyString /\ UUID s <> su) \/
  targetsDisagree l.
Proof.
  induction l as [|[n0 s0] l IH]; intros su H; [discriminate|].
  assert (Hlift : forall su',
             agreeUUID l su' = None -> su' = su ->
             (su <> EmptyString /\
              exists n s, In (n, s) ((n0, s0) :: l) /\ IsTarget n = true /\
                          UUID s <> EmptyString /\ UUID s <> su) \/
             targetsDisagree ((n0, s0) :: l)).
  { intros su' Hn ->. destruct (IH su Hn) as [(Hsu & n & s & Hin & Ht)|Hd].
    - left. split; [exact Hsu|]. exists n, s. split; [now right|exact Ht].
    - right. destruct Hd as (n1 & s1 & n2 & s2 & H1 & H2 & Hrest).
      exists n1, s1, n2, s2. split; [now right|]. split; [now right|exact Hrest]. }
  cbn [agreeUUID] in H.
  destruct (IsTarget n0) eqn:Ht0; cbn [negb] in H; [|now apply (Hlift su)].
  destruct (str_eqb su EmptyString) eqn:Hsu.
  - apply str_eqb_true in Hsu. subst su.
    destruct (IH _ H) as [(Hne & n & s & Hin & Ht & Hu & Hd)|Hd].
    + right. exists n0, s0, n, s. split; [now left|]. split; [now right|].
      repeat split; auto.
    + right. destruct Hd as (n1 & s1 & n2 & s2 & H1 & H2 & Hrest).
      exists n1, s1, n2, s2. split; [now right|]. split; [now right|exact Hrest].
  - assert (Hsu' : su <> EmptyString).
    { intros ->. discriminate. }
    destruct (str_neb su (UUID s0) && str_neb (UUID s0) EmptyString) eqn:Hc.
    + apply andb_true_iff in Hc as [H1 H2]. apply str_neb_true in H1, H2.
      left. split; [exact Hsu'|]. exists n0, s0. split; [now left|]. auto.
    + now apply (Hlift su).
Qed.

Lemma agreeUUID_some (l : nodemap smapX) : forall su u,
  agreeUUID l su = Some u ->
  (su <> EmptyString -> u = su) /\
  (forall n s, In (n, s) l -> IsTarget n = true -> UUID s <> EmptyString ->
               UUID s = u) /\
  (u <> EmptyString ->
   u = su \/ exists n s, In (n, s) l /\ IsTarget n = true /\ UUID s = u).
Proof.
  induction l as [|[n0 s0] l IH]; intros su u H.
  - injection H as <-. split; [auto|]. split; [intros n s []|auto].
  - cbn [agreeUUID] in H.
    destruct (IsTarget n0) eqn:Ht0; cbn [negb] in H.
    2:{ destruct (IH su u H) as (H1 & H2 & H3). split; [exact H1|]. split.
        - intros n s [Heq|Hin] Ht Hu; [injection Heq as -> ->; congruence|].
          now apply (H2 n s).
        - intros Hu. destruct (H3 Hu) as [->|(n & s & Hin & Hr)]; [now left|].
          right. exists n, s. split; [now right|exact Hr]. }
    destruct (str_eqb su EmptyString) eqn:Hsu.
    + apply str_eqb_true in Hsu. subst su.
      destruct (IH _ u H) as (H1 & H2 & H3). split; [congruence|]. split.
      * intros n s [Heq|Hin] Ht Hu; [|now apply (H2 n s)].
        injection Heq as -> ->. symmetry. now apply H1.
      * intros Hu. right. destruct (H3 Hu) as [->|(n & s & Hin & Hr)].
        -- exists n0, s0. split; [now left|]. auto.
        -- exists n, s. split; [now right|exact Hr].
    + assert (Hsu' : su <> EmptyString) by (intros ->; discriminate).
      destruct (str_neb su (UUID s0) && str_neb (UUID s0) EmptyString) eqn:Hc;
        [discriminate|].
      destruct (IH su u H) as (H1 & H2 & H3). split; [exact H1|]. split.
      * intros n s [Heq|Hin] Ht Hu; [|now apply (H2 n s)].
        injection Heq as -> ->. rewrite (H1 Hsu').
        apply andb_false_iff in Hc as [Hc|Hc]; apply str_neb_false in Hc;
          congruence.
      * intros Hu. destruct (H3 Hu) as [->|(n & s & Hin & Hr)]; [now left|].
        right. exists n, s. split; [now right|exact Hr].
Qed.

(** X7. The targets agree on a uuid, or not, whatever the order in which the
    map is visited and whatever the gateways hold: there is no agreement
    exactly when two targets have different non-empty uuids; and a uuid
    agreed on is the uuid of every target that has one, and is empty only
    when no target has one. *)
Theorem targets_agree_on_uuid (l : nodemap smapX) :
  (agreeUUID l EmptyString = None <-> targetsDisagree l) /\
  (forall u, agreeUUID l EmptyString = Some u ->
     (forall n s, In (n, s) l -> IsTarget n = true ->
                  UUID s <> EmptyString -> UUID s = u) /\
     (u <> EmptyString ->
      exists n s, In (n, s) l /\ IsTarget n = true /\ UUID s = u)).
Proof.
  split.
  - split.
    + intros H. destruct (agreeUUID_none_inv l _ H) as [(Hne & _)|Hd];
        [congruence|exact Hd].
    + intros (n1 & s1 & n2 & s2 & H1 & H2 & Ht1 & Ht2 & Hu1 & Hu2 & Hd).
      now apply (agreeUUID_split l EmptyString n1 s1 n2 s2).
  - intros u H. destruct (agreeUUID_some l _ u H) as (_ & H2 & H3).
    split; [exact H2|]. intros Hu. destruct (H3 Hu) as [->|H4]; [congruence|exact H4].
Qed.

(** The maximum of the second loop, when it starts from nothing or from an
    Smap of the agreed uuid. *)
Lemma pickMax_spec (l : nodemap smapX) (suuid : string) : forall mx,
  (forall m0, mx = Some m0 -> UUID m0 = suuid) ->
  match pickMax l suuid mx with
  | Some m =>
      UUID m = suuid /\
      (forall n s, In (n, s) l -> UUID s = suuid -> Version s <= Version m) /\
      (forall m0, mx = Some m0 -> Version m0 <= Version m) /\
      (mx = Some m \/ exists n, In (n, m) l)
  | None => mx = None /\ forall n s, In (n, s) l -> UUID s <> suuid
  end.
Proof.
  induction l as [|[n0 s0] l IH]; intros mx Hmx.
  - cbn [pickMax]. destruct mx as [m0|].
    + split; [now apply Hmx|]. split; [intros n s []|].
      split; [|now left]. intros m1 H. injection H as <-. lia.
    + split; [reflexivity|]. intros n s [].
  - cbn [pickMax].
    assert (Hlift : forall mx',
               (forall m0, mx' = Some m0 -> UUID m0 = suuid) ->
               (forall m0 m1, mx = Some m0 -> mx' = Some m1 ->
                              Version m0 <= Version m1) ->
               (mx = None -> mx' = None \/ mx' = Some s0) ->
               (mx <> None -> mx' <> None) ->
               (forall m1, mx' = Some m1 -> mx = Some m1 \/ m1 = s0) ->
               (UUID s0 = suuid ->
                exists m1, mx' = Some m1 /\ Version s0 <= Version m1) ->
               match pickMax l suuid mx' with
               | Some m =>
                   UUID m = suuid /\
                   (forall n s, In (n, s) ((n0, s0) :: l) -> UUID s = suuid ->
                                Version s <= Version m) /\
                   (forall m0, mx = Some m0 -> Version m0 <= Version m) /\
                   (mx = Some m \/ exists n, In (n, m) ((n0, s0) :: l))
               | None => mx = None /\
                         forall n s, In (n, s) ((n0, s0) :: l) -> UUID s <> suuid
               end).
    { intros mx' Hu Hle Hnone Hsome Horig Hcov. specialize (IH mx' Hu).
      destruct (pickMax l suuid mx') as [m|].
      - destruct IH as (I1 & I2 & I3 & I4). split; [exact I1|]. split.
        + intros n s [Heq|Hin] Hs; [|now apply (I2 n s)].
          injection Heq as -> ->. destruct (Hcov Hs) as (m1 & Hm1 & Hv).
          specialize (I3 m1 Hm1). lia.
        + split.
          * intros m0 H0. destruct mx' as [m1|].
            -- specialize (Hle m0 m1 H0 eq_refl). specialize (I3 m1 eq_refl). lia.
            -- exfalso. apply Hsome; [congruence|reflexivity].
          * destruct I4 as [I4|(n & I4)].
            -- destruct (Horig m I4) as [H| ->]; [now left|].
               right. exists n0. now left.
            -- right. exists n. now right.
      - destruct IH as [I1 I2]. subst mx'. split.
        + destruct mx as [m0|]; [|reflexivity]. exfalso. apply Hsome; congruence.
        + intros n s [Heq|Hin]; [|now apply (I2 n s)].
          injection Heq as -> ->. intros Hs.
          destruct (Hcov Hs) as (m1 & Hm1 & _). discriminate. }
    destruct (str_neb (UUID s0) suuid) eqn:Hne.
    + apply str_neb_true in Hne. apply Hlift; auto.
      * intros m0 m1 H0 H1. rewrite H0 in H1. injection H1 as <-. lia.
      * intros Hs. contradiction.
    + apply str_neb_false in Hne. destruct mx as [m0|].
      * destruct (Version m0 <? Version s0) eqn:Hlt.
        -- apply Z.ltb_lt in Hlt. apply Hlift.
           ++ intros m1 H. now injection H as <-.
           ++ intros m1 m2 H1 H2. injection H1 as <-. injection H2 as <-. lia.
           ++ discriminate.
           ++ discriminate.
           ++ intros m1 H. injection H as <-. now right.
           ++ intros _. exists s0. split; [reflexivity|lia].
        -- apply Z.ltb_ge in Hlt. apply Hlift; auto.
           ++ intros m1 m2 H1 H2. rewrite H1 in H2. injection H2 as <-. lia.
           ++ intros _. exists m0. split; [reflexivity|lia].
      * apply Hlift.
        -- intros m1 H. now injection H as <-.
        -- discriminate.
        -- auto.
        -- congruence.
        -- intros m1 H. injection H as <-. now right.
        -- intros _. exists s0. split; [reflexivity|lia].
Qed.

Lemma pickMax_from (l : nodemap smapX) (suuid : string) : forall mx m,
  pickMax l suuid mx = Some m -> mx = Some m \/ exists n, In (n, m) l.
Proof.
  induction l as [|[n0 s0] l IH]; intros mx m H; [now left|].
  cbn [pickMax] in H.
  assert (Hlift : forall mx',
             pickMax l suuid mx' = Some m -> (mx' = mx \/ mx' = Some s0) ->
             mx = Some m \/ exists n, In (n, m) ((n0, s0) :: l)).
  { intros mx' Hp Hm. destruct (IH mx' m Hp) as [->|(n & Hin)].
    - destruct Hm as [<-|Hm]; [now left|]. injection Hm as ->.
      right. exists n0. now left.
    - right. exists n. now right. }
  destruct (str_neb (UUID s0) suuid); [apply (Hlift mx); auto|].
  destruct mx as [m0|]; [|apply (Hlift (Some s0)); auto].
  destruct (Version m0 <? Version s0);
    [apply (Hlift (Some s0)); auto|apply (Hlift (Some m0)); auto].
Qed.

Lemma targetsDisagree_ext (l l' : nodemap smapX) :
  (forall x, In x l -> In x l') -> targetsDisagree l -> targetsDisagree l'.
Proof.
  intros H (n1 & s1 & n2 & s2 & H1 & H2 & Hrest).
  exists n1, s1, n2, s2. split; [now apply H|]. split; [now apply H|exact Hrest].
Qed.

Section SlowPath.

Context {ops : SmapOps}.

(** X8. On the slow path, short of a BMD split, the process exits with CIE-30
    exactly when two targets that answered hold different non-empty uuids;
    the order in which Go visits the map does not matter. *)
Theorem slow_path_split (r : reduce) (w : world) :
  (forall x, In x (rangeTargets (nm_of (smaps r))) <-> In x (nm_of (smaps r))) ->
  snd (resolveUUIDBMD (nm_of (bmds r))) <> Some errBmdUUIDSplit ->
  (slowPath r w = Exit (ExitCIE 30) w <-> targetsDisagree (nm_of (smaps r))).
Proof.
  intros Hperm Hbmd. unfold slowPath.
  destruct (resolveUUIDBMD (nm_of (bmds r))) as [b e]. cbn [snd] in Hbmd.
  assert (Hmain : match agreeUUID (rangeTargets (nm_of (smaps r))) EmptyString with
                  | Some suuid =>
                      ret (pickMax (rangeAll (nm_of (smaps r))) suuid (maxVerSmap r), b)
                  | None => exitLogf (ExitCIE 30)
                  end w = Exit (ExitCIE 30) w <->
                  targetsDisagree (nm_of (smaps r))).
  { destruct (agreeUUID (rangeTargets (nm_of (smaps r))) EmptyString) as [u|] eqn:Ha.
    - split; [discriminate|]. intros Hd. exfalso.
      apply (targetsDisagree_ext _ (rangeTargets (nm_of (smaps r)))) in Hd;
        [|intros x; apply Hperm].
      destruct Hd as (n1 & s1 & n2 & s2 & H1 & H2 & Ht1 & Ht2 & Hu1 & Hu2 & Hd).
      rewrite (agreeUUID_split _ EmptyString n1 s1 n2 s2) in Ha by assumption.
      discriminate.
    - split; [|reflexivity]. intros _.
      destruct (agreeUUID_none_inv _ _ Ha) as [(Hne & _)|Hd]; [congruence|].
      eapply targetsDisagree_ext; [|exact Hd]. intros x. apply Hperm. }
  destruct e as [[| |]|]; [congruence|exact Hmain|exact Hmain|exact Hmain].
Qed.

(** X9. On the slow path, with targets that do not disagree and no BMD split,
    [slowPath] returns; the BMD is the one [resolveUUIDBMD] chose; all
    targets that have a uuid have the agreed one; and when the maximum that
    the reducer left is nil or of the agreed uuid, the Smap returned is of
    that uuid and no Smap of that uuid that was reported has a greater
    version (nil when none was reported). *)
Theorem slow_path_maximum (r : reduce) (w : world) :
  (forall x, In x (rangeTargets (nm_of (smaps r))) <-> In x (nm_of (smaps r))) ->
  (forall x, In x (rangeAll (nm_of (smaps r))) <-> In x (nm_of (smaps r))) ->
  snd (resolveUUIDBMD (nm_of (bmds r))) <> Some errBmdUUIDSplit ->
  ~ targetsDisagree (nm_of (smaps r)) ->
  exists u res,
    slowPath r w = Ret (res, fst (resolveUUIDBMD (nm_of (bmds r)))) w /\
    (forall n s, In (n, s) (nm_of (smaps r)) -> IsTarget n = true ->
                 UUID s <> EmptyString -> UUID s = u) /\
    ((forall m0, maxVerSmap r = Some m0 -> UUID m0 = u) ->
     match res with
     | Some m =>
         UUID m = u /\
         forall n s, In (n, s) (nm_of (smaps r)) -> UUID s = u ->
                     Version s <= Version m
     | None => forall n s, In (n, s) (nm_of (smaps r)) -> UUID s <> u
     end).
Proof.
  intros Hpt Hpa Hbmd Hagree. unfold slowPath.
  destruct (resolveUUIDBMD (nm_of (bmds r))) as [b e]. cbn [snd fst] in *.
  destruct (agreeUUID (rangeTargets (nm_of (smaps r))) EmptyString) as [u|] eqn:Ha.
  2:{ exfalso. apply Hagree.
      destruct (agreeUUID_none_inv _ _ Ha) as [(Hne & _)|Hd]; [congruence|].
      eapply targetsDisagree_ext; [|exact Hd]. intros x. apply Hpt. }
  exists u, (pickMax (rangeAll (nm_of (smaps r))) u (maxVerSmap r)).
  split; [destruct e as [[| |]|]; [congruence|reflexivity..]|].
  destruct (agreeUUID_some _ _ u Ha) as (_ & H2 & _). split.
  - intros n s Hin. apply (H2 n s). now apply Hpt.
  - intros Hmx.
    pose proof (pickMax_spec (rangeAll (nm_of (smaps r))) u (maxVerSmap r) Hmx) as Hp.
    destruct (pickMax (rangeAll (nm_of (smaps r))) u (maxVerSmap r)) as [m|].
    + destruct Hp as (P1 & P2 & _). split; [exact P1|].
      intros n s Hin. apply (P2 n s). now apply Hpa.
    + destruct Hp as [_ P2]. intros n s Hin. apply (P2 n s). now apply Hpa.
Qed.

(** X10. What [uncoverMeta] returns as Smap is one that a node reported in a
    round of this discovery, in a reply delivered and decoded, and of a
    positive version. *)
Theorem uncoverMeta_reported (cfg : config) (bcastSmap : smapX) (w w1 : world)
    (m : smapX) (b : option bucketMD) :
  (forall l x, In x (rangeAll l) -> In x l) ->
  uncoverMeta cfg bcastSmap w = Ret (Some m, b) w1 ->
  0 < Version m /\
  exists rd res, In rd (w_rounds w) /\ In res (r_results rd) /\
                 bringsSmap res m.
Proof.
  intros Hsub H. unfold uncoverMeta, bind, broadcasts in H.
  destruct (bcastLoop cfg bcastSmap (w_rounds w) (Some []) (Some [])
              (set_rounds [] w)) as [[r rest] w2|f w2|w2|w2] eqn:Hloop;
    try discriminate.
  destruct (bcastLoop_result cfg bcastSmap _ _ _ _ _ _ _ Hloop) as (rd & Hin & Hr).
  assert (Hmax : forall m', maxVerSmap r = Some m' ->
                            exists res, In res (r_results rd) /\ bringsSmap res m').
  { intros m' Hm. rewrite Hr in Hm. unfold bcastMaxVer in Hm.
    destruct (maxima_loop (r_results rd) (reduce_init (Some []) (Some [])))
      as [Hs _].
    destruct (Hs m' Hm) as [H1|H1]; [discriminate|exact H1]. }
  assert (Hfound : exists res, In res (r_results rd) /\ bringsSmap res m).
  { destruct (slowp r).
    - unfold slowPath in H.
      destruct (resolveUUIDBMD (nm_of (bmds r))) as [b' e].
      assert (Hpick : exists u, pickMax (rangeAll (nm_of (smaps r))) u (maxVerSmap r)
                                = Some m).
      { destruct (agreeUUID (rangeTargets (nm_of (smaps r))) EmptyString) as [u|].
        - exists u. destruct e as [[| |]|]; try discriminate;
            now injection H as -> _ _.
        - destruct e as [[| |]|]; discriminate. }
      destruct Hpick as [u Hp].
      destruct (pickMax_from _ _ _ _ Hp) as [Hm|(n & Hn)]; [now apply Hmax|].
      apply Hsub in Hn. rewrite Hr in Hn. unfold bcastMaxVer in Hn.
      pose proof (smaps_loop (r_results rd) (reduce_init (Some []) (Some [])))
        as Hl. cbn [smaps reduce_init option_map] in Hl.
      destruct Hl as (l & Hl & Hfrom & _). rewrite Hl in Hn. cbn [nm_of] in Hn.
      destruct (Hfrom n m Hn) as [[]|(res & Hres & _ & Hb)]. eauto.
    - injection H as Hm _ _. now apply Hmax. }
  destruct Hfound as (res & Hres & Hb). split.
  - destruct Hb as (_ & Hpos & _). exact Hpos.
  - exists rd, res. auto.
Qed.

End SlowPath.


Lemma broadcasts_until_done_witness :
  exists w',
    broadcasts cfg0 local5
      (worldWith local5
         [mkRound 0 [mkRes T1 true Malformed];
          mkRound 1 [reply T1 false (Some newer9) None];
          mkRound 2 []] [])
      = Ret (bcastMaxVer [reply T1 false (Some newer9) None] (Some []) (Some [])) w' /\
    w_rounds w' = [mkRound 2 []].
Proof.
  destruct (broadcasts_until_done cfg0 local5
              (worldWith local5
                 [mkRound 0 [mkRes T1 true Malformed];
                  mkRound 1 [reply T1 false (Some newer9) None];
                  mkRound 2 []] [])
              [mkRound 0 [mkRes T1 true Malformed]] [mkRound 2 []]
              (mkRound 1 [reply T1 false (Some newer9) None]))
    as (w' & Hrun & Hrest & _).
  - reflexivity.
  - repeat constructor. vm_compute. discriminate.
  - left. reflexivity.
  - exists w'. split; [exact Hrun|exact Hrest].
Defined.

Lemma slow_path_split_witness :
  slowPath (ops := specOps) (bcastMaxVer splitReplies (Some []) (Some [])) world0
    = Exit (ExitCIE 30) world0.
Proof.
  apply (slow_path_split (ops := specOps)).
  - intros x. reflexivity.
  - vm_compute. discriminate.
  - exists T1, targetUA, T2, gatewayUB.
    split; [left; reflexivity|]. split; [right; left; reflexivity|].
    split; [reflexivity|]. split; [reflexivity|].
    split; [discriminate|]. split; discriminate.
Defined.

Lemma agreedReplies_no_split :
  ~ targetsDisagree
      (nm_of (smaps (bcastMaxVer agreedReplies (Some []) (Some [])))).
Proof.
  intros (n1 & s1 & n2 & s2 & H1 & H2 & Ht1 & Ht2 & _ & _ & Hd).
  vm_compute in H1, H2.
  destruct H1 as [H1|[H1|[H1|[]]]]; injection H1 as <- <-; try discriminate;
    destruct H2 as [H2|[H2|[H2|[]]]]; injection H2 as <- <-; try discriminate.
  now apply Hd.
Qed.

Lemma slow_path_maximum_witness :
  exists u res,
    slowPath (ops := specOps) (bcastMaxVer agreedReplies (Some []) (Some []))
      world0 = Ret (res, None) world0 /\
    forall n s,
      In (n, s) (nm_of (smaps (bcastMaxVer agreedReplies (Some []) (Some [])))) ->
      IsTarget n = true -> UUID s <> EmptyString -> UUID s = u.
Proof.
  destruct (slow_path_maximum (ops := specOps)
              (bcastMaxVer agreedReplies (Some []) (Some [])) world0)
    as (u & res & Hrun & Hu & _).
  - intros x. reflexivity.
  - intros x. reflexivity.
  - vm_compute. discriminate.
  - exact agreedReplies_no_split.
  - exists u, res. split; [exact Hrun|exact Hu].
Defined.

Lemma uncoverMeta_reported_witness :
  0 < Version newer9 /\
  exists rd res,
    In rd [mkRound 0 [reply G2 false (Some newer9) None]] /\
    In res (r_results rd) /\ bringsSmap res newer9.
Proof.
  apply (uncoverMeta_reported (ops := specOps) cfg0 local5
           (worldWith local5 [mkRound 0 [reply G2 false (Some newer9) None]] [])
           (final (uncoverMeta (ops := specOps) cfg0 local5
                     (worldWith local5
                        [mkRound 0 [reply G2 false (Some newer9) None]] [])))
           newer9 None).
  - intros l x H. exact H.
  - vm_compute. reflexivity.
Defined.

(* ===================================================================== *)
(** ** What the start-up leaves behind *)
(* ===================================================================== *)

Lemma follows_refl ok w : follows ok w w.
Proof.
  split; [exists []; split; [reflexivity|constructor]|].
  intros c H. exists c. split; [exact H|lia].
Qed.

Lemma follows_trans ok w1 w2 w3 :
  follows ok w1 w2 -> follows ok w2 w3 -> follows ok w1 w3.
Proof.
  intros [(n1 & T1 & F1) B1] [(n2 & T2 & F2) B2]. split.
  - exists (n2 ++ n1). split; [now rewrite T2, T1, app_assoc|].
    apply Forall_app. split; assumption.
  - intros c Hc. destruct (B1 c Hc) as (c1 & Hc1 & L1).
    destruct (B2 c1 Hc1) as (c2 & Hc2 & L2). exists c2. split; [exact Hc2|lia].
Qed.

Lemma follows_weaken (ok ok' : event -> Prop) w w' :
  (forall e, ok e -> ok' e) -> follows ok w w' -> follows ok' w w'.
Proof.
  intros Himp [(new & Ht & Hf) Hb]. split; [|exact Hb].
  exists new. split; [exact Ht|]. eapply Forall_impl; [exact Hf|exact Himp].
Qed.

Lemma follows_event ok e w : ok e -> follows ok w (add_event e w).
Proof.
  intros He. split.
  - exists [e]. split; [reflexivity|]. constructor; [exact He|constructor].
  - intros c H. exists c. split; [exact H|lia].
Qed.

(** A world with the same trace and the same BMD. *)
Lemma follows_same ok w w' :
  w_trace w' = w_trace w -> w_bmd w' = w_bmd w -> follows ok w w'.
Proof.
  intros Ht Hb. split.
  - exists []. split; [exact Ht|constructor].
  - intros c H. exists c. rewrite Hb. split; [exact H|lia].
Qed.

Lemma extends_ret {A} ok (a : A) : extends ok (ret a).
Proof. intros w. apply follows_refl. Qed.

Lemma extends_exit {A} ok f : extends ok (@exitLogf A f).
Proof. intros w. apply follows_refl. Qed.

Lemma extends_panic {A} ok : extends ok (@panic A).
Proof. intros w. apply follows_refl. Qed.

Lemma extends_bind {A B} ok (c : M A) (k : A -> M B) :
  extends ok c -> (forall a, extends ok (k a)) -> extends ok (bind c k).
Proof.
  intros Hc Hk w. specialize (Hc w). unfold bind.
  destruct (c w) as [a w1|f w1|w1|w1]; cbn [final] in *; try exact Hc.
  eapply follows_trans; [exact Hc|apply Hk].
Qed.

Lemma extends_weaken {A} (ok ok' : event -> Prop) (c : M A) :
  (forall e, ok e -> ok' e) -> extends ok c -> extends ok' c.
Proof. intros Himp Hc w. eapply follows_weaken; [exact Himp|apply Hc]. Qed.

Lemma extends_log ok e : ok e -> extends ok (log e).
Proof. intros He w. apply (follows_event ok e w He). Qed.

Lemma extends_putSmap ok m : ok (EvPutSmap m) -> extends ok (putSmap m).
Proof.
  intros He w. split.
  - exists [EvPutSmap m]. split; [reflexivity|]. constructor; [exact He|constructor].
  - intros c H. exists c. split; [exact H|lia].
Qed.

Lemma extends_getSmap ok : extends ok getSmap.
Proof. intros w. unfold getSmap. destruct (w_smap w); apply follows_refl. Qed.

Lemma extends_getBMD ok : extends ok getBMD.
Proof. intros w. apply follows_refl. Qed.

Lemma extends_joinCluster ok : ok EvJoin -> extends ok joinCluster.
Proof.
  intros He w. unfold joinCluster. destruct (w_joins w) as [|e rest].
  - apply follows_refl.
  - split.
    + exists [EvJoin]. split; [reflexivity|]. constructor; [exact He|constructor].
    + intros c H. exists c. split; [exact H|lia].
Qed.

Section Footprint.

Context {ops : SmapOps}.
Variable self : Snode.
Variable cfg : config.
Variable ok : event -> Prop.
Hypothesis ok_put : forall m, ok (EvPutSmap m).
Hypothesis ok_bmd : forall b, ok (EvPutBMD b).
Hypothesis ok_bcast : forall m, ok (EvBcast m).
Hypothesis ok_sleep : forall d, ok (EvSleep d).
Hypothesis ok_join : ok EvJoin.
Hypothesis ok_poll : ok EvPoll.
Hypothesis ok_sync1 : forall m b, ok (EvSync metaction1 m b).

Lemma extends_installBMD b : extends ok (installBMD b).
Proof.
  intros w. unfold installBMD. destruct b as [b|]; [|apply follows_refl].
  unfold bind, getBMD. destruct (w_bmd w) as [c|] eqn:Hc.
  - destruct (bmdVersion c <? bmdVersion b) eqn:Hlt.
    + apply Z.ltb_lt in Hlt. split.
      * exists [EvPutBMD b]. split; [reflexivity|].
        constructor; [apply ok_bmd|constructor].
      * intros c0 H. rewrite Hc in H. injection H as <-.
        exists b. split; [reflexivity|lia].
    + apply follows_refl.
  - split.
    + exists [EvPutBMD b]. split; [reflexivity|].
      constructor; [apply ok_bmd|constructor].
    + intros c0 H. congruence.
Qed.

Lemma extends_secondaryStartup smap : extends ok (secondaryStartup smap).
Proof.
  unfold secondaryStartup.
  apply extends_bind; [apply extends_putSmap, ok_put|]. intros _.
  apply extends_bind; [apply extends_joinCluster, ok_join|]. intros [|].
  - apply extends_ret.
  - apply extends_bind; [apply extends_log, ok_poll|]. intros _. apply extends_ret.
Qed.

Lemma extends_demote m : extends ok (demote m).
Proof.
  unfold demote. apply extends_bind; [apply extends_secondaryStartup|].
  intros [|]; [apply extends_exit|apply extends_ret].
Qed.

Lemma bcastLoop_follows bcastSmap (rounds : list round) : forall bm sm w,
  follows ok w (final (bcastLoop cfg bcastSmap rounds bm sm w)).
Proof.
  induction rounds as [|rd rest IH]; intros bm sm w; [apply follows_refl|].
  cbn [bcastLoop].
  assert (H1 : follows ok w (add_event (EvBcast bcastSmap)
                               (set_clock (r_elapsed rd) w))).
  { apply (follows_trans _ _ (set_clock (r_elapsed rd) w)).
    - now apply follows_same.
    - apply follows_event, ok_bcast. }
  destruct (done (bcastMaxVer (r_results rd) bm sm) ||
            (Startup cfg <? r_elapsed rd)); [exact H1|].
  eapply follows_trans; [exact H1|].
  eapply follows_trans; [apply (follows_event ok (EvSleep (CplaneOperation cfg)))|].
  - apply ok_sleep.
  - apply IH.
Qed.

Lemma extends_broadcasts bcastSmap : extends ok (broadcasts cfg bcastSmap).
Proof.
  intros w. unfold broadcasts.
  pose proof (bcastLoop_follows bcastSmap (w_rounds w) (Some []) (Some [])
                (set_rounds [] w)) as H.
  assert (H0 : follows ok w (set_rounds [] w)) by (now apply follows_same).
  destruct (bcastLoop cfg bcastSmap (w_rounds w) (Some []) (Some [])
              (set_rounds [] w)) as [[r rest] w1|f w1|w1|w1]; cbn [final] in *;
    (eapply follows_trans; [exact H0|exact H]).
Qed.

Lemma extends_slowPath r : extends ok (slowPath r).
Proof.
  unfold slowPath. destruct (resolveUUIDBMD (nm_of (bmds r))) as [b e].
  destruct e as [[| |]|];
    try apply extends_exit;
    (destruct (agreeUUID _ _); [apply extends_ret|apply extends_exit]).
Qed.

Lemma extends_uncoverMeta bcastSmap : extends ok (uncoverMeta cfg bcastSmap).
Proof.
  unfold uncoverMeta. apply extends_bind; [apply extends_broadcasts|].
  intros r. destruct (slowp r); [apply extends_slowPath|apply extends_ret].
Qed.

Lemma extends_mergeAndInstall maxVer eq : extends ok (mergeAndInstall maxVer eq).
Proof.
  unfold mergeAndInstall. apply extends_bind; [apply extends_getSmap|].
  intros clone. destruct (negb eq).
  - destruct (merge maxVer clone false) as [[d a] e]. apply extends_exit.
  - apply extends_putSmap, ok_put.
Qed.

Lemma extends_discoverMeta smap : extends ok (discoverMeta self cfg smap).
Proof.
  unfold discoverMeta. apply extends_bind; [apply extends_uncoverMeta|].
  intros found. apply extends_bind; [apply extends_installBMD|]. intros _.
  destruct (fst found) as [maxVer|]; [|apply extends_ret].
  destruct (Version maxVer =? 0); [apply extends_ret|].
  destruct (Compare smap maxVer) as [[su sv] eq].
  destruct (negb su); [apply extends_exit|].
  destruct (eq && sv); [apply extends_ret|].
  destruct (ProxySI maxVer) as [pr|]; [|apply extends_mergeAndInstall].
  destruct (str_neb (DaemonID pr) (DaemonID self));
    [|apply extends_mergeAndInstall].
  destruct (Version smap <? Version maxVer);
    [apply extends_putSmap, ok_put|apply extends_exit].
Qed.

Lemma extends_mergeLoaded loadedSmap : extends ok (mergeLoaded loadedSmap).
Proof.
  unfold mergeLoaded. apply extends_bind; [apply extends_getSmap|]. intros smap.
  destruct ((0 <? CountTargets smap) || (1 <? CountProxies smap)).
  - apply extends_bind.
    + destruct loadedSmap as [l|]; [|apply extends_ret].
      destruct (merge smap l true) as [[l1 added] e].
      apply extends_bind; [apply extends_putSmap, ok_put|]. intros _.
      apply extends_ret.
    + intros smap1. apply extends_bind; [apply extends_getBMD|]. intros bmd.
      apply extends_bind; [apply extends_log, ok_sync1|]. intros _.
      apply extends_ret.
  - destruct loadedSmap as [l|]; [|apply extends_ret].
    apply extends_bind; [apply extends_putSmap, ok_put|]. intros _.
    apply extends_ret.
Qed.

Lemma regLoop_follows loadedSmap ntargets (ticks : list tick) :
  forall wtime checked mv w,
    follows ok w (final (regLoop self cfg loadedSmap ntargets ticks wtime
                           checked mv w)).
Proof.
  induction ticks as [|tk ticks IH]; intros wtime checked mv w;
    [apply follows_refl|].
  cbn [regLoop].
  assert (H0 : follows ok w (set_clock (t_since tk) w))
    by (now apply follows_same).
  assert (H1 : follows ok w (registered (t_smap tk)
                               (add_event (EvSleep second)
                                  (set_clock (t_since tk) w)))).
  { eapply follows_trans; [exact H0|].
    eapply follows_trans; [apply (follows_event ok (EvSleep second)), ok_sleep|].
    now apply follows_same. }
  assert (H3 : forall l, follows ok w
                 (add_event (EvBcast l)
                    (set_clock (t_since_probe tk)
                       (registered (t_smap tk)
                          (add_event (EvSleep second)
                             (set_clock (t_since tk) w)))))).
  { intros l. eapply follows_trans; [exact H1|].
    eapply follows_trans; [|apply (follows_event ok (EvBcast l)), ok_bcast].
    now apply follows_same. }
  destruct (t_since tk <? wtime); [|exact H0].
  destruct (negb (isPrimary (t_smap tk) self)); [exact H1|].
  destruct ((ntargets <=? CountTargets (t_smap tk)) && (0 <? ntargets));
    [exact H1|].
  destruct (negb checked).
  2:{ eapply follows_trans; [exact H1|apply IH]. }
  destruct loadedSmap as [l|]; [|exact H1].
  destruct (0 <? CountTargets l).
  2:{ eapply follows_trans; [exact H1|apply IH]. }
  destruct (wrap64 (2 * MaxKeepalive cfg) <? t_since_probe tk).
  2:{ eapply follows_trans; [|apply IH]. eapply follows_trans; [exact H1|].
      now apply follows_same. }
  destruct (movedOn self l (bcastMaxVer (t_results tk) None None)); [apply H3|].
  eapply follows_trans; [apply H3|apply IH].
Qed.

Lemma extends_acceptRegistrations smap loadedSmap ntargets :
  extends ok (acceptRegistrations self cfg smap loadedSmap ntargets).
Proof.
  intros w. unfold acceptRegistrations.
  destruct (CountTargets smap =? 0); [|apply follows_refl].
  pose proof (regLoop_follows loadedSmap ntargets (w_ticks w) (Startup cfg ÷ 2)
                (match loadedSmap with None => true | Some _ => false end)
                None (set_ticks [] w)) as H.
  assert (H0 : follows ok w (set_ticks [] w)) by (now apply follows_same).
  destruct (regLoop self cfg loadedSmap ntargets (w_ticks w) _ _ None
              (set_ticks [] w)) as [[mv rest] w1|f w1|w1|w1]; cbn [final] in *;
    (eapply follows_trans; [exact H0|exact H]).
Qed.

End Footprint.

Section Finalize.

Context {ops : SmapOps}.
Variable self : Snode.
Variable cfg : config.

(** [finalize], on the Smap that the owner holds and with a BMD in the
    owner: either the Smap cannot be persisted and the process exits, with
    nothing published and the node not marked started; or it returns at
    the end of a start-up as primary. The Smap it ends with is the one it
    was given, with a new uuid and the next version if it had no uuid. *)
Lemma finalize_cases (smap : smapX) (w : world) (c : bucketMD) :
  w_smap w = Some smap -> w_bmd w = Some c ->
  (exists w', finalize smap w = Exit ExitPersist w' /\ follows notFinal w w') \/
  (exists w' m bmd,
     finalize smap w = Ret tt w' /\ finishedPrimary w' m bmd /\
     follows (fun _ => True) w w' /\
     (fst newClusterUUID <> EmptyString -> UUID m <> EmptyString) /\
     (UUID smap <> EmptyString -> m = smap) /\
     ProxySI m = ProxySI smap /\ Pmap m = Pmap smap /\ Tmap m = Tmap smap).
Proof.
  intros Hs Hc. unfold finalize.
  destruct (str_eqb (UUID smap) EmptyString) eqn:Hu;
    cbv [bind ret log getBMD putBMD putSmap exitLogf panic];
    cbn [w_smap w_bmd w_clock w_trace w_ticks w_rounds w_joins].
  - (* no uuid yet *)
    set (clone := set_Version
                    (set_UUID smap (fst newClusterUUID) (snd newClusterUUID))
                    (wrap64 (Version smap + 1))).
    fold clone. destruct (persist clone).
    + left. eexists. split; [reflexivity|]. split.
      * exists [EvPutSmap clone]. split; [reflexivity|]. repeat constructor.
      * intros c0 H. exists c0. split; [exact H|lia].
    + right. rewrite ?Hc. cbn. rewrite ?Hc.
      destruct (bmdVersion c =? 0) eqn:Hz; cbn.
      * apply Z.eqb_eq in Hz. eexists _, clone, (mkBMD (UUID clone) 1).
        split; [reflexivity|]. split.
        { eexists. split; [reflexivity|]. split; [right; left; reflexivity|].
          split; [reflexivity|]. split; [reflexivity|]. discriminate. }
        split.
        { split.
          - eexists [_; _; _; _; _]. split; [reflexivity|]. repeat constructor.
          - intros c0 H. rewrite Hc in H. injection H as <-.
            eexists. split; [reflexivity|]. cbn [bmdVersion]. lia. }
        split; [intros H; exact H|].
        split; [intros H; apply str_eqb_true in Hu; contradiction|].
        split; [reflexivity|]. split; reflexivity.
      * apply Z.eqb_neq in Hz. eexists _, clone, c.
        split; [reflexivity|]. split.
        { eexists. split; [reflexivity|]. split; [left; reflexivity|].
          split; [reflexivity|]. split; [first [reflexivity | exact Hc]|]. exact Hz. }
        split.
        { split.
          - eexists [_; _; _; _]. split; [reflexivity|]. repeat constructor.
          - intros c0 H. exists c0. split; [|lia].
            first [exact H | rewrite Hc in H; exact H]. }
        split; [intros H; exact H|].
        split; [intros H; apply str_eqb_true in Hu; contradiction|].
        split; [reflexivity|]. split; reflexivity.
  - (* the Smap has a uuid *)
    assert (Hne : UUID smap <> EmptyString).
    { intros H. apply str_eqb_true in H. congruence. }
    destruct (persist smap).
    + left. eexists. split; [reflexivity|]. apply follows_refl.
    + right. rewrite ?Hc. cbn. rewrite ?Hc.
      destruct (bmdVersion c =? 0) eqn:Hz; cbn.
      * apply Z.eqb_eq in Hz. eexists _, smap, (mkBMD (UUID smap) 1).
        split; [reflexivity|]. split.
        { eexists. split; [reflexivity|]. split; [right; left; reflexivity|].
          split; [exact Hs|]. split; [reflexivity|]. discriminate. }
        split.
        { split.
          - eexists [_; _; _; _]. split; [reflexivity|]. repeat constructor.
          - intros c0 H. rewrite Hc in H. injection H as <-.
            eexists. split; [reflexivity|]. cbn [bmdVersion]. lia. }
        split; [intros _; exact Hne|]. split; [reflexivity|].
        split; [reflexivity|]. split; reflexivity.
      * apply Z.eqb_neq in Hz. eexists _, smap, c.
        split; [reflexivity|]. split.
        { eexists. split; [reflexivity|]. split; [left; reflexivity|].
          split; [exact Hs|]. split; [first [reflexivity | exact Hc]|]. exact Hz. }
        split.
        { split.
          - eexists [_; _; _]. split; [reflexivity|]. repeat constructor.
          - intros c0 H. exists c0. split; [|lia].
            first [exact H | rewrite Hc in H; exact H]. }
        split; [intros _; exact Hne|]. split; [reflexivity|].
        split; [reflexivity|]. split; reflexivity.
Qed.

End Finalize.

Section Startup.

Context {ops : SmapOps}.
Variable self : Snode.
Variable cfg : config.
Variable env : environ.

Lemma notFinal_sync1 m b : notFinal (EvSync metaction1 m b).
Proof. unfold notFinal. vm_compute. reflexivity. Qed.

Ltac not_final :=
  intros; first [exact I | apply notFinal_sync1 | exact eq_refl].

Lemma extends_determineRole ok smap loaded :
  extends ok (determineRole self env smap loaded).
Proof.
  unfold determineRole.
  destruct (str_neb (AIS_PRIMARY_ID env) EmptyString && AIS_IS_PRIMARY env &&
            str_neb (DaemonID self) (AIS_PRIMARY_ID env));
    [apply extends_exit|].
  apply extends_bind; [|intros r; apply extends_ret].
  destruct (loaded && str_neb (AIS_PRIMARY_ID env) EmptyString);
    [|apply extends_ret].
  unfold adoptEnvPrimary.
  destruct (GetProxy _ _); [|apply extends_ret].
  destruct (ProxySI _); [|apply extends_panic].
  destruct (str_neb _ _); apply extends_ret.
Qed.

(** The track of a secondary in [bootstrap], lines 38-65. *)
Lemma extends_secondary_track ok (loaded : bool) (smap1 : option smapX) :
  (forall m, ok (EvPutSmap m)) -> (forall m, ok (EvBcast m)) ->
  (forall d, ok (EvSleep d)) -> ok EvJoin -> ok EvPoll ->
  extends ok
    (e <- secondaryStartup smap1 ;;
     if e : bool then
       e2 <- (if loaded then
                match smap1 with
                | None => panic
                | Some m =>
                    found <- uncoverMeta cfg m ;;
                    match fst found with
                    | Some maxVer =>
                        match ProxySI maxVer with
                        | Some _ => secondaryStartup (Some maxVer)
                        | None => ret e
                        end
                    | None => ret e
                    end
                end
              else ret e) ;;
       if e2 : bool then exitLogf ExitJoin else ret tt
     else ret tt).
Proof.
  intros P1 P2 P3 P4 P5.
  apply extends_bind; [now apply extends_secondaryStartup|].
  intros [|]; [|apply extends_ret].
  apply extends_bind.
  2:{ intros [|]; [apply extends_exit|apply extends_ret]. }
  destruct loaded; [|apply extends_ret].
  destruct smap1 as [m|]; [|apply extends_panic].
  apply extends_bind; [now apply extends_uncoverMeta|].
  intros found. destruct (fst found) as [mv|]; [|apply extends_ret].
  destruct (ProxySI mv); [|apply extends_ret].
  now apply extends_secondaryStartup.
Qed.

Lemma extends_finalize smap : extends (fun _ => True) (finalize smap).
Proof.
  unfold finalize. apply extends_bind.
  - destruct (str_eqb _ _); [|apply extends_ret].
    apply extends_bind; [now apply extends_putSmap|]. intros _.
    apply extends_ret.
  - intros smap1. destruct (persist smap1); [apply extends_exit|].
    apply extends_bind; [now apply extends_log|]. intros _.
    intros w. unfold bind, getBMD. destruct (w_bmd w) as [c|] eqn:Hc;
      [|apply follows_refl].
    destruct (bmdVersion c =? 0) eqn:Hz; cbn.
    + apply Z.eqb_eq in Hz. split.
      * eexists [_; _; _]. split; [reflexivity|]. repeat constructor.
      * intros c0 H. rewrite Hc in H. injection H as <-.
        eexists. split; [reflexivity|]. cbn [bmdVersion]. lia.
    + split.
      * eexists [_; _]. split; [reflexivity|]. repeat constructor.
      * intros c0 H. exists c0. split; [exact H|lia].
Qed.

Lemma extends_primaryStartup loadedSmap ntargets :
  extends (fun _ => True) (primaryStartup self cfg loadedSmap ntargets).
Proof.
  unfold primaryStartup.
  apply extends_bind; [now apply extends_putSmap|]. intros _.
  apply extends_bind.
  { destruct (skipStartup cfg); [apply extends_ret|].
    apply extends_acceptRegistrations; not_final. }
  intros [mv|].
  - apply extends_bind; [now apply extends_putSmap|]. intros _.
    apply extends_demote; not_final.
  - apply extends_bind; [apply extends_mergeLoaded; not_final|]. intros smap1.
    apply extends_bind; [apply extends_discoverMeta; not_final|]. intros _.
    unfold stillPrimary. apply extends_bind; [apply extends_getSmap|].
    intros smap. destruct (negb (isPrimary smap self)).
    + apply extends_demote; not_final.
    + apply extends_finalize.
Qed.

Lemma extends_bootstrap disk ntargets :
  extends (fun _ => True) (bootstrap self cfg env disk ntargets).
Proof.
  unfold bootstrap.
  destruct (match disk with
            | Some m => (m, negb (checkPresenceNetChange m))
            | None => (newSmap, false)
            end) as [smap loaded].
  apply extends_bind; [apply extends_determineRole|]. intros role.
  destruct (negb (snd role)); [apply extends_primaryStartup|].
  apply extends_secondary_track; not_final.
Qed.

Lemma startupEnd_early {A} (c : M A) w o :
  extends notFinal c -> final o = final (c w) -> startupEnd self w o.
Proof. intros H E. left. rewrite E. apply H. Qed.

Lemma startupEnd_bind {A} (c : M A) (k : A -> M unit) w c0 :
  w_bmd w = Some c0 -> extends notFinal c ->
  (forall a w1 c1, w_bmd w1 = Some c1 -> startupEnd self w1 (k a w1)) ->
  startupEnd self w (bind c k w).
Proof.
  intros Hb Hc Hk. pose proof (Hc w) as F. unfold bind.
  destruct (c w) as [a w1|f w1|w1|w1]; cbn [final] in F;
    try (left; exact F).
  destruct F as [Ft Fb]. destruct (Fb c0 Hb) as (c1 & Hb1 & _).
  destruct (Hk a w1 c1 Hb1) as [L|R].
  - left. eapply follows_trans; [split; [exact Ft|exact Fb]|exact L].
  - right. exact R.
Qed.

Lemma startupEnd_stillPrimary w c :
  w_bmd w = Some c -> startupEnd self w (stillPrimary self w).
Proof.
  intros Hb. unfold stillPrimary, bind, getSmap.
  destruct (w_smap w) as [smap|] eqn:Hs; [|left; apply follows_refl].
  destruct (negb (isPrimary smap self)) eqn:Hp.
  - left. apply extends_demote; not_final.
  - apply negb_false_iff in Hp.
    destruct (finalize_cases smap w c Hs Hb)
      as [(w' & E & F)|(w' & m & bmd & E & Fin & _ & U1 & U2 & P1 & P2 & P3)].
    + left. rewrite E. exact F.
    + right. exists w', m, bmd, smap. rewrite E.
      split; [reflexivity|]. split; [exact Fin|]. split; [exact Hp|].
      split; [exact P1|]. split; [exact P2|]. split; [exact P3|].
      split; [exact U2|exact U1].
Qed.

Lemma startupEnd_primaryStartup loadedSmap ntargets w c :
  w_bmd w = Some c ->
  startupEnd self w (primaryStartup self cfg loadedSmap ntargets w).
Proof.
  intros Hb. unfold primaryStartup.
  eapply startupEnd_bind; [exact Hb|apply extends_putSmap; not_final|].
  intros _ w1 c1 Hb1.
  eapply startupEnd_bind; [exact Hb1| |].
  { destruct (skipStartup cfg); [apply extends_ret|].
    apply extends_acceptRegistrations; not_final. }
  intros [mv|] w2 c2 Hb2.
  - eapply startupEnd_early; [|reflexivity].
    apply extends_bind; [apply extends_putSmap; not_final|]. intros _.
    apply extends_demote; not_final.
  - eapply startupEnd_bind; [exact Hb2|apply extends_mergeLoaded; not_final|].
    intros smap1 w3 c3 Hb3.
    eapply startupEnd_bind; [exact Hb3|apply extends_discoverMeta; not_final|].
    intros _ w4 c4 Hb4. now apply (startupEnd_stillPrimary w4 c4).
Qed.

(** X11. [bootstrap] itself sets [startedUp] (line 249) only at the end
    of a start-up as primary: when it has returned, after the Smap that
    the owner holds was persisted and then published under [metaction2]
    together with the BMD that the owner holds, whose version is not 0,
    and with this node the primary of that Smap. In every other outcome
    (a return as secondary, which leaves [startedUp] to the goroutine that
    polls, an exit, a panic, a wait that has not ended) nothing was
    persisted, nothing published under [metaction2], and [startedUp] not
    set. The owner holds a BMD at the start. *)
Theorem started_only_when_finalized (disk : option smapX) (ntargets : Z)
    (w : world) (c : bucketMD) :
  w_bmd w = Some c ->
  startupEnd self w (bootstrap self cfg env disk ntargets w).
Proof.
  intros Hb. unfold bootstrap.
  destruct (match disk with
            | Some m => (m, negb (checkPresenceNetChange m))
            | None => (newSmap, false)
            end) as [smap loaded].
  eapply startupEnd_bind; [exact Hb|apply extends_determineRole|].
  intros role w1 c1 Hb1.
  destruct (negb (snd role)); [now apply (startupEnd_primaryStartup _ _ w1 c1)|].
  eapply startupEnd_early; [|reflexivity].
  apply extends_secondary_track; not_final.
Qed.

(** X12. Whatever the outcome of [bootstrap], the trace of effects has
    only grown, and the owner still holds a BMD, of a version that is not
    below the one it held at the start. *)
Theorem bootstrap_never_lowers_bmd (disk : option smapX) (ntargets : Z)
    (w : world) (c : bucketMD) :
  w_bmd w = Some c ->
  let w' := final (bootstrap self cfg env disk ntargets w) in
  (exists c', w_bmd w' = Some c' /\ bmdVersion c <= bmdVersion c') /\
  exists new, w_trace w' = new ++ w_trace w.
Proof.
  intros Hb w'. destruct (extends_bootstrap disk ntargets w) as [(new & T & _) B].
  split; [exact (B c Hb)|]. exists new. exact T.
Qed.

End Startup.

Lemma started_only_when_finalized_witness :
  w_bmd freshWorld = Some (mkBMD EmptyString 0) /\
  startupEnd (ops := specOps) G1 freshWorld
    (bootstrap (ops := specOps) G1 cfg0 (mkEnv EmptyString true) None 0
       freshWorld).
Proof.
  split; [reflexivity|].
  apply (started_only_when_finalized (ops := specOps) G1 cfg0
           (mkEnv EmptyString true) None 0 freshWorld (mkBMD EmptyString 0)).
  reflexivity.
Defined.

Lemma bootstrap_never_lowers_bmd_witness :
  w_bmd startWorld = Some (mkBMD EmptyString 0) /\
  let w' := final (bootstrap (ops := specOps) G1 cfg0
                     (mkEnv EmptyString false) (Some local5) 0 startWorld) in
  (exists c', w_bmd w' = Some c' /\ 0 <= bmdVersion c') /\
  exists new, w_trace w' = new ++ w_trace startWorld.
Proof.
  split; [reflexivity|].
  apply (bootstrap_never_lowers_bmd (ops := specOps) G1 cfg0
           (mkEnv EmptyString false) (Some local5) 0 startWorld
           (mkBMD EmptyString 0)).
  reflexivity.
Defined.

(* ===================================================================== *)
(** ** More on the registration window *)
(* ===================================================================== *)

Lemma waited_refl loaded w : waited loaded w w.
Proof.
  split; [reflexivity|]. split; [reflexivity|]. split; [reflexivity|].
  exists []. split; [reflexivity|constructor].
Qed.

Lemma waited_trans loaded w1 w2 w3 :
  waited loaded w1 w2 -> waited loaded w2 w3 -> waited loaded w1 w3.
Proof.
  intros (B1 & R1 & J1 & n1 & T1 & F1) (B2 & R2 & J2 & n2 & T2 & F2).
  split; [congruence|]. split; [congruence|]. split; [congruence|].
  exists (n2 ++ n1). split; [now rewrite T2, T1, app_assoc|].
  apply Forall_app. split; assumption.
Qed.

Lemma waited_event loaded e w : windowEvent loaded e -> waited loaded w (add_event e w).
Proof.
  intros He. split; [reflexivity|]. split; [reflexivity|]. split; [reflexivity|].
  exists [e]. split; [reflexivity|]. constructor; [exact He|constructor].
Qed.

Lemma waited_same loaded w w' :
  w_bmd w' = w_bmd w -> w_rounds w' = w_rounds w -> w_joins w' = w_joins w ->
  w_trace w' = w_trace w -> waited loaded w w'.
Proof.
  intros B R J T. split; [exact B|]. split; [exact R|]. split; [exact J|].
  exists []. split; [exact T|constructor].
Qed.

Section WindowMore.

Context {ops : SmapOps}.
Variable self : Snode.
Variable cfg : config.
Variable loaded : option smapX.
Variable nt : Z.

Lemma regLoop_waited (ticks : list tick) : forall wtime checked mv w,
  waited loaded w (final (regLoop self cfg loaded nt ticks wtime checked mv w)).
Proof.
  induction ticks as [|tk ticks IH]; intros wtime checked mv w;
    [apply waited_refl|].
  cbn [regLoop].
  assert (H0 : waited loaded w (set_clock (t_since tk) w))
    by (now apply waited_same).
  assert (H1 : waited loaded w
                 (registered (t_smap tk)
                    (add_event (EvSleep second) (set_clock (t_since tk) w)))).
  { eapply waited_trans; [exact H0|].
    eapply waited_trans; [apply (waited_event _ (EvSleep second)); now left|].
    now apply waited_same. }
  destruct (t_since tk <? wtime); [|exact H0].
  destruct (negb (isPrimary (t_smap tk) self)); [exact H1|].
  destruct ((nt <=? CountTargets (t_smap tk)) && (0 <? nt)); [exact H1|].
  destruct (negb checked).
  2:{ eapply waited_trans; [exact H1|apply IH]. }
  destruct loaded as [l|]; [|exact H1].
  destruct (0 <? CountTargets l).
  2:{ eapply waited_trans; [exact H1|apply IH]. }
  assert (H3 : waited (Some l) w
                 (add_event (EvBcast l)
                    (set_clock (t_since_probe tk)
                       (registered (t_smap tk)
                          (add_event (EvSleep second)
                             (set_clock (t_since tk) w)))))).
  { eapply waited_trans; [exact H1|].
    eapply waited_trans; [|apply (waited_event _ (EvBcast l)); right; now exists l].
    now apply waited_same. }
  destruct (wrap64 (2 * MaxKeepalive cfg) <? t_since_probe tk).
  2:{ eapply waited_trans; [|apply IH]. eapply waited_trans; [exact H1|].
      now apply waited_same. }
  destruct (movedOn self l (bcastMaxVer (t_results tk) None None)); [exact H3|].
  eapply waited_trans; [exact H3|apply IH].
Qed.

(** X13. Whatever its outcome, [acceptRegistrations] only waits: it adds
    to the trace nothing but sleeps of one second and broadcasts to the
    nodes of the loaded Smap (so it installs, persists and publishes
    nothing), and it leaves the BMD in the owner, the discovery rounds and
    the join results as they were. *)
Theorem window_only_waits (smap : smapX) (w : world) :
  waited loaded w (final (acceptRegistrations self cfg smap loaded nt w)).
Proof.
  unfold acceptRegistrations.
  destruct (CountTargets smap =? 0); [|apply waited_refl].
  pose proof (regLoop_waited (w_ticks w) (Startup cfg ÷ 2)
                (match loaded with None => true | Some _ => false end)
                None (set_ticks [] w)) as H.
  assert (H0 : waited loaded w (set_ticks [] w)) by (now apply waited_same).
  destruct (regLoop self cfg loaded nt (w_ticks w) _ _ None (set_ticks [] w))
    as [[mv rest] w1|f w1|w1|w1]; cbn [final] in *;
    (eapply waited_trans; [exact H0|]);
    (eapply waited_trans; [exact H|]); now apply waited_same.
Qed.

(** One turn at the head of the loop with the number of targets asked
    for: the loop is left at once, with nil. *)
Lemma regLoop_reached tk rest wtime checked w :
  0 < nt -> nt <= CountTargets (t_smap tk) ->
  exists w',
    regLoop self cfg loaded nt (tk :: rest) wtime checked None w
      = Ret (None, rest) w' /\
    (w_trace w' = w_trace w \/ w_trace w' = EvSleep second :: w_trace w) /\
    (t_since tk < wtime -> w_smap w' = Some (t_smap tk)).
Proof.
  intros Hpos Hle. cbn [regLoop].
  apply Z.ltb_lt in Hpos. apply Z.leb_le in Hle. rewrite Hpos, Hle.
  destruct (t_since tk <? wtime) eqn:Ht.
  - destruct (negb (isPrimary (t_smap tk) self)); cbn [andb];
      (eexists; split; [reflexivity|]; split; [right; reflexivity|]);
      intros _; reflexivity.
  - eexists. split; [reflexivity|]. split; [left; reflexivity|].
    intros H. apply Z.ltb_ge in Ht. lia.
Qed.

(** X14. With a positive [ntargets]: the window is still open after the
    ticks [pre] (a run on them alone asks for more), and at the next tick
    the installed Smap has [ntargets] targets or more:
    [acceptRegistrations] returns nil at that tick, without a probe and
    without consuming anything after it. *)
Theorem ntargets_reached_leaves_window (smap : smapX) (w w1 : world)
    (pre post : list tick) (tk : tick) :
  acceptRegistrations self cfg smap loaded nt (set_ticks pre w) = Starved w1 ->
  0 < nt -> nt <= CountTargets (t_smap tk) ->
  exists w',
    acceptRegistrations self cfg smap loaded nt
      (set_ticks (pre ++ tk :: post) w) = Ret None w' /\
    w_ticks w' = post /\
    (w_trace w' = w_trace w1 \/ w_trace w' = EvSleep second :: w_trace w1).
Proof.
  unfold acceptRegistrations. intros H Hpos Hle.
  destruct (CountTargets smap =? 0); [|discriminate].
  change (w_ticks (set_ticks pre w)) with pre in H.
  change (w_ticks (set_ticks (pre ++ tk :: post) w)) with (pre ++ tk :: post).
  change (set_ticks [] (set_ticks pre w)) with (set_ticks [] w) in H.
  change (set_ticks [] (set_ticks (pre ++ tk :: post) w)) with (set_ticks [] w).
  destruct (regLoop self cfg loaded nt pre _ _ None (set_ticks [] w))
    as [[mv rest] w2|f w2|w2|w2] eqn:Hrun; try discriminate.
  injection H as ->.
  destruct (regLoop_starved _ _ _ _ _ _ _ _ _ Hrun) as (wtime' & checked' & Hcont).
  rewrite Hcont.
  destruct (regLoop_reached tk post wtime' checked' w1 Hpos Hle)
    as (w' & -> & Htr & _).
  exists (set_ticks post w'). split; [reflexivity|]. split; [reflexivity|].
  exact Htr.
Qed.

End WindowMore.

Lemma ntargets_reached_leaves_window_witness :
  exists w',
    acceptRegistrations (ops := specOps) G1 cfg0 aloneG1 None 1
      (set_ticks ([tickAt 0 aloneG1] ++ tickAt 1 withTarget :: [tickAt 2 withTarget])
         world0) = Ret None w' /\
    w_ticks w' = [tickAt 2 withTarget].
Proof.
  destruct (ntargets_reached_leaves_window (ops := specOps) G1 cfg0 None 1
              aloneG1 world0
              (final (acceptRegistrations (ops := specOps) G1 cfg0 aloneG1 None 1
                        (set_ticks [tickAt 0 aloneG1] world0)))
              [tickAt 0 aloneG1] [tickAt 2 withTarget] (tickAt 1 withTarget))
    as (w' & Hrun & Hticks & _).
  - vm_compute. reflexivity.
  - lia.
  - vm_compute. discriminate.
  - exists w'. split; [exact Hrun|exact Hticks].
Defined.

(* ===================================================================== *)
(** ** More on the preliminary decision *)
(* ===================================================================== *)

Section Role.

Context {ops : SmapOps}.
Variable self : Snode.
Variable env : environ.

Ltac absurd_out :=
  let H := fresh in intro H; decompose [ex] H; discriminate.

Lemma fatalEnv_test :
  str_neb (AIS_PRIMARY_ID env) EmptyString && AIS_IS_PRIMARY env &&
  str_neb (DaemonID self) (AIS_PRIMARY_ID env) = true <-> fatalEnv self env.
Proof.
  unfold fatalEnv. rewrite !andb_true_iff, !str_neb_true. tauto.
Qed.

(** X15. How [determineRole] fails. It exits exactly when
    [AIS_IS_PRIMARY] is true and [AIS_PRIMARY_ID] names another node;
    short of that, it panics exactly when an Smap was loaded,
    [AIS_PRIMARY_ID] names one of its gateways (this node counted in), and
    the Smap has no primary; otherwise it returns. It never waits, and it
    leaves the owners and the trace as they were. *)
Theorem determineRole_failures (smap : smapX) (loaded : bool) (w : world) :
  let o := determineRole self env smap loaded w in
  final o = w /\
  (forall w', o <> Starved w') /\
  (forall f w', o = Exit f w' -> f = ExitEnv) /\
  ((exists w', o = Exit ExitEnv w') <-> fatalEnv self env) /\
  ((exists w', o = Panic w') <->
   ~ fatalEnv self env /\ adoptsWithoutPrimary self env smap loaded) /\
  ((exists r w', o = Ret r w') <->
   ~ fatalEnv self env /\ ~ adoptsWithoutPrimary self env smap loaded).
Proof.
  unfold determineRole, adoptsWithoutPrimary.
  destruct (str_neb (AIS_PRIMARY_ID env) EmptyString && AIS_IS_PRIMARY env &&
            str_neb (DaemonID self) (AIS_PRIMARY_ID env)) eqn:Hf.
  { apply fatalEnv_test in Hf. cbn.
    split; [reflexivity|]. split; [discriminate|].
    split; [intros f w' H; now injection H as <- _|].
    split; [split; [intros _; exact Hf|intros _; now exists w]|].
    split; (split; [absurd_out|tauto]). }
  assert (Hnf : ~ fatalEnv self env).
  { intros H. apply fatalEnv_test in H. congruence. }
  unfold bind.
  destruct (loaded && str_neb (AIS_PRIMARY_ID env) EmptyString) eqn:Hl.
  2:{ cbn. split; [reflexivity|]. split; [discriminate|].
      split; [discriminate|].
      split; [split; [absurd_out|tauto]|].
      assert (Hno : ~ (loaded = true /\ AIS_PRIMARY_ID env <> EmptyString /\
                       is_Some (GetProxy (addProxy smap self) (AIS_PRIMARY_ID env)) /\
                       ProxySI smap = None)).
      { intros (H1 & H2 & _). apply str_neb_true in H2.
        rewrite H1, H2 in Hl. discriminate. }
      split; [split; [absurd_out|tauto]|].
      split; [intros _; split; assumption|intros _; eexists _, _; reflexivity]. }
  apply andb_true_iff in Hl as [-> Hpid]. apply str_neb_true in Hpid.
  unfold adoptEnvPrimary.
  destruct (GetProxy (addProxy smap self) (AIS_PRIMARY_ID env)) as [primary|] eqn:Hg.
  2:{ cbn. split; [reflexivity|]. split; [discriminate|].
      split; [discriminate|].
      split; [split; [absurd_out|tauto]|].
      assert (Hno : ~ (true = true /\ AIS_PRIMARY_ID env <> EmptyString /\
                       is_Some (@None Snode) /\ ProxySI smap = None)).
      { intros (_ & _ & [x H] & _). discriminate. }
      split; [split; [absurd_out|tauto]|].
      split; [intros _; split; assumption|intros _; eexists _, _; reflexivity]. }
  change (ProxySI (addProxy smap self)) with (ProxySI smap).
  destruct (ProxySI smap) as [cur|] eqn:Hc.
  - assert (Hno : ~ (true = true /\ AIS_PRIMARY_ID env <> EmptyString /\
                     is_Some (Some primary) /\ Some cur = None)).
    { intros (_ & _ & _ & H). discriminate. }
    destruct (str_neb (DaemonID cur) (AIS_PRIMARY_ID env)); cbn;
      (split; [reflexivity|]); (split; [discriminate|]);
      (split; [discriminate|]);
      (split; [split; [absurd_out|tauto]|]);
      (split; [split; [absurd_out|tauto]|]);
      (split; [intros _; split; assumption|intros _; eexists _, _; reflexivity]).
  - cbn. split; [reflexivity|]. split; [discriminate|].
    split; [discriminate|].
    split; [split; [absurd_out|tauto]|].
    split.
    + split; [intros _|intros _; now exists w].
      split; [exact Hnf|]. split; [reflexivity|]. split; [exact Hpid|].
      split; [now exists primary|reflexivity].
    + split; [absurd_out|].
      intros [_ H]. exfalso. apply H. split; [reflexivity|].
      split; [exact Hpid|]. split; [now exists primary|reflexivity].
Qed.

(** X16. What [determineRole] does to the loaded Smap: the Smap it
    returns has the uuid, the version, the creation time and the targets
    of the loaded one, and its gateways with this node added; its primary
    is the one of the loaded Smap or, when [AIS_PRIMARY_ID] is set, the
    gateway of that id. With nothing loaded it returns nil. *)
Theorem determineRole_smap (smap : smapX) (loaded : bool) (w w' : world)
    (sm : option smapX) (secondary : bool) :
  determineRole self env smap loaded w = Ret (sm, secondary) w' ->
  if loaded then
    exists m,
      sm = Some m /\
      UUID m = UUID smap /\ Version m = Version smap /\
      CreationTime m = CreationTime smap /\ Tmap m = Tmap smap /\
      Pmap m = <[DaemonID self := self]> (Pmap smap) /\
      (ProxySI m = ProxySI smap \/
       AIS_PRIMARY_ID env <> EmptyString /\
       ProxySI m = Pmap m !! AIS_PRIMARY_ID env /\ is_Some (ProxySI m))
  else sm = None.
Proof.
  unfold determineRole.
  destruct (str_neb (AIS_PRIMARY_ID env) EmptyString && AIS_IS_PRIMARY env &&
            str_neb (DaemonID self) (AIS_PRIMARY_ID env)); [discriminate|].
  unfold bind.
  destruct loaded; cbn [andb].
  2:{ cbn. intros H. now injection H as <- _ _. }
  destruct (str_neb (AIS_PRIMARY_ID env) EmptyString) eqn:Hpid.
  2:{ cbn. intros H. injection H as <- _ _. eexists. split; [reflexivity|].
      repeat (split; [reflexivity|]). left. reflexivity. }
  apply str_neb_true in Hpid. unfold adoptEnvPrimary.
  destruct (GetProxy (addProxy smap self) (AIS_PRIMARY_ID env)) as [primary|] eqn:Hg.
  2:{ cbn. intros H. injection H as <- _ _. eexists. split; [reflexivity|].
      repeat (split; [reflexivity|]). left. reflexivity. }
  change (ProxySI (addProxy smap self)) with (ProxySI smap).
  destruct (ProxySI smap) as [cur|] eqn:Hc; [|discriminate].
  destruct (str_neb (DaemonID cur) (AIS_PRIMARY_ID env)); cbn;
    intros H; injection H as <- _ _; (eexists; split; [reflexivity|]);
    repeat (split; [reflexivity|]).
  - right. split; [exact Hpid|]. cbn. unfold GetProxy in Hg. cbn in Hg.
    rewrite Hg. split; [reflexivity|]. now exists primary.
  - left. exact Hc.
Qed.

End Role.

Lemma determineRole_smap_witness :
  exists m,
    Some (set_ProxySI (addProxy local5 G1) (Some G2)) = Some m /\
    Version m = Version local5 /\
    ProxySI m = Pmap m !! "G2".
Proof.
  destruct (determineRole_smap (ops := specOps) G1 (mkEnv "G2" false) local5
              true world0 world0
              (Some (set_ProxySI (addProxy local5 G1) (Some G2))) true)
    as (m & E & _ & V & _ & _ & _ & [P|(_ & P & _)]).
  - vm_compute. reflexivity.
  - exfalso. injection E as <-. vm_compute in P. discriminate.
  - exists m. split; [exact E|]. split; [exact V|exact P].
Defined.

(* ===================================================================== *)
(** ** Discovery reads, the secondary joins *)
(* ===================================================================== *)

Lemma discovered_refl w : discovered w w.
Proof.
  repeat (split; [reflexivity|]). exists []. split; [reflexivity|constructor].
Qed.

Lemma discovered_trans w1 w2 w3 :
  discovered w1 w2 -> discovered w2 w3 -> discovered w1 w3.
Proof.
  intros (S1 & B1 & K1 & J1 & n1 & T1 & F1) (S2 & B2 & K2 & J2 & n2 & T2 & F2).
  split; [congruence|]. split; [congruence|]. split; [congruence|].
  split; [congruence|].
  exists (n2 ++ n1). split; [now rewrite T2, T1, app_assoc|].
  apply Forall_app. split; assumption.
Qed.

Lemma discovered_event e w : bcastEvent e -> discovered w (add_event e w).
Proof.
  intros He. repeat (split; [reflexivity|]).
  exists [e]. split; [reflexivity|]. constructor; [exact He|constructor].
Qed.

Section Discovery.

Context {ops : SmapOps}.
Variable self : Snode.
Variable cfg : config.

Lemma bcastLoop_discovered bcastSmap (rounds : list round) : forall bm sm w,
  discovered w (final (bcastLoop cfg bcastSmap rounds bm sm w)).
Proof.
  induction rounds as [|rd rest IH]; intros bm sm w; [apply discovered_refl|].
  cbn [bcastLoop].
  assert (H1 : discovered w (add_event (EvBcast bcastSmap)
                               (set_clock (r_elapsed rd) w))).
  { repeat (split; [reflexivity|]).
    exists [EvBcast bcastSmap]. split; [reflexivity|]. repeat constructor. }
  destruct (done (bcastMaxVer (r_results rd) bm sm) ||
            (Startup cfg <? r_elapsed rd)); [exact H1|].
  eapply discovered_trans; [exact H1|].
  eapply discovered_trans; [apply (discovered_event (EvSleep (CplaneOperation cfg)));
                            exact I|].
  apply IH.
Qed.

Lemma broadcasts_discovered bcastSmap w :
  discovered w (final (broadcasts cfg bcastSmap w)).
Proof.
  unfold broadcasts.
  pose proof (bcastLoop_discovered bcastSmap (w_rounds w) (Some []) (Some [])
                (set_rounds [] w)) as H.
  destruct (bcastLoop cfg bcastSmap (w_rounds w) (Some []) (Some [])
              (set_rounds [] w)) as [[r rest] w1|f w1|w1|w1]; cbn [final] in *;
    exact H.
Qed.

Lemma slowPath_world r w : final (slowPath r w) = w.
Proof.
  unfold slowPath. destruct (resolveUUIDBMD (nm_of (bmds r))) as [b e].
  destruct e as [[| |]|]; try reflexivity;
    destruct (agreeUUID _ _); reflexivity.
Qed.

Lemma slowPath_exits r w f w' :
  slowPath r w = Exit f w' -> f = ExitBmdSplit \/ f = ExitCIE 30.
Proof.
  unfold slowPath. destruct (resolveUUIDBMD (nm_of (bmds r))) as [b e].
  destruct e as [[| |]|];
    try (intros H; injection H as <- _; now left);
    (destruct (agreeUUID _ _); [discriminate|]);
    intros H; injection H as <- _; now right.
Qed.

Lemma bcastLoop_no_exit bcastSmap (rounds : list round) : forall bm sm w f w',
  bcastLoop cfg bcastSmap rounds bm sm w <> Exit f w' /\
  bcastLoop cfg bcastSmap rounds bm sm w <> Panic w'.
Proof.
  induction rounds as [|rd rest IH]; intros bm sm w f w';
    [split; discriminate|].
  cbn [bcastLoop].
  destruct (done (bcastMaxVer (r_results rd) bm sm) ||
            (Startup cfg <? r_elapsed rd)); [split; discriminate|apply IH].
Qed.

Lemma uncoverMeta_facts (bcastSmap : smapX) (w : world) :
  discovered w (final (uncoverMeta cfg bcastSmap w)) /\
  (forall w', uncoverMeta cfg bcastSmap w <> Panic w') /\
  (forall f w', uncoverMeta cfg bcastSmap w = Exit f w' ->
                f = ExitBmdSplit \/ f = ExitCIE 30).
Proof.
  unfold uncoverMeta, bind.
  pose proof (broadcasts_discovered bcastSmap w) as H.
  assert (Hno : forall f w', broadcasts cfg bcastSmap w <> Exit f w' /\
                             broadcasts cfg bcastSmap w <> Panic w').
  { intros f w'. unfold broadcasts.
    destruct (bcastLoop cfg bcastSmap (w_rounds w) (Some []) (Some [])
                (set_rounds [] w)) as [[r rest] w1|f1 w1|w1|w1] eqn:E;
      try (split; discriminate).
    - exfalso. eapply (proj1 (bcastLoop_no_exit _ _ _ _ _ f1 w1)). exact E.
    - exfalso. eapply (proj2 (bcastLoop_no_exit _ _ _ _ _ ExitEnv w1)). exact E. }
  destruct (broadcasts cfg bcastSmap w) as [r w1|f w1|w1|w1] eqn:E;
    cbn [final] in H.
  - destruct (slowp r).
    + rewrite slowPath_world. split; [exact H|]. split.
      * intros w' Hp. unfold slowPath in Hp.
        destruct (resolveUUIDBMD (nm_of (bmds r))) as [b e].
        destruct e as [[| |]|]; try discriminate;
          destruct (agreeUUID _ _); discriminate.
      * intros f w'. apply slowPath_exits.
    + split; [exact H|]. split; discriminate.
  - exfalso. now apply (proj1 (Hno f w1)).
  - exfalso. now apply (proj2 (Hno ExitEnv w1)).
  - split; [exact H|]. split; discriminate.
Qed.

(** X17. [uncoverMeta] only reads: whatever its outcome, the owners hold
    what they held, and the trace has grown by broadcasts and sleeps
    only. It does not panic, and when it exits, then with the split of
    the BMD uuids or with CIE-30. *)
Theorem uncoverMeta_only_reads (bcastSmap : smapX) (w : world) :
  let o := uncoverMeta cfg bcastSmap w in
  discovered w (final o) /\
  (forall w', o <> Panic w') /\
  (forall f w', o = Exit f w' -> f = ExitBmdSplit \/ f = ExitCIE 30).
Proof. exact (uncoverMeta_facts bcastSmap w). Qed.

End Discovery.

Lemma bind_Ret {A B} (c : M A) (k : A -> M B) w a w1 :
  c w = Ret a w1 -> bind c k w = k a w1.
Proof. intros H. unfold bind. now rewrite H. Qed.

Lemma joins_app a b : joins (a ++ b) = (joins a + joins b)%nat.
Proof. unfold joins. now rewrite List.filter_app, length_app. Qed.

Lemma secondaryRun_refl n w : secondaryRun n w w.
Proof.
  split; [reflexivity|]. split; [reflexivity|].
  exists []. split; [reflexivity|]. split; [constructor|]. cbn. lia.
Qed.

Lemma secondaryRun_trans n1 n2 w1 w2 w3 :
  secondaryRun n1 w1 w2 -> secondaryRun n2 w2 w3 ->
  secondaryRun (n1 + n2) w1 w3.
Proof.
  intros (B1 & K1 & l1 & T1 & F1 & J1) (B2 & K2 & l2 & T2 & F2 & J2).
  split; [congruence|]. split; [congruence|].
  exists (l2 ++ l1). split; [now rewrite T2, T1, app_assoc|].
  split; [apply Forall_app; split; assumption|]. rewrite joins_app. lia.
Qed.

Lemma secondaryRun_more n m w w' :
  (n <= m)%nat -> secondaryRun n w w' -> secondaryRun m w w'.
Proof.
  intros Hle (B & K & l & T & F & J). split; [exact B|]. split; [exact K|].
  exists l. split; [exact T|]. split; [exact F|]. lia.
Qed.

Lemma bcast_no_joins (l : list event) :
  Forall bcastEvent l -> Forall secondaryEvent l /\ joins l = 0%nat.
Proof.
  induction 1 as [|e l He _ [IH1 IH2]]; [split; [constructor|reflexivity]|].
  split.
  - constructor; [|exact IH1]. destruct e; try exact I; destruct He.
  - unfold joins in *. cbn [List.filter].
    destruct e; cbn [isJoin]; try exact IH2; destruct He.
Qed.

Lemma discovered_secondaryRun w w' : discovered w w' -> secondaryRun 0 w w'.
Proof.
  intros (_ & B & K & _ & l & T & F). split; [exact B|]. split; [exact K|].
  exists l. split; [exact T|]. destruct (bcast_no_joins l F) as [F' J].
  split; [exact F'|]. lia.
Qed.

Section Secondary.

Context {ops : SmapOps}.
Variable self : Snode.
Variable cfg : config.
Variable env : environ.

Lemma secondaryStartup_facts (sm : option smapX) (w : world) :
  secondaryRun 1 w (final (secondaryStartup sm w)) /\
  (forall w', secondaryStartup sm w = Ret false w' -> joinedAsSecondary w') /\
  (forall f w', secondaryStartup sm w <> Exit f w') /\
  (forall w', secondaryStartup sm w <> Panic w').
Proof.
  unfold secondaryStartup, bind, putSmap, joinCluster, log, ret.
  cbn [w_joins]. destruct (w_joins w) as [|[|] rest]; cbn [final].
  - split.
    { split; [reflexivity|]. split; [reflexivity|].
      eexists [_]. split; [reflexivity|]. split; [repeat constructor|].
      cbn. lia. }
    split; [discriminate|]. split; discriminate.
  - split.
    { split; [reflexivity|]. split; [reflexivity|].
      eexists [_; _]. split; [reflexivity|]. split; [repeat constructor|].
      cbn. lia. }
    split; [discriminate|]. split; discriminate.
  - split.
    { split; [reflexivity|]. split; [reflexivity|].
      eexists [_; _; _]. split; [reflexivity|]. split; [repeat constructor|].
      cbn. lia. }
    split.
    { intros w' H. injection H as <-. eexists _, _.
      split; reflexivity. }
    split; discriminate.
Qed.

Lemma determineRole_returns smap loaded w sm secondary w1 :
  determineRole self env smap loaded w = Ret (sm, secondary) w1 ->
  w1 = w /\ (loaded = true -> exists m, sm = Some m).
Proof.
  unfold determineRole.
  destruct (str_neb (AIS_PRIMARY_ID env) EmptyString && AIS_IS_PRIMARY env &&
            str_neb (DaemonID self) (AIS_PRIMARY_ID env)); [discriminate|].
  unfold bind.
  destruct (loaded && str_neb (AIS_PRIMARY_ID env) EmptyString).
  - unfold adoptEnvPrimary.
    destruct (GetProxy _ _).
    + destruct (ProxySI _); [|discriminate].
      destruct (str_neb _ _); cbn; intros H; injection H as <- _ <-;
        (split; [reflexivity|]); intros ->; eexists; reflexivity.
    + cbn. intros H; injection H as <- _ <-.
      split; [reflexivity|]. intros ->; eexists; reflexivity.
  - cbn. intros H; injection H as <- _ <-.
    split; [reflexivity|]. intros ->; eexists; reflexivity.
Qed.

(** The track of a secondary, lines 50-65 of [bootstrap]. *)
Lemma secondary_track_facts (loaded : bool) (smap1 : option smapX) (w : world) :
  (loaded = true -> exists m, smap1 = Some m) ->
  let o :=
    (e <- secondaryStartup smap1 ;;
     if e : bool then
       e2 <- (if loaded then
                match smap1 with
                | None => panic
                | Some m =>
                    found <- uncoverMeta cfg m ;;
                    match fst found with
                    | Some maxVer =>
                        match ProxySI maxVer with
                        | Some _ => secondaryStartup (Some maxVer)
                        | None => ret e
                        end
                    | None => ret e
                    end
                end
              else ret e) ;;
       if e2 : bool then exitLogf ExitJoin else ret tt
     else ret tt) w in
  secondaryRun (if loaded then 2 else 1) w (final o) /\
  (forall w', o = Ret tt w' -> joinedAsSecondary w') /\
  (forall f w', o = Exit f w' ->
     f = ExitJoin \/ f = ExitBmdSplit \/ f = ExitCIE 30) /\
  (forall w', o <> Panic w').
Proof.
  intros Hld. unfold bind at 1.
  destruct (secondaryStartup_facts smap1 w) as (R1 & J1 & X1 & P1).
  destruct (secondaryStartup smap1 w) as [e w2|f w2|w2|w2] eqn:E1;
    cbn [final] in R1.
  2:{ exfalso. now apply (X1 f w2). }
  2:{ exfalso. now apply (P1 w2). }
  2:{ cbn. split; [destruct loaded; [eapply secondaryRun_more; [|exact R1]; lia
                                    |exact R1]|].
      split; [discriminate|]. split; discriminate. }
  destruct e.
  2:{ cbn. split; [destruct loaded; [eapply secondaryRun_more; [|exact R1]; lia
                                    |exact R1]|].
      split; [intros w' H; injection H as <-; now apply J1|].
      split; discriminate. }
  destruct loaded.
  2:{ cbn. split; [exact R1|]. split; [discriminate|].
      split; [|discriminate]. intros f w' H. injection H as <- _. now left. }
  destruct (Hld eq_refl) as [m ->].
  unfold bind.
  destruct (uncoverMeta_facts cfg m w2) as (D2 & P2 & X2).
  apply discovered_secondaryRun in D2.
  pose proof (secondaryRun_trans _ _ _ _ _ R1 D2) as R2.
  destruct (uncoverMeta cfg m w2) as [found w3|f w3|w3|w3] eqn:E2;
    cbn [final] in R2.
  2:{ cbn. split; [eapply secondaryRun_more; [|exact R2]; lia|].
      split; [discriminate|]. split; [|discriminate].
      intros f' w' H. injection H as <- _. right. now apply (X2 f w3). }
  2:{ exfalso. now apply (P2 w3). }
  2:{ cbn. split; [eapply secondaryRun_more; [|exact R2]; lia|].
      split; [discriminate|]. split; discriminate. }
  assert (Hfail : forall o', o' = Exit (A := unit) ExitJoin w3 ->
            secondaryRun 2 w (final o') /\
            (forall w', o' = Ret tt w' -> joinedAsSecondary w') /\
            (forall f w', o' = Exit f w' ->
               f = ExitJoin \/ f = ExitBmdSplit \/ f = ExitCIE 30) /\
            (forall w', o' <> Panic w')).
  { intros o' ->. cbn. split; [eapply secondaryRun_more; [|exact R2]; lia|].
    split; [discriminate|]. split; [|discriminate].
    intros f w' H. injection H as <- _. now left. }
  destruct (fst found) as [maxVer|]; [|now apply Hfail].
  destruct (ProxySI maxVer); [|now apply Hfail].
  destruct (secondaryStartup_facts (Some maxVer) w3) as (R3 & J3 & X3 & P3).
  pose proof (secondaryRun_trans _ _ _ _ _ R2 R3) as R4.
  destruct (secondaryStartup (Some maxVer) w3) as [e3 w4|f w4|w4|w4] eqn:E3;
    cbn [final] in R4.
  2:{ exfalso. now apply (X3 f w4). }
  2:{ exfalso. now apply (P3 w4). }
  2:{ cbn. split; [exact R4|]. split; [discriminate|]. split; discriminate. }
  destruct e3; cbn.
  - split; [exact R4|]. split; [discriminate|]. split; [|discriminate].
    intros f w' H. injection H as <- _. now left.
  - split; [exact R4|].
    split; [intros w' H; injection H as <-; now apply J3|].
    split; discriminate.
Qed.

(** X18. The track of a secondary. When [determineRole] decides
    secondary, [bootstrap] calls the join (with its retries) at most twice
    (once when no Smap was loaded), with a discovery in between; it
    installs Smaps but leaves the BMD in the owner and the registration
    ticks alone, and persists and publishes nothing. It returns only with
    the node joined:
    an Smap installed, the join made, the poll started. It exits only on
    a failed join or on an integrity error of the discovery, and it does
    not panic. *)
Theorem secondary_joins_or_exits (disk : option smapX) (ntargets : Z)
    (w w1 : world) (sm : option smapX) :
  determineRole self env (fst (loadedFrom disk)) (snd (loadedFrom disk)) w
    = Ret (sm, true) w1 ->
  let o := bootstrap self cfg env disk ntargets w in
  secondaryRun (if snd (loadedFrom disk) then 2 else 1) w (final o) /\
  (forall w', o = Ret tt w' -> joinedAsSecondary w') /\
  (forall f w', o = Exit f w' ->
     f = ExitJoin \/ f = ExitBmdSplit \/ f = ExitCIE 30) /\
  (forall w', o <> Panic w').
Proof.
  intros H. destruct (determineRole_returns _ _ _ _ _ _ H) as [-> Hld].
  unfold bootstrap. unfold loadedFrom in *.
  destruct (match disk with
            | Some m => (m, negb (checkPresenceNetChange m))
            | None => (newSmap, false)
            end) as [smap loaded].
  cbn [fst snd] in *. cbv zeta.
  rewrite !(bind_Ret _ _ _ _ _ H). cbn [fst snd negb].
  exact (secondary_track_facts loaded sm w Hld).
Qed.

End Secondary.

Lemma secondary_joins_or_exits_witness :
  exists w',
    bootstrap (ops := specOps) G2 cfg0 (mkEnv "G1" false) None 0
      (worldWith newSmap [] [false]) = Ret tt w' /\
    joinedAsSecondary w'.
Proof.
  destruct (secondary_joins_or_exits (ops := specOps) G2 cfg0 (mkEnv "G1" false)
              None 0 (worldWith newSmap [] [false])
              (worldWith newSmap [] [false]) None)
    as (_ & J & _).
  - vm_compute. reflexivity.
  - eexists. split; [vm_compute; reflexivity|].
    apply J. vm_compute. reflexivity.
Defined.

Lemma keepsBMD_bind {A B} (c : M A) (k : A -> M B) :
  keepsBMD c -> (forall a, keepsBMD (k a)) -> keepsBMD (bind c k).
Proof.
  intros Hc Hk w. specialize (Hc w). unfold bind.
  destruct (c w) as [a w1|f w1|w1|w1]; cbn [final] in *; try exact Hc.
  now rewrite Hk.
Qed.

Lemma bind_assoc_get {A B} (k : option bucketMD -> M A) (k' : A -> M B) w :
  bind (bind getBMD k) k' w = bind (k (w_bmd w)) k' w.
Proof. reflexivity. Qed.

Lemma put_then_keeps {A} nb (k : M A) w :
  keepsBMD k -> w_bmd (final (bind (putBMD nb) (fun _ => k) w)) = Some nb.
Proof. intros K. unfold bind, putBMD. now rewrite K. Qed.

Lemma ret_then_keeps {A B} (a : B) (k : M A) w :
  keepsBMD k -> w_bmd (final (bind (ret a) (fun _ => k) w)) = w_bmd w.
Proof. intros K. unfold bind, ret. now rewrite K. Qed.

Lemma keepsBMD_getSmap : keepsBMD getSmap.
Proof. intros w. unfold getSmap. now destruct (w_smap w). Qed.

Section DiscoverBMD.

Context {ops : SmapOps}.
Variable self : Snode.
Variable cfg : config.

Lemma keepsBMD_mergeAndInstall maxVer eq : keepsBMD (mergeAndInstall maxVer eq).
Proof.
  unfold mergeAndInstall. apply keepsBMD_bind; [apply keepsBMD_getSmap|].
  intros clone. destruct (negb eq).
  - destruct (merge maxVer clone false) as [[d a] e]. intros w. reflexivity.
  - intros w. reflexivity.
Qed.

(** X19. [discoverMeta] deals with the BMD before it looks at the Smap:
    once [uncoverMeta] has returned, the BMD it found is in the owner if
    the owner had none or one of a lower version, and the owner keeps its
    own otherwise; and this whatever comes of the Smap afterwards,
    return, change of mind or exit on an integrity error. *)
Theorem discovered_bmd_comes_first (smap : smapX) (w w1 : world)
    (mv : option smapX) (b : option bucketMD) :
  uncoverMeta cfg smap w = Ret (mv, b) w1 ->
  let w' := final (discoverMeta self cfg smap w) in
  (b = None -> w_bmd w' = w_bmd w) /\
  (forall nb, b = Some nb -> w_bmd w = None -> w_bmd w' = Some nb) /\
  (forall nb c, b = Some nb -> w_bmd w = Some c ->
     w_bmd w' = Some (if bmdVersion c <? bmdVersion nb then nb else c)).
Proof.
  intros H. cbv zeta.
  destruct (uncoverMeta_facts cfg smap w) as ((_ & Hb & _) & _).
  rewrite H in Hb. cbn [final] in Hb.
  unfold discoverMeta. rewrite !(bind_Ret _ _ _ _ _ H). cbn [fst snd].
  match goal with
  | |- context [bind (installBMD b) ?k] =>
      assert (K : forall u, keepsBMD (k u))
  end.
  { intros _. destruct mv as [maxVer|]; [|intros u; reflexivity].
    destruct (Version maxVer =? 0); [intros u; reflexivity|].
    destruct (Compare smap maxVer) as [[su sv] eq].
    destruct (negb su); [intros u; reflexivity|].
    destruct (eq && sv); [intros u; reflexivity|].
    destruct (ProxySI maxVer) as [pr|]; [|apply keepsBMD_mergeAndInstall].
    destruct (str_neb (DaemonID pr) (DaemonID self));
      [|apply keepsBMD_mergeAndInstall].
    destruct (Version smap <? Version maxVer); intros u; reflexivity. }
  pose proof (K tt) as K'. cbv beta in K'. clear K.
  unfold installBMD.
  destruct b as [nb|].
  - split; [discriminate|].
    rewrite bind_assoc_get. rewrite Hb.
    destruct (w_bmd w) as [c|] eqn:Hc.
    + split; [discriminate|]. intros nb' c' E1 E2.
      injection E1 as <-. injection E2 as <-.
      destruct (bmdVersion c <? bmdVersion nb); [now apply put_then_keeps|].
      rewrite ret_then_keeps by exact K'. exact Hb.
    + split; [|discriminate]. intros nb' E1 _. injection E1 as <-.
      now apply put_then_keeps.
  - split; [|split; discriminate]. intros _.
    rewrite ret_then_keeps by exact K'. exact Hb.
Qed.

End DiscoverBMD.

Lemma discovered_bmd_comes_first_witness :
  exists w',
    discoverMeta (ops := specOps) G1 cfg0 local5 startedWorld = Ret tt w' /\
    w_bmd w' = Some (mkBMD "B" 4).
Proof.
  destruct (discovered_bmd_comes_first (ops := specOps) G1 cfg0 local5
              startedWorld
              (final (uncoverMeta (ops := specOps) cfg0 local5 startedWorld))
              (Some newer9) (Some (mkBMD "B" 4)))
    as (_ & _ & P).
  - vm_compute. reflexivity.
  - eexists. split; [vm_compute; reflexivity|].
    exact (P (mkBMD "B" 4) (mkBMD EmptyString 0) eq_refl eq_refl).
Defined.

Section DiscoverSmap.

Context {ops : SmapOps}.
Variable self : Snode.
Variable cfg : config.

Lemma installBMD_returns b w :
  exists w2, installBMD b w = Ret tt w2 /\ w_smap w2 = w_smap w.
Proof.
  unfold installBMD. destruct b as [nb|]; [|now exists w].
  unfold bind, getBMD. destruct (w_bmd w) as [c|].
  - destruct (bmdVersion c <? bmdVersion nb); eexists; split; reflexivity.
  - eexists; split; reflexivity.
Qed.

(** X20. What [discoverMeta] can do to the Smap in the owner, which holds
    [cur] at the start. When it exits, the owner still holds [cur]. When
    it returns, the owner holds [cur]; or the Smap that the discovery
    found, with this node added, when that names another primary and has
    a version above the one of the Smap passed in; or [cur] with nothing
    changed but the version, now one above the greater of the two
    versions. It never installs the union of the two node maps. *)
Theorem discovery_installs (smap cur : smapX) (w : world) :
  w_smap w = Some cur ->
  let o := discoverMeta self cfg smap w in
  (forall f w', o = Exit f w' -> w_smap w' = Some cur) /\
  (forall w', o = Ret tt w' ->
     w_smap w' = Some cur \/
     (exists maxVer b w1 pr,
        uncoverMeta cfg smap w = Ret (Some maxVer, b) w1 /\
        ProxySI maxVer = Some pr /\ DaemonID pr <> DaemonID self /\
        Version smap < Version maxVer /\
        w_smap w' = Some (addProxy maxVer self)) \/
     (exists maxVer b w1,
        uncoverMeta cfg smap w = Ret (Some maxVer, b) w1 /\
        w_smap w' =
          Some (set_Version cur
                  (wrap64 (MaxI64 (Version cur) (Version maxVer) + 1))))).
Proof.
  intros Hs. cbv zeta. unfold discoverMeta.
  destruct (uncoverMeta_facts cfg smap w) as ((Hs1 & _) & _ & _).
  destruct (uncoverMeta cfg smap w) as [[mv b] w1|f w1|w1|w1] eqn:E;
    cbn [final] in Hs1.
  2:{ unfold bind. rewrite E. split; [|discriminate].
      intros f' w' H. injection H as _ <-. now rewrite Hs1. }
  2:{ unfold bind. rewrite E. split; discriminate. }
  2:{ unfold bind. rewrite E. split; discriminate. }
  rewrite !(bind_Ret _ _ _ _ _ E). cbn [fst snd].
  destruct (installBMD_returns b w1) as (w2 & E2 & Hs2).
  rewrite !(bind_Ret _ _ _ _ _ E2).
  assert (Hcur : w_smap w2 = Some cur) by congruence.
  clear E2 Hs2 Hs1.
  assert (Hsame : forall A (o : outcome A), final o = w2 ->
            (forall f w', o = Exit f w' -> w_smap w' = Some cur) /\
            (forall a w', o = Ret a w' -> w_smap w' = Some cur)).
  { intros A o Ho. split.
    - intros f w' ->. cbn in Ho. now subst.
    - intros a w' ->. cbn in Ho. now subst. }
  assert (Hkeep : forall o : outcome unit, final o = w2 ->
            (forall f w', o = Exit f w' -> w_smap w' = Some cur) /\
            (forall w', o = Ret tt w' ->
               w_smap w' = Some cur \/
               (exists maxVer b0 w3 pr,
                  Ret (A := option smapX * option bucketMD) (mv, b) w1
                    = Ret (Some maxVer, b0) w3 /\
                  ProxySI maxVer = Some pr /\ DaemonID pr <> DaemonID self /\
                  Version smap < Version maxVer /\
                  w_smap w' = Some (addProxy maxVer self)) \/
               (exists maxVer b0 w3,
                  Ret (A := option smapX * option bucketMD) (mv, b) w1
                    = Ret (Some maxVer, b0) w3 /\
                  w_smap w' =
                    Some (set_Version cur
                            (wrap64 (MaxI64 (Version cur) (Version maxVer) + 1)))))).
  { intros o Ho. destruct (Hsame unit o Ho) as [H1 H2].
    split; [exact H1|]. intros w' H. left. now apply (H2 tt). }
  destruct mv as [maxVer|]; [|now apply Hkeep].
  destruct (Version maxVer =? 0); [now apply Hkeep|].
  destruct (Compare smap maxVer) as [[su sv] eq].
  destruct (negb su); [now apply Hkeep|].
  destruct (eq && sv); [now apply Hkeep|].
  assert (Hmerge :
    (forall f w', mergeAndInstall maxVer eq w2 = Exit f w' ->
                  w_smap w' = Some cur) /\
    (forall w', mergeAndInstall maxVer eq w2 = Ret tt w' ->
       w_smap w' =
         Some (set_Version cur
                 (wrap64 (MaxI64 (Version cur) (Version maxVer) + 1))))).
  { unfold mergeAndInstall, bind, getSmap. rewrite Hcur.
    destruct (negb eq).
    - destruct (merge maxVer cur false) as [[d a] e]. split; [|discriminate].
      intros f w' H. injection H as _ <-. exact Hcur.
    - split; [discriminate|]. intros w' H. injection H as <-. reflexivity. }
  assert (Hm : forall o, o = mergeAndInstall maxVer eq w2 ->
    (forall f w', o = Exit f w' -> w_smap w' = Some cur) /\
    (forall w', o = Ret tt w' ->
       w_smap w' = Some cur \/
       (exists maxVer0 b0 w3 pr,
          Ret (A := option smapX * option bucketMD) (Some maxVer, b) w1
            = Ret (Some maxVer0, b0) w3 /\
          ProxySI maxVer0 = Some pr /\ DaemonID pr <> DaemonID self /\
          Version smap < Version maxVer0 /\
          w_smap w' = Some (addProxy maxVer0 self)) \/
       (exists maxVer0 b0 w3,
          Ret (A := option smapX * option bucketMD) (Some maxVer, b) w1
            = Ret (Some maxVer0, b0) w3 /\
          w_smap w' =
            Some (set_Version cur
                    (wrap64 (MaxI64 (Version cur) (Version maxVer0) + 1)))))).
  { intros o ->. destruct Hmerge as [M1 M2]. split; [exact M1|].
    intros w' H. right. right. exists maxVer, b, w1.
    split; [reflexivity|]. now apply M2. }
  destruct (ProxySI maxVer) as [pr|] eqn:Hpr; [|now apply Hm].
  destruct (str_neb (DaemonID pr) (DaemonID self)) eqn:Hne; [|now apply Hm].
  apply str_neb_true in Hne.
  destruct (Version smap <? Version maxVer) eqn:Hlt; [|now apply Hkeep].
  apply Z.ltb_lt in Hlt. split; [discriminate|].
  intros w' H. injection H as <-. right. left.
  exists maxVer, b, w1, pr. split; [reflexivity|].
  split; [exact Hpr|]. split; [exact Hne|]. split; [exact Hlt|reflexivity].
Qed.

End DiscoverSmap.

Lemma discovery_installs_witness :
  w_smap startedWorld = Some local5 /\
  forall f w',
    discoverMeta (ops := specOps) G1 cfg0 local5 startedWorld = Exit f w' ->
    w_smap w' = Some local5.
Proof.
  split; [reflexivity|].
  exact (proj1 (discovery_installs (ops := specOps) G1 cfg0 local5 local5
                  startedWorld eq_refl)).
Defined.

(* ===================================================================== *)
(** ** Changes of mind, and a local copy that cannot be used *)
(* ===================================================================== *)

Section ChangeOfMind.

Context {ops : SmapOps}.
Variable self : Snode.
Variable cfg : config.
Variable env : environ.

Lemma secondaryStartup_owner (sm : option smapX) (w : world) :
  w_smap (final (secondaryStartup sm w))
    = Some (match sm with Some m => m | None => newSmap end) /\
  w_rounds (final (secondaryStartup sm w)) = w_rounds w.
Proof.
  unfold secondaryStartup, bind, putSmap, joinCluster, log, ret.
  cbn [w_joins]. destruct (w_joins w) as [|[|] rest]; split; reflexivity.
Qed.

(** X21. Change of mind during the registration window (lines 160-171).
    When the start-up is not skipped and [acceptRegistrations] returns an
    Smap, [primaryStartup] installs it with this node added and goes on
    as a secondary with at most one call of the join: it does not discover (the
    rounds are untouched), leaves the BMD in the owner alone, and ends
    with that Smap in the owner. It returns only with the node joined,
    exits only on a failed join, and does not panic. *)
Theorem change_of_mind_joins (loaded : option smapX) (ntargets : Z)
    (w w1 : world) (mv : smapX) :
  skipStartup cfg = false ->
  acceptRegistrations self cfg (minimalSmap self) loaded ntargets
    (final (putSmap (minimalSmap self) w)) = Ret (Some mv) w1 ->
  let o := primaryStartup self cfg loaded ntargets w in
  w_smap (final o) = Some (addProxy mv self) /\
  w_bmd (final o) = w_bmd w /\
  w_rounds (final o) = w_rounds w /\
  secondaryRun 1 w1 (final o) /\
  (forall w', o = Ret tt w' -> joinedAsSecondary w') /\
  (forall f w', o = Exit f w' -> f = ExitJoin) /\
  (forall w', o <> Panic w').
Proof.
  intros Hskip Hacc. cbv zeta.
  assert (Hw1 : w_bmd w1 = w_bmd w /\ w_rounds w1 = w_rounds w).
  { revert Hacc. unfold acceptRegistrations.
    destruct (CountTargets (minimalSmap self) =? 0); [|discriminate].
    pose proof (regLoop_waited self cfg loaded ntargets
                  (w_ticks (final (putSmap (minimalSmap self) w)))
                  (Startup cfg ÷ 2)
                  (match loaded with None => true | Some _ => false end)
                  None (set_ticks [] (final (putSmap (minimalSmap self) w))))
      as (B & R & _).
    destruct (regLoop self cfg loaded ntargets _ _ _ None _)
      as [[mv0 rest] w2|f w2|w2|w2]; try discriminate.
    intros H. injection H as _ <-. cbn [final] in B, R. split.
    - exact B.
    - exact R. }
  destruct Hw1 as [Hb1 Hr1].
  unfold primaryStartup. rewrite Hskip.
  assert (Hput : putSmap (minimalSmap self) w
                 = Ret tt (final (putSmap (minimalSmap self) w)))
    by reflexivity.
  rewrite !(bind_Ret _ _ _ _ _ Hput), !(bind_Ret _ _ _ _ _ Hacc).
  set (mv1 := addProxy mv self).
  set (w2 := final (putSmap mv1 w1)).
  assert (Hput2 : putSmap mv1 w1 = Ret tt w2) by reflexivity.
  rewrite !(bind_Ret _ _ _ _ _ Hput2). unfold demote.
  destruct (secondaryStartup_facts (Some mv1) w2) as (R1 & J1 & X1 & P1).
  destruct (secondaryStartup_owner (Some mv1) w2) as (O1 & O2).
  assert (R0 : secondaryRun 0 w1 w2).
  { split; [reflexivity|]. split; [reflexivity|].
    exists [EvPutSmap mv1]. split; [reflexivity|].
    split; [repeat constructor|]. cbn. lia. }
  pose proof (secondaryRun_trans _ _ _ _ _ R0 R1) as Hj. cbn [Nat.add] in Hj.
  destruct R1 as (B1 & _ & _).
  assert (Hb2 : w_bmd w2 = w_bmd w1) by reflexivity.
  assert (Hr2 : w_rounds w2 = w_rounds w1) by reflexivity.
  unfold bind.
  destruct (secondaryStartup (Some mv1) w2) as [e w3|f w3|w3|w3] eqn:E1;
    cbn [final] in *.
  2:{ exfalso. now apply (X1 f w3). }
  2:{ exfalso. now apply (P1 w3). }
  - destruct e; unfold exitLogf, ret; cbn [final].
    + split; [exact O1|]. split; [congruence|]. split; [congruence|].
      split; [exact Hj|]. split; [discriminate|]. split; [|discriminate].
      intros f w' H. now injection H as <- _.
    + split; [exact O1|]. split; [congruence|]. split; [congruence|].
      split; [exact Hj|].
      split; [intros w' H; injection H as <-; now apply J1|].
      split; discriminate.
  - split; [exact O1|]. split; [congruence|]. split; [congruence|].
    split; [exact Hj|]. split; [discriminate|]. split; discriminate.
Qed.

Lemma determineRole_not_loaded (smap smap' : smapX) (w : world) :
  determineRole self env smap false w = determineRole self env smap' false w.
Proof.
  unfold determineRole. cbn [andb].
  destruct (str_neb (AIS_PRIMARY_ID env) EmptyString && AIS_IS_PRIMARY env &&
            str_neb (DaemonID self) (AIS_PRIMARY_ID env)); reflexivity.
Qed.

(** X22. A local copy that cannot be relied upon is not used at all: when
    the Smap on disk fails the check of the network presence, [bootstrap]
    does what it does with no Smap on disk, whatever the Smap holds. *)
Theorem unusable_local_copy_is_ignored (m : smapX) (ntargets : Z) (w : world) :
  checkPresenceNetChange m = true ->
  bootstrap self cfg env (Some m) ntargets w
    = bootstrap self cfg env None ntargets w.
Proof.
  intros H. unfold bootstrap. rewrite H. cbn [negb].
  unfold bind at 1 3. rewrite (determineRole_not_loaded m newSmap w).
  reflexivity.
Qed.

End ChangeOfMind.

Lemma change_of_mind_joins_witness :
  primaryStartup (ops := specOps) G1 cfg0 (Some wider7) 0 supersededWorld
    = Ret tt (final (primaryStartup (ops := specOps) G1 cfg0 (Some wider7) 0
                       supersededWorld)) /\
  joinedAsSecondary
    (final (primaryStartup (ops := specOps) G1 cfg0 (Some wider7) 0
              supersededWorld)) /\
  w_smap (final (primaryStartup (ops := specOps) G1 cfg0 (Some wider7) 0
                   supersededWorld)) = Some (addProxy newer9 G1).
Proof.
  destruct (change_of_mind_joins (ops := specOps) G1 cfg0 (Some wider7) 0
              supersededWorld
              (final (acceptRegistrations (ops := specOps) G1 cfg0
                        (minimalSmap G1) (Some wider7) 0
                        (final (putSmap (minimalSmap G1) supersededWorld))))
              newer9)
    as (S & _ & _ & _ & J & _).
  - reflexivity.
  - vm_compute. reflexivity.
  - assert (E : primaryStartup (ops := specOps) G1 cfg0 (Some wider7) 0
                  supersededWorld
                = Ret tt (final (primaryStartup (ops := specOps) G1 cfg0
                                   (Some wider7) 0 supersededWorld)))
      by (vm_compute; reflexivity).
    split; [exact E|]. split; [exact (J _ E)|exact S].
Defined.

Lemma unusable_local_copy_is_ignored_witness :
  bootstrap (ops := netChangedOps) G1 cfg0 (mkEnv EmptyString true)
    (Some local5) 0 freshWorld
  = bootstrap (ops := netChangedOps) G1 cfg0 (mkEnv EmptyString true)
      None 0 freshWorld.
Proof.
  apply (unusable_local_copy_is_ignored (ops := netChangedOps) G1 cfg0
           (mkEnv EmptyString true) local5 0 freshWorld).
  reflexivity.
Defined.
